(** * discordInstagram: the ingest Lambda and the queue consumer

    A shallow embedding of [awsCloudformation/lambda_function.py] and
    [discordBot/bot.py].

    Python values are the JSON-shaped values the two programs exchange
    (type [py]); a Python [str] is a list of code points; an operation
    that can raise returns a [result].  The AWS and Discord clients are
    collaborators: their answers are fields of an environment record and
    the calls made to them are logged.  Library functions the programs
    call ([json.dumps], [json.loads], [urllib.parse.quote] and
    [unquote_plus], [os.path.splitext], [str.lower] on ASCII, true
    division and [format(_, '.1f')]) are written out after CPython's
    behaviour; [datetime.fromisoformat], [int] of a text and the lower
    case of a character outside ASCII are fields of the environment.
    JSON numbers are integers: a number with a fraction or an exponent
    is a float in Python, for which [Json.loads] raises [Unmodelled]. *)

From Stdlib Require Import List ZArith NArith Bool Ascii String Lia.
Import ListNotations.

Local Open Scope N_scope.

(** ** Strings *)

(** A Python [str]: its code points. *)
Definition str := list N.

(** An ASCII literal as a [str]. *)
Definition lit (s : string) : str :=
  List.map N_of_ascii (list_ascii_of_string s).

Fixpoint str_eqb (a b : str) : bool :=
  match a, b with
  | [], [] => true
  | x :: a', y :: b' => (x =? y) && str_eqb a' b'
  | _, _ => false
  end.

(** [sep.join(parts)] *)
Fixpoint join (sep : str) (parts : list str) : str :=
  match parts with
  | [] => []
  | [p] => p
  | p :: ps => p ++ sep ++ join sep ps
  end.

(** The value of a hexadecimal digit. *)
Definition hexval (c : N) : option N :=
  if (48 <=? c) && (c <=? 57) then Some (c - 48)
  else if (97 <=? c) && (c <=? 102) then Some (c - 87)
  else if (65 <=? c) && (c <=? 70) then Some (c - 55)
  else None.

(** [s.replace(old, new)] for single characters *)
Definition replace_char (old new : N) (s : str) : str :=
  List.map (fun c => if c =? old then new else c) s.

(** [c in s] *)
Definition contains (c : N) (s : str) : bool := existsb (N.eqb c) s.

(** ** Exceptions and results *)

Inductive exn : Type :=
| AttributeError
| TypeError
| ValueError
| KeyError
| OverflowError
| JSONDecodeError
| UnicodeEncodeError
| RecursionError
| ZeroDivisionError
| ClientError (msg : str)      (* raised by an AWS or Discord client *)
| CancelledError               (* a [BaseException]: no [except Exception] catches it *)
| Unmodelled.                  (* a float would be needed *)

(** [isinstance(e, Exception)] *)
Definition is_exception (e : exn) : bool :=
  match e with
  | CancelledError => false
  | _ => true
  end.

Inductive result (A : Type) : Type :=
| Ok (a : A)
| Raise (e : exn).
Arguments Ok {A} a.
Arguments Raise {A} e.

Definition bind {A B} (r : result A) (k : A -> result B) : result B :=
  match r with
  | Ok a => k a
  | Raise e => Raise e
  end.

Declare Scope result_scope.
Delimit Scope result_scope with result.
Notation "x <- r ;; k" := (bind r (fun x => k))
  (at level 61, r at next level, right associativity) : result_scope.
Notation "' p <- r ;; k" := (bind r (fun x => let p := x in k))
  (at level 61, p pattern, r at next level, right associativity) : result_scope.
Local Open Scope result_scope.

Definition is_ok {A} (r : result A) : bool :=
  match r with Ok _ => true | Raise _ => false end.

(** ** Python values *)

#[local] Unset Elimination Schemes.
Inductive py : Type :=
| PNone
| PBool (b : bool)
| PInt (z : Z)
| PStr (s : str)
| PList (l : list py)
| PDict (items : list (str * py)).   (* insertion order, keys distinct *)
#[local] Set Elimination Schemes.

(** [bool(v)] *)
Definition truthy (v : py) : bool :=
  match v with
  | PNone => false
  | PBool b => b
  | PInt z => negb (z =? 0)%Z
  | PStr s => negb (str_eqb s [])
  | PList l => match l with [] => false | _ => true end
  | PDict l => match l with [] => false | _ => true end
  end.

Fixpoint lookup (k : str) (items : list (str * py)) : option py :=
  match items with
  | [] => None
  | (k', v) :: rest => if str_eqb k k' then Some v else lookup k rest
  end.

(** [d[k] = v] on the item list of a dict *)
Fixpoint dict_set (items : list (str * py)) (k : str) (v : py) : list (str * py) :=
  match items with
  | [] => [(k, v)]
  | (k', v') :: rest =>
      if str_eqb k k' then (k', v) :: rest else (k', v') :: dict_set rest k v
  end.

(** [dict(pairs)] *)
Definition dict_of_pairs (pairs : list (str * py)) : list (str * py) :=
  fold_left (fun d kv => dict_set d (fst kv) (snd kv)) pairs [].

(** [v.get(k, default)]: only a dict has [get]. *)
Definition py_get (v : py) (k : str) (default : py) : result py :=
  match v with
  | PDict items =>
      Ok (match lookup k items with Some x => x | None => default end)
  | _ => Raise AttributeError
  end.

(** [v[k]] for a string key *)
Definition py_getitem (v : py) (k : str) : result py :=
  match v with
  | PDict items =>
      match lookup k items with
      | Some x => Ok x
      | None => Raise KeyError
      end
  | _ => Raise TypeError
  end.

(** [len(v)] *)
Definition py_len (v : py) : result nat :=
  match v with
  | PStr s => Ok (List.length s)
  | PList l => Ok (List.length l)
  | PDict l => Ok (List.length l)
  | _ => Raise TypeError
  end.

(** [iter(v)], run to the end *)
Definition py_iter (v : py) : result (list py) :=
  match v with
  | PStr s => Ok (List.map (fun c => PStr [c]) s)
  | PList l => Ok l
  | PDict l => Ok (List.map (fun kv => PStr (fst kv)) l)
  | _ => Raise TypeError
  end.

(** ** Well-formed values *)

(** Text: every code point is below [0x110000], and no UTF-16 high
    surrogate code point stands directly before a low surrogate one. *)
Fixpoint str_ok (s : str) : bool :=
  match s with
  | [] => true
  | c :: rest =>
      (c <? 0x110000)
      && negb ((0xd800 <=? c) && (c <=? 0xdbff)
               && match rest with
                  | d :: _ => (0xdc00 <=? d) && (d <=? 0xdfff)
                  | [] => false
                  end)
      && str_ok rest
  end.

Fixpoint keys_distinct (ks : list str) : bool :=
  match ks with
  | [] => true
  | k :: rest => negb (existsb (str_eqb k) rest) && keys_distinct rest
  end.

(** A value as Python holds it: well-formed text, and the keys of a dict
    pairwise different. *)
Fixpoint py_ok (v : py) : bool :=
  match v with
  | PNone | PBool _ | PInt _ => true
  | PStr s => str_ok s
  | PList l => forallb py_ok l
  | PDict items =>
      keys_distinct (List.map fst items)
      && forallb (fun kv => str_ok (fst kv) && py_ok (snd kv)) items
  end.

(** ** The [json] module *)

Module Json.

(** *** [json.dumps]: the encoder with its defaults
    ([ensure_ascii=True], separators [", "] and [": "]) *)

Definition hex_digit (d : N) : N := if d <? 10 then 48 + d else 87 + d.

(** ['\\u{0:04x}'.format(n)] for [n < 0x10000] *)
Definition u_escape (n : N) : str :=
  [92; 117; hex_digit (n / 4096 mod 16); hex_digit (n / 256 mod 16);
   hex_digit (n / 16 mod 16); hex_digit (n mod 16)].

(** The replacement [py_encode_basestring_ascii] makes for one character:
    [ESCAPE_ASCII] matches a backslash, a double quote and everything
    outside [' '..'~']. *)
Definition escape_char (c : N) : str :=
  if c =? 92 then [92; 92]
  else if c =? 34 then [92; 34]
  else if (32 <=? c) && (c <=? 126) then [c]
  else if c =? 8 then [92; 98]
  else if c =? 12 then [92; 102]
  else if c =? 10 then [92; 110]
  else if c =? 13 then [92; 114]
  else if c =? 9 then [92; 116]
  else if c <? 0x10000 then u_escape c
  else
    let n := c - 0x10000 in
    u_escape (N.lor 0xd800 (N.land (N.shiftr n 10) 0x3ff))
      ++ u_escape (N.lor 0xdc00 (N.land n 0x3ff)).

Definition encode_basestring_ascii (s : str) : str :=
  34 :: flat_map escape_char s ++ [34].

(** Decimal digits of [n], most significant first, pushed onto [acc]. *)
Fixpoint digits_aux (fuel : nat) (n : N) (acc : str) : str :=
  match fuel with
  | O => acc
  | S fuel' =>
      let acc' := (48 + n mod 10) :: acc in
      if n <? 10 then acc' else digits_aux fuel' (n / 10) acc'
  end.

Definition digits (n : N) : str :=
  if n =? 0 then [48] else digits_aux (N.to_nat (N.size n)) n [].

(** [int.__repr__] *)
Definition repr_int (z : Z) : str :=
  if (z <? 0)%Z then 45 :: digits (Z.abs_N z) else digits (Z.abs_N z).

Fixpoint dumps (v : py) : str :=
  match v with
  | PNone => lit "null"
  | PBool true => lit "true"
  | PBool false => lit "false"
  | PInt z => repr_int z
  | PStr s => encode_basestring_ascii s
  | PList l => 91 :: join (lit ", ") (List.map dumps l) ++ [93]
  | PDict items =>
      123 :: join (lit ", ")
               (List.map (fun kv => encode_basestring_ascii (fst kv)
                                      ++ lit ": " ++ dumps (snd kv)) items)
          ++ [125]
  end.

(** *** [json.loads]: the scanner, strict mode *)

Definition hex4 (a b c d : N) : option N :=
  match hexval a, hexval b, hexval c, hexval d with
  | Some x, Some y, Some z, Some w => Some (((x * 16 + y) * 16 + z) * 16 + w)
  | _, _, _, _ => None
  end.

Definition is_high_surrogate (c : N) : bool := (0xd800 <=? c) && (c <=? 0xdbff).
Definition is_low_surrogate (c : N) : bool := (0xdc00 <=? c) && (c <=? 0xdfff).

Definition join_surrogates (hi lo : N) : N :=
  0x10000 + N.lor (N.shiftl (hi - 0xd800) 10) (lo - 0xdc00).

(** The character a one-letter escape stands for. *)
Definition simple_escape (e : N) : option N :=
  if e =? 34 then Some 34
  else if e =? 92 then Some 92
  else if e =? 47 then Some 47
  else if e =? 98 then Some 8
  else if e =? 102 then Some 12
  else if e =? 110 then Some 10
  else if e =? 114 then Some 13
  else if e =? 116 then Some 9
  else None.

Definition cons_chr (c : N) (r : result (str * str)) : result (str * str) :=
  '(s, rest) <- r ;; Ok (c :: s, rest).

(** [scanstring], entered after the opening quote: the string and the
    text after its closing quote.  An escaped high surrogate directly
    followed by an escaped low surrogate is one character. *)
Fixpoint scanstring (s : str) : result (str * str) :=
  match s with
  | [] => Raise JSONDecodeError
  | c :: rest =>
      if c =? 34 then Ok ([], rest)
      else if c =? 92 then
        match rest with
        | [] => Raise JSONDecodeError
        | e :: rest1 =>
            if e =? 117 then
              match rest1 with
              | h1 :: h2 :: h3 :: h4 :: rest2 =>
                  match hex4 h1 h2 h3 h4 with
                  | None => Raise JSONDecodeError
                  | Some uni =>
                      match rest2 with
                      | b :: u :: g1 :: g2 :: g3 :: g4 :: rest3 =>
                          if is_high_surrogate uni && (b =? 92) && (u =? 117) then
                            match hex4 g1 g2 g3 g4 with
                            | None => Raise JSONDecodeError
                            | Some uni2 =>
                                if is_low_surrogate uni2
                                then cons_chr (join_surrogates uni uni2) (scanstring rest3)
                                else cons_chr uni (scanstring rest2)
                            end
                          else cons_chr uni (scanstring rest2)
                      | _ => cons_chr uni (scanstring rest2)
                      end
                  end
              | _ => Raise JSONDecodeError
              end
            else
              match simple_escape e with
              | Some x => cons_chr x (scanstring rest1)
              | None => Raise JSONDecodeError
              end
        end
      else if c <? 32 then Raise JSONDecodeError
      else cons_chr c (scanstring rest)
  end.

Definition is_ws (c : N) : bool :=
  (c =? 32) || (c =? 9) || (c =? 10) || (c =? 13).

Fixpoint skip_ws (s : str) : str :=
  match s with
  | c :: rest => if is_ws c then skip_ws rest else s
  | [] => []
  end.

Definition is_digit (c : N) : bool := (48 <=? c) && (c <=? 57).

Fixpoint span_digits (s : str) : str * str :=
  match s with
  | c :: rest =>
      if is_digit c then let (ds, r) := span_digits rest in (c :: ds, r)
      else ([], s)
  | [] => ([], [])
  end.

Definition int_of_digits (ds : str) : N :=
  fold_left (fun a d => 10 * a + (d - 48)) ds 0.

(** After the integer part: ['.'] and a digit, or an exponent with a
    digit, make the number a float. *)
Definition float_follows (s : str) : bool :=
  match s with
  | c :: d :: tl =>
      if c =? 46 then is_digit d
      else if (c =? 101) || (c =? 69) then
        is_digit d
        || (((d =? 43) || (d =? 45))
            && match tl with x :: _ => is_digit x | [] => false end)
      else false
  | _ => false
  end.

(** The integer part [0|[1-9][0-9]*] at the head of [s]. *)
Definition match_integer (s : str) : result (N * str) :=
  match s with
  | c :: rest =>
      if c =? 48 then Ok (0, rest)
      else if is_digit c then
        let (ds, r) := span_digits rest in Ok (int_of_digits (c :: ds), r)
      else Raise JSONDecodeError
  | [] => Raise JSONDecodeError
  end.

Definition match_number (s : str) : result (py * str) :=
  match s with
  | 45 :: rest =>
      '(n, r) <- match_integer rest ;;
      if float_follows r then Raise Unmodelled else Ok (PInt (- Z.of_N n), r)
  | _ =>
      '(n, r) <- match_integer s ;;
      if float_follows r then Raise Unmodelled else Ok (PInt (Z.of_N n), r)
  end.

(** [s] starts with [p]: what is left of [s]. *)
Fixpoint strip_prefix (p s : str) : option str :=
  match p, s with
  | [], _ => Some s
  | x :: p', y :: s' => if x =? y then strip_prefix p' s' else None
  | _ :: _, [] => None
  end.

Definition head_is (c : N) (s : str) : bool :=
  match s with x :: _ => x =? c | [] => false end.

(** [scan_once] with the loops of [JSONArray] and [JSONObject].  A value
    inside an array or an object is reached through two calls and is at
    least one character shorter than what holds it, so [fuel] above
    twice the length of the text is never used up.  The limit CPython
    sets to the depth of nesting is not modelled. *)
Fixpoint scan_once (fuel : nat) (s : str) : result (py * str) :=
  match fuel with
  | O => Raise RecursionError
  | S fuel' =>
      match s with
      | [] => Raise JSONDecodeError
      | c :: rest =>
          if c =? 34 then
            '(k, r) <- scanstring rest ;; Ok (PStr k, r)
          else if c =? 123 then
            let rest' := skip_ws rest in
            if head_is 125 rest' then Ok (PDict [], tl rest')
            else
              '(pairs, r) <- parse_members fuel' rest' ;;
              Ok (PDict (dict_of_pairs pairs), r)
          else if c =? 91 then
            let rest' := skip_ws rest in
            if head_is 93 rest' then Ok (PList [], tl rest')
            else
              '(vs, r) <- parse_elements fuel' rest' ;;
              Ok (PList vs, r)
          else
            match strip_prefix (lit "null") s with
            | Some r => Ok (PNone, r)
            | None =>
            match strip_prefix (lit "true") s with
            | Some r => Ok (PBool true, r)
            | None =>
            match strip_prefix (lit "false") s with
            | Some r => Ok (PBool false, r)
            | None =>
            match strip_prefix (lit "NaN") s with
            | Some _ => Raise Unmodelled
            | None =>
            match strip_prefix (lit "Infinity") s with
            | Some _ => Raise Unmodelled
            | None =>
            match strip_prefix (lit "-Infinity") s with
            | Some _ => Raise Unmodelled
            | None => match_number s
            end end end end end end
      end
  end

with parse_members (fuel : nat) (s : str) : result (list (str * py) * str) :=
  match fuel with
  | O => Raise RecursionError
  | S fuel' =>
      if head_is 34 s then
        '(k, r) <- scanstring (tl s) ;;
        let r1 := skip_ws r in
        if head_is 58 r1 then
          '(v, r2) <- scan_once fuel' (skip_ws (tl r1)) ;;
          let r3 := skip_ws r2 in
          if head_is 125 r3 then Ok ([(k, v)], tl r3)
          else if head_is 44 r3 then
            '(more, r4) <- parse_members fuel' (skip_ws (tl r3)) ;;
            Ok ((k, v) :: more, r4)
          else Raise JSONDecodeError
        else Raise JSONDecodeError
      else Raise JSONDecodeError
  end

with parse_elements (fuel : nat) (s : str) : result (list py * str) :=
  match fuel with
  | O => Raise RecursionError
  | S fuel' =>
      '(v, r) <- scan_once fuel' s ;;
      let r1 := skip_ws r in
      if head_is 93 r1 then Ok ([v], tl r1)
      else if head_is 44 r1 then
        '(more, r2) <- parse_elements fuel' (skip_ws (tl r1)) ;;
        Ok (v :: more, r2)
      else Raise JSONDecodeError
  end.

(** [json.loads(s)] for a [str]: one value between optional whitespace. *)
Definition loads (s : str) : result py :=
  let s' := skip_ws s in
  '(v, rest) <- scan_once (S (2 * List.length s')) s' ;;
  match skip_ws rest with
  | [] => Ok v
  | _ :: _ => Raise JSONDecodeError
  end.

End Json.

(** ** [urllib.parse] *)

Module Urllib.

(** [unquote_to_bytes] on ASCII text: [%XX] with two hexadecimal digits
    is one byte, any other [%] stays. *)
Fixpoint unquote_to_bytes (s : str) : list N :=
  match s with
  | [] => []
  | c :: rest =>
      if c =? 37 then
        match rest with
        | h1 :: h2 :: rest' =>
            match hexval h1, hexval h2 with
            | Some a, Some b => (16 * a + b) :: unquote_to_bytes rest'
            | _, _ => 37 :: unquote_to_bytes rest
            end
        | _ => 37 :: unquote_to_bytes rest
        end
      else c :: unquote_to_bytes rest
  end.

Definition is_cont (b : N) : bool := (0x80 <=? b) && (b <=? 0xBF).

(** The second byte a three-byte or four-byte lead allows. *)
Definition second_ok (b1 b2 : N) : bool :=
  if b1 =? 0xE0 then (0xA0 <=? b2) && (b2 <=? 0xBF)
  else if b1 =? 0xED then (0x80 <=? b2) && (b2 <=? 0x9F)
  else if b1 =? 0xF0 then (0x90 <=? b2) && (b2 <=? 0xBF)
  else if b1 =? 0xF4 then (0x80 <=? b2) && (b2 <=? 0x8F)
  else is_cont b2.

(** [bytes.decode('utf-8', 'replace')]: every maximal ill-formed part
    becomes U+FFFD. *)
Fixpoint utf8_decode (bs : list N) : str :=
  match bs with
  | [] => []
  | b1 :: r1 =>
      if b1 <? 0x80 then b1 :: utf8_decode r1
      else if (0xC2 <=? b1) && (b1 <=? 0xDF) then
        match r1 with
        | [] => [0xFFFD]
        | b2 :: r2 =>
            if is_cont b2
            then ((b1 - 0xC0) * 64 + (b2 - 0x80)) :: utf8_decode r2
            else 0xFFFD :: utf8_decode r1
        end
      else if (0xE0 <=? b1) && (b1 <=? 0xEF) then
        match r1 with
        | [] => [0xFFFD]
        | b2 :: r2 =>
            if second_ok b1 b2 then
              match r2 with
              | [] => [0xFFFD]
              | b3 :: r3 =>
                  if is_cont b3
                  then (((b1 - 0xE0) * 64 + (b2 - 0x80)) * 64 + (b3 - 0x80))
                         :: utf8_decode r3
                  else 0xFFFD :: utf8_decode r2
              end
            else 0xFFFD :: utf8_decode r1
        end
      else if (0xF0 <=? b1) && (b1 <=? 0xF4) then
        match r1 with
        | [] => [0xFFFD]
        | b2 :: r2 =>
            if second_ok b1 b2 then
              match r2 with
              | [] => [0xFFFD]
              | b3 :: r3 =>
                  if is_cont b3 then
                    match r3 with
                    | [] => [0xFFFD]
                    | b4 :: r4 =>
                        if is_cont b4
                        then ((((b1 - 0xF0) * 64 + (b2 - 0x80)) * 64
                               + (b3 - 0x80)) * 64 + (b4 - 0x80))
                               :: utf8_decode r4
                        else 0xFFFD :: utf8_decode r3
                    end
                  else 0xFFFD :: utf8_decode r2
              end
            else 0xFFFD :: utf8_decode r1
        end
      else 0xFFFD :: utf8_decode r1
  end.

Definition decode_run (run : str) : str := utf8_decode (unquote_to_bytes run).

(** The loop of [unquote] over the pieces of [_asciire.split]: each
    maximal run of ASCII characters is percent-decoded and read as UTF-8,
    the other characters are kept.  [run] is the run being read,
    backwards. *)
Fixpoint unquote_runs (run : str) (s : str) : str :=
  match s with
  | [] => decode_run (rev run)
  | c :: rest =>
      if c <? 0x80 then unquote_runs (c :: run) rest
      else decode_run (rev run) ++ c :: unquote_runs [] rest
  end.

(** [unquote(string, encoding='utf-8', errors='replace')] *)
Definition unquote (s : str) : str :=
  if negb (contains 37 s) then s else unquote_runs [] s.

(** [unquote_plus(string, encoding='utf-8')]: only a [str] has [replace]. *)
Definition unquote_plus (v : py) : result str :=
  match v with
  | PStr s => Ok (unquote (replace_char 43 32 s))
  | _ => Raise AttributeError
  end.

(** [str.encode('utf-8', 'strict')] *)
Fixpoint utf8_encode (s : str) : result (list N) :=
  match s with
  | [] => Ok []
  | c :: rest =>
      bs <- utf8_encode rest ;;
      if c <? 0x80 then Ok (c :: bs)
      else if c <? 0x800 then Ok (0xC0 + c / 64 :: 0x80 + c mod 64 :: bs)
      else if (0xD800 <=? c) && (c <=? 0xDFFF) then Raise UnicodeEncodeError
      else if c <? 0x10000 then
        Ok (0xE0 + c / 4096 :: 0x80 + c / 64 mod 64 :: 0x80 + c mod 64 :: bs)
      else
        Ok (0xF0 + c / 262144 :: 0x80 + c / 4096 mod 64
              :: 0x80 + c / 64 mod 64 :: 0x80 + c mod 64 :: bs)
  end.

Definition upper_hex_digit (d : N) : N := if d <? 10 then 48 + d else 55 + d.

(** The bytes [quote] keeps: letters, digits, [_.-~], and [/]. *)
Definition is_safe (b : N) : bool :=
  ((65 <=? b) && (b <=? 90)) || ((97 <=? b) && (b <=? 122))
  || ((48 <=? b) && (b <=? 57))
  || (b =? 95) || (b =? 46) || (b =? 45) || (b =? 126) || (b =? 47).

Definition quote_byte (b : N) : str :=
  if is_safe b then [b] else [37; upper_hex_digit (b / 16); upper_hex_digit (b mod 16)].

(** [quote(string)] with [safe='/'] *)
Definition quote (s : str) : result str :=
  bs <- utf8_encode s ;; Ok (flat_map quote_byte bs).

End Urllib.

(** ** [os.path] (posixpath) and [str] methods *)

Module Os.

(** [s.rfind(c)]: the last index of [c], or [-1]. *)
Fixpoint rfind_from (c : N) (s : str) (i last : Z) : Z :=
  match s with
  | [] => last
  | x :: rest => rfind_from c rest (i + 1)%Z (if x =? c then i else last)
  end.

Definition rfind (c : N) (s : str) : Z := rfind_from c s 0%Z (-1)%Z.

(** [p[i:j]] for [0 <= i] *)
Definition slice (p : str) (i j : Z) : str :=
  firstn (Z.to_nat (j - i)) (skipn (Z.to_nat i) p).

(** [os.path.splitext]: the extension starts at the last dot, when that
    dot comes after the last slash and after a character of the file name
    that is not a dot. *)
Definition splitext (p : str) : str * str :=
  let sepIndex := rfind 47 p in
  let dotIndex := rfind 46 p in
  if (sepIndex <? dotIndex)%Z then
    if existsb (fun c => negb (c =? 46)) (slice p (sepIndex + 1) dotIndex)
    then (firstn (Z.to_nat dotIndex) p, skipn (Z.to_nat dotIndex) p)
    else (p, [])
  else (p, []).

(** [str.lower].  An ASCII character is lower-cased by itself.  For a
    character outside ASCII Python takes the lower-case mapping of its
    Unicode database, which is one character or several and, for a
    capital sigma, depends on the characters around it:
    [unicode_lower before c after] stands for that mapping of [c]
    between [before] and [after]. *)
Fixpoint lower_from (unicode_lower : str -> N -> str -> str) (before s : str) : str :=
  match s with
  | [] => []
  | c :: rest =>
      (if c <? 0x80 then [if (65 <=? c) && (c <=? 90) then c + 32 else c]
       else unicode_lower (rev before) c rest)
      ++ lower_from unicode_lower (c :: before) rest
  end.

Definition lower (unicode_lower : str -> N -> str -> str) (s : str) : str :=
  lower_from unicode_lower [] s.

(** [s.strip(c)] for one character *)
Fixpoint lstrip (c : N) (s : str) : str :=
  match s with
  | x :: rest => if x =? c then lstrip c rest else s
  | [] => []
  end.

Definition strip (c : N) (s : str) : str := rev (lstrip c (rev (lstrip c s))).

End Os.

(** ** [awsCloudformation/lambda_function.py] *)

Module Lambda.

(** What [s3_client.head_object] answers: every field may be missing.
    [LastModified] is held as the text [isoformat()] gives. *)
Record HeadObject : Type := {
  ContentLength : option Z;
  LastModified : option str;
  ContentType : option str;
  ETag : option str;
  Metadata : option (list (str * str))
}.

(** One call of [sqs_client.send_message]. *)
Record SendMessage : Type := {
  QueueUrl : str;
  MessageBody : str;
  MessageAttributes : list (str * str)
}.

(** The process environment and the collaborators. *)
Record Env : Type := {
  SQS_QUEUE_URL : option str;
  ENVIRONMENT : option str;
  boto3_client : result unit;
  head_object : py -> str -> result HeadObject;
  generate_presigned_url : py -> str -> result str;
  send_message : SendMessage -> result py;   (* the response's ['MessageId'] *)
  utcnow_isoformat : nat -> str;             (* the clock, by calls made *)
  py_str : py -> str;                        (* [str(v)] of a value that is no [str] *)
  unicode_lower : str -> N -> str -> str     (* [str.lower] outside ASCII *)
}.

(** [{v}] in an f-string *)
Definition format_py (env : Env) (v : py) : str :=
  match v with
  | PStr s => s
  | _ => py_str env v
  end.

Record ImageProcessor : Type := {
  queue_url : str;
  environment : str
}.

Definition or_default (o : option str) (d : str) : str :=
  match o with Some s => s | None => d end.

(** [ImageProcessor.__init__] *)
Definition init (env : Env) : result ImageProcessor :=
  _ <- boto3_client env ;;
  _ <- boto3_client env ;;
  match SQS_QUEUE_URL env with
  | Some (c :: u) =>
      Ok {| queue_url := c :: u;
            environment := or_default (ENVIRONMENT env) (lit "dev") |}
  | _ => Raise ValueError
  end.

Definition valid_extensions : list str :=
  [lit ".jpg"; lit ".jpeg"; lit ".png"; lit ".gif"; lit ".webp"].

Definition _is_valid_image_file (env : Env) (object_key : str) : bool :=
  let file_extension :=
    snd (Os.splitext (Os.lower (unicode_lower env) object_key)) in
  existsb (str_eqb file_extension) valid_extensions.

Definition _get_object_metadata (env : Env) (bucket_name : py) (object_key : str) : py :=
  match head_object env bucket_name object_key with
  | Ok response =>
      PDict
        [(lit "size", PInt (match ContentLength response with Some n => n | None => 0%Z end));
         (lit "last_modified", PStr (or_default (LastModified response) []));
         (lit "content_type", PStr (or_default (ContentType response) []));
         (lit "etag", PStr (Os.strip 34 (or_default (ETag response) [])));
         (lit "metadata",
          PDict (match Metadata response with
                 | Some m => List.map (fun kv => (fst kv, PStr (snd kv))) m
                 | None => []
                 end))]
  | Raise _ => PDict []
  end.

Definition _generate_image_url (env : Env) (bucket_name : py) (object_key : str)
  : result str :=
  match generate_presigned_url env bucket_name object_key with
  | Ok url => Ok url
  | Raise _ =>
      quoted <- Urllib.quote object_key ;;
      Ok (lit "https://" ++ format_py env bucket_name
            ++ lit ".s3.amazonaws.com/" ++ quoted)
  end.

Definition _create_sqs_message (self : ImageProcessor) (now : str)
    (image_url object_key : str) (metadata : py) : py :=
  PDict [(lit "image_url", PStr image_url);
         (lit "object_key", PStr object_key);
         (lit "timestamp", PStr now);
         (lit "environment", PStr (environment self));
         (lit "metadata", metadata)].

(** The arguments of the call [_send_to_sqs] makes. *)
Definition sqs_call (self : ImageProcessor) (message_body : py) : SendMessage :=
  {| QueueUrl := queue_url self;
     MessageBody := Json.dumps message_body;
     MessageAttributes :=
       [(lit "Environment", environment self);
        (lit "MessageType", lit "InstagramImageUpload")] |}.

(** [_send_to_sqs]: what it returns or raises, and the calls it made to
    the queue. *)
Definition _send_to_sqs (env : Env) (self : ImageProcessor) (message_body : py)
  : result py * list SendMessage :=
  let call := sqs_call self message_body in
  (send_message env call, [call]).

Record ProcessedImage : Type := {
  bucket : py;
  key : str;
  url : str
}.

(** How the body of the loop ends for one record. *)
Inductive Outcome : Type :=
| Skipped                              (* [continue] *)
| Processed (image : ProcessedImage)   (* appended to [processed_images] *)
| Failed (e : exn).                    (* caught by the inner [except] *)

(** Lines 51-56: the bucket name and the decoded object key. *)
Definition s3_location (record : py) : result (py * str) :=
  s3_info <- py_get record (lit "s3") (PDict []) ;;
  bucket_obj <- py_get s3_info (lit "bucket") (PDict []) ;;
  bucket_name <- py_get bucket_obj (lit "name") PNone ;;
  object_obj <- py_get s3_info (lit "object") (PDict []) ;;
  raw_key <- py_get object_obj (lit "key") (PStr []) ;;
  object_key <- Urllib.unquote_plus raw_key ;;
  Ok (bucket_name, object_key).

(** The body of the [try] for one record, lines 51-87: how it ends, and
    the calls to the queue made in it, which are those of
    [_send_to_sqs].  [sent] counts the calls made before. *)
Definition process_record (env : Env) (self : ImageProcessor) (sent : nat) (record : py)
  : Outcome * list SendMessage :=
  match s3_location record with
  | Raise e => (Failed e, [])
  | Ok (bucket_name, object_key) =>
      if negb (truthy bucket_name) || negb (truthy (PStr object_key)) then (Skipped, [])
      else if negb (_is_valid_image_file env object_key) then (Skipped, [])
      else
        let object_metadata := _get_object_metadata env bucket_name object_key in
        match _generate_image_url env bucket_name object_key with
        | Raise e => (Failed e, [])
        | Ok image_url =>
            let message_body :=
              _create_sqs_message self (utcnow_isoformat env sent)
                image_url object_key object_metadata in
            match _send_to_sqs env self message_body with
            | (Raise e, made) => (Failed e, made)
            | (Ok _, made) =>
                (Processed {| bucket := bucket_name; key := object_key; url := image_url |},
                 made)
            end
        end
  end.

(** An entry of [errors]: the f-string is kept as its two arguments. *)
Inductive ErrorMsg : Type :=
| RecordError (record : py) (e : exn)  (* f"Error processing record {record}: {str(e)}" *)
| EventError (e : exn)                 (* f"Error processing S3 event: {str(e)}" *)
| ExecutionFailed (e : exn).           (* f"Lambda execution failed: {str(e)}" *)

(** The state of the loop. *)
Record Loop : Type := {
  processed_images : list ProcessedImage;
  errors : list ErrorMsg;
  calls : list SendMessage
}.

Definition step (env : Env) (self : ImageProcessor) (st : Loop) (record : py) : Loop :=
  let (outcome, made) := process_record env self (List.length (calls st)) record in
  {| processed_images :=
       match outcome with
       | Processed image => processed_images st ++ [image]
       | _ => processed_images st
       end;
     errors :=
       match outcome with
       | Failed e => errors st ++ [RecordError record e]
       | _ => errors st
       end;
     calls := calls st ++ made |}.

(** Lines 45-46 and the iterator of line 48. *)
Definition read_records (event : py) : result (list py) :=
  records <- py_get event (lit "Records") (PList []) ;;
  _ <- py_len records ;;
  py_iter records.

Record Response : Type := {
  statusCode : Z;
  processed_count : nat;
  error_count : nat;
  response_images : list ProcessedImage;
  response_errors : option (list ErrorMsg)   (* the key is set when there are errors *)
}.

Definition respond (st : Loop) : Response :=
  {| statusCode := match errors st with [] => 200 | _ :: _ => 207 end;
     processed_count := List.length (processed_images st);
     error_count := List.length (errors st);
     response_images := processed_images st;
     response_errors := match errors st with [] => None | es => Some es end |}.

Definition start : Loop := {| processed_images := []; errors := []; calls := [] |}.

(** [process_s3_event]: the response, and the calls made to the queue. *)
Definition process_s3_event (env : Env) (self : ImageProcessor) (event : py)
  : Response * list SendMessage :=
  let st :=
    match read_records event with
    | Ok records => fold_left (step env self) records start
    | Raise e =>
        {| processed_images := []; errors := [EventError e]; calls := [] |}
    end in
  (respond st, calls st).

(** What [lambda_handler] returns. *)
Inductive HandlerResult : Type :=
| Returned (r : Response)
| Failure (status : Z) (error : ErrorMsg).   (* [{'statusCode': 500, 'error': ...}] *)

Definition lambda_handler (env : Env) (event : py) : HandlerResult * list SendMessage :=
  match init env with
  | Ok processor =>
      let (r, made) := process_s3_event env processor event in (Returned r, made)
  | Raise e => (Failure 500 (ExecutionFailed e), [])
  end.

End Lambda.

(** ** Floats, as far as [_format_file_size] needs them *)

Module Float.

Local Open Scope Z_scope.

(** The integer nearest to [p / q], [0 < q], a tie going to the even one. *)
Definition round_half_even (p q : Z) : Z :=
  let d := p / q in
  let r := p mod q in
  if 2 * r <? q then d
  else if q <? 2 * r then d + 1
  else if Z.even d then d else d + 1.

(** A finite binary64 value that is not negative, as the fraction it is. *)
Record float : Type := { num : Z; den : Z }.

(** [a] over [b * 2^e]. *)
Definition scaled (a b e : Z) : Z * Z :=
  if 0 <=? e then (a, b * 2 ^ e) else (a * 2 ^ (- e), b).

(** [a / b] for two [int]s, [0 <= a], [0 < b]: the quotient rounded to 53
    significant bits, ties to even, as CPython's division of integers
    gives it.  [e] is the exponent of the last of the 53 bits:
    [2^52 <= a / (b * 2^e) < 2^53].  A quotient below the normal range
    is not modelled. *)
Definition true_divide (a b : Z) : result float :=
  if b =? 0 then Raise ZeroDivisionError
  else if (a <? 0) || (b <? 0) then Raise Unmodelled
  else if a =? 0 then Ok {| num := 0; den := 1 |}
  else
    let s := 54 + Z.log2 b in
    let e := Z.log2 (a * 2 ^ s / b) - 52 - s in
    if e <? -1074 then Raise Unmodelled
    else
      let m := round_half_even (fst (scaled a b e)) (snd (scaled a b e)) in
      if 0 <=? e then
        if 2 ^ 1024 <=? m * 2 ^ e then Raise OverflowError
        else Ok {| num := m * 2 ^ e; den := 1 |}
      else Ok {| num := m; den := 2 ^ (- e) |}.

(** The number of tenths nearest to the value. *)
Definition tenths (f : float) : Z := round_half_even (10 * num f) (den f).

(** [int(t / 10)], a point and one digit. *)
Definition one_decimal (t : Z) : str :=
  (Json.digits (Z.to_N (t / 10)) ++ [46; 48 + Z.to_N (t mod 10)])%N.

(** [format(f, '.1f')] *)
Definition format_1f (f : float) : str := one_decimal (tenths f).

End Float.

(** ** [discordBot/bot.py] *)

Module Bot.

(** A [datetime]. *)
Record Datetime : Type := {
  year : Z; month : Z; day : Z;
  hour : Z; minute : Z; second : Z; microsecond : Z;
  utcoffset : option Z      (* seconds east of UTC; [None] for a naive value *)
}.

(** What the bot keeps of its configuration and of the Python library. *)
Record Env : Type := {
  environment : str;                       (* [self.environment] *)
  fromisoformat : str -> result Datetime   (* [datetime.fromisoformat] *)
}.

Record Field : Type := {
  name : str;
  value : py;        (* the argument; the embed holds its [str()] *)
  inline : bool
}.

(** A [discord.Embed], by the arguments it was built from. *)
Record Embed : Type := {
  title : str;
  description : str;
  color : Z;
  timestamp : Datetime;
  image_url : py;
  fields : list Field;
  footer_text : str;
  footer_icon_url : str
}.

(** [_format_file_size]. A [bool] is an [int] to the comparison and is
    written by its name; a value that does not compare with an [int]
    raises. *)
Definition _format_file_size (size_bytes : py) : result str :=
  match size_bytes with
  | PInt n =>
      if (n <? 1024)%Z then Ok (Json.repr_int n ++ lit " B")
      else if (n <? 1024 ^ 2)%Z then
        q <- Float.true_divide n 1024 ;; Ok (Float.format_1f q ++ lit " KB")
      else if (n <? 1024 ^ 3)%Z then
        q <- Float.true_divide n (1024 ^ 2) ;; Ok (Float.format_1f q ++ lit " MB")
      else
        q <- Float.true_divide n (1024 ^ 3) ;; Ok (Float.format_1f q ++ lit " GB")
  | PBool true => Ok (lit "True B")
  | PBool false => Ok (lit "False B")
  | _ => Raise TypeError
  end.

(** [timestamp.replace('Z', '+00:00')] *)
Definition replace_z (s : str) : str :=
  flat_map (fun c => if c =? 90 then lit "+00:00" else [c]) s.

(** The [timestamp] argument of the embed, line 240. *)
Definition embed_timestamp (env : Env) (now : Datetime) (timestamp : py)
  : result Datetime :=
  if truthy timestamp then
    match timestamp with
    | PStr s => fromisoformat env (replace_z s)
    | _ => Raise AttributeError
    end
  else Ok now.

(** [s.split('/')[-1]] *)
Fixpoint last_segment (s : str) : str :=
  match s with
  | [] => []
  | c :: rest =>
      if contains 47 rest then last_segment rest
      else if c =? 47 then rest else s
  end.

Definition is_slash (v : py) : bool :=
  match v with PStr s => str_eqb s [47] | _ => false end.

(** Line 255: [object_key.split('/')[-1] if '/' in object_key else object_key] *)
Definition filename_of (object_key : py) : result py :=
  match object_key with
  | PStr s => Ok (PStr (if contains 47 s then last_segment s else s))
  | PList l => if existsb is_slash l then Raise AttributeError else Ok object_key
  | PDict items =>
      match lookup [47] items with
      | Some _ => Raise AttributeError
      | None => Ok object_key
      end
  | _ => Raise TypeError
  end.

Definition embed_title : str := 0x1F4F8 :: lit " New Instagram Post".
Definition icon_url : str :=
  lit "https://cdn.jsdelivr.net/gh/walkxcode/dashboard-icons/png/instagram.png".

(** [_create_discord_embed] *)
Definition _create_discord_embed (env : Env) (now : Datetime)
    (image_url object_key timestamp metadata : py) : result Embed :=
  ts <- embed_timestamp env now timestamp ;;
  size <- py_get metadata (lit "size") PNone ;;
  size_fields <-
    (if truthy size then
       size' <- py_getitem metadata (lit "size") ;;
       file_size <- _format_file_size size' ;;
       Ok [{| name := lit "File Size"; value := PStr file_size; inline := true |}]
     else Ok []) ;;
  content_type <- py_get metadata (lit "content_type") PNone ;;
  type_fields <-
    (if truthy content_type then
       content_type' <- py_getitem metadata (lit "content_type") ;;
       Ok [{| name := lit "Type"; value := content_type'; inline := true |}]
     else Ok []) ;;
  filename <- filename_of object_key ;;
  Ok {| title := embed_title;
        description := lit "Image uploaded from Instagram";
        color := 0xE4405F;
        timestamp := ts;
        image_url := image_url;
        fields := size_fields ++ type_fields
                  ++ [{| name := lit "Filename"; value := filename; inline := true |}];
        footer_text := lit "Environment: " ++ environment env;
        footer_icon_url := icon_url |}.

(** [json.loads(message['Body'])]: [loads] takes text. *)
Definition load_body (message : py) : result py :=
  body <- py_getitem message (lit "Body") ;;
  match body with
  | PStr s => Json.loads s
  | _ => Raise TypeError
  end.

(** What the consumer does that can be seen from outside. *)
Inductive Event : Type :=
| ReceiveMessage                        (* [sqs_client.receive_message] *)
| Send (embed : Embed)                  (* [channel.send], entered *)
| DeleteMessage (receipt_handle : py)   (* [sqs_client.delete_message] *)
| Warning (message_body : py)           (* "No image URL in message" *)
| Error (e : exn).                      (* [logger.error] in an [except] *)

(** What the collaborators answer while one message is processed. *)
Record Answers : Type := {
  channel_found : bool;        (* [get_channel] gives a channel *)
  now : Datetime;              (* [datetime.utcnow()] *)
  send_result : result unit;   (* how [await channel.send] ends *)
  delete_result : result unit  (* how [delete_message] ends *)
}.

(** [_process_single_message] up to its [await channel.send]. *)
Inductive Prepared : Type :=
| Skip (message_body : py)   (* no image URL: warning, [return] *)
| Ready (embed : Embed)      (* the embed to send *)
| Fails (e : exn).           (* raised before the send *)

Definition prepare (env : Env) (a : Answers) (message : py) : Prepared :=
  match load_body message with
  | Raise e => Fails e
  | Ok message_body =>
      let parts :=
        image_url <- py_get message_body (lit "image_url") PNone ;;
        object_key <- py_get message_body (lit "object_key") (PStr (lit "unknown")) ;;
        timestamp <- py_get message_body (lit "timestamp") (PStr []) ;;
        metadata <- py_get message_body (lit "metadata") (PDict []) ;;
        Ok (image_url, object_key, timestamp, metadata) in
      match parts with
      | Raise e => Fails e
      | Ok (image_url, object_key, timestamp, metadata) =>
          if negb (truthy image_url) then Skip message_body
          else if negb (channel_found a) then Fails ValueError
          else
            match _create_discord_embed env (now a)
                    image_url object_key timestamp metadata with
            | Ok embed => Ready embed
            | Raise e => Fails e
            end
      end
  end.

(** How [_process_single_message] ends. *)
Definition _process_single_message (env : Env) (a : Answers) (message : py)
  : result unit * list Event :=
  match prepare env a message with
  | Skip message_body => (Ok tt, [Warning message_body])
  | Fails e => (Raise e, [Error e])
  | Ready embed =>
      match send_result a with
      | Ok _ => (Ok tt, [Send embed])
      | Raise e =>
          (Raise e, if is_exception e then [Send embed; Error e] else [Send embed])
      end
  end.

(** How the body of the loop over the messages ends. *)
Inductive Completion : Type :=
| Next                  (* on to the next message *)
| Abandon (e : exn)     (* the handler of the inner [except] raised *)
| Cancelled.            (* the task was cancelled *)

(** Lines 163-165: the inner handler logs the error with
    [message.get('MessageId', 'unknown')], which only a dict has; what
    that raises ends the loop in the outer handler.  An exception that is
    no [Exception] passes both handlers. *)
Definition handle_failure (message : py) (e : exn) : Completion * list Event :=
  if is_exception e then
    match message with
    | PDict _ => (Next, [Error e])
    | _ => (Abandon AttributeError, [])
    end
  else (Cancelled, []).

(** Lines 158-161, after [_process_single_message] has returned. *)
Definition delete_after (a : Answers) (message : py) : Completion * list Event :=
  match py_getitem message (lit "ReceiptHandle") with
  | Ok handle =>
      match delete_result a with
      | Ok _ => (Next, [DeleteMessage handle])
      | Raise e =>
          let (c, more) := handle_failure message e in (c, DeleteMessage handle :: more)
      end
  | Raise e => handle_failure message e
  end.

(** One turn of the loop of lines 153-165. *)
Definition process_message (env : Env) (a : Answers) (message : py)
  : Completion * list Event :=
  match _process_single_message env a message with
  | (Ok _, events) =>
      let (c, more) := delete_after a message in (c, events ++ more)
  | (Raise e, events) =>
      let (c, more) := handle_failure message e in (c, events ++ more)
  end.

(** *** The polling task

    The task runs on the event loop: [process_sqs_messages] gives the
    loop its turn only where it awaits, in [channel.send].  A message is
    processed in two parts, up to that point and from it on. *)

(** From the start of the loop body to the [await], or to the end of
    the body when nothing is sent. *)
Definition start_message (env : Env) (a : Answers) (message : py)
  : (Completion * list Event) + Embed :=
  match prepare env a message with
  | Skip message_body =>
      inl (let (c, more) := delete_after a message in (c, Warning message_body :: more))
  | Fails e =>
      inl (let (c, more) := handle_failure message e in (c, Error e :: more))
  | Ready embed => inr embed
  end.

(** From the end of the [await] to the end of the loop body. *)
Definition finish_send (a : Answers) (message : py) : Completion * list Event :=
  match send_result a with
  | Ok _ => delete_after a message
  | Raise e =>
      let (c, more) := handle_failure message e in
      (c, (if is_exception e then [Error e] else []) ++ more)
  end.

(** An invocation of the task that waits in [channel.send]. *)
Record Cycle : Type := {
  script : nat -> Answers;   (* the answers, by position in the batch *)
  index : nat;               (* the position of the message being sent *)
  sending : py;              (* that message *)
  pending : list py          (* the messages after it *)
}.

(** The loop from the message at [index] on, until it has to wait or
    ends. *)
Fixpoint advance (env : Env) (answers : nat -> Answers) (i : nat) (messages : list py)
  : list Event * (Completion + Cycle) :=
  match messages with
  | [] => ([], inl Next)
  | message :: rest =>
      match start_message env (answers i) message with
      | inr embed =>
          ([Send embed],
           inr {| script := answers; index := i; sending := message; pending := rest |})
      | inl (Next, events) =>
          let (more, r) := advance env answers (S i) rest in (events ++ more, r)
      | inl (c, events) => (events, inl c)
      end
  end.

(** Lines 139-151: the messages of the response; none when the
    response holds none. *)
Definition fetched (response : result py) : result (list py) :=
  r <- response ;;
  messages <- py_get r (lit "Messages") (PList []) ;;
  if negb (truthy messages) then Ok []
  else _ <- py_len messages ;; py_iter messages.

(** The bot, as far as the task is concerned. *)
Record State : Type := {
  running : bool;
  processing_active : bool;
  cancelled : bool;         (* [process_sqs_messages.cancel()] was called *)
  waiting : list Cycle;     (* the invocations that have not returned *)
  trace : list Event
}.

(** How an invocation leaves the [try]: the outer handler logs what
    ended the loop, and [finally] clears the flag. *)
Definition leave (st : State) (events : list Event) (c : Completion) : State :=
  {| running := running st;
     processing_active := false;
     cancelled := cancelled st;
     waiting := waiting st;
     trace := trace st ++ events
              ++ match c with Abandon e => [Error e] | _ => [] end |}.

(** The invocation goes on until it waits or returns. *)
Definition continue (env : Env) (st : State) (answers : nat -> Answers)
    (i : nat) (events : list Event) (messages : list py) : State :=
  match advance env answers i messages with
  | (more, inl c) => leave st (events ++ more) c
  | (more, inr cycle) =>
      {| running := running st;
         processing_active := processing_active st;
         cancelled := cancelled st;
         waiting := waiting st ++ [cycle];
         trace := trace st ++ events ++ more |}
  end.

(** One invocation of [process_sqs_messages] by the scheduler, up to
    its first [await] or its return.  [response] is what
    [receive_message] answers, [answers] what the collaborators answer
    for each message. *)
Definition tick (env : Env) (response : result py) (answers : nat -> Answers)
    (st : State) : State :=
  if negb (running st) || processing_active st then st
  else
    let st1 := {| running := running st; processing_active := true;
                  cancelled := cancelled st;
                  waiting := waiting st; trace := trace st |} in
    match fetched response with
    | Raise e => leave st1 [ReceiveMessage; Error e] Next
    | Ok [] => leave st1 [ReceiveMessage] Next
    | Ok messages => continue env st1 answers O [ReceiveMessage] messages
    end.

(** The answers as a cancelled task meets them: its [await] raises
    [CancelledError]. *)
Definition interrupted (a : Answers) : Answers :=
  {| channel_found := channel_found a;
     now := now a;
     send_result := Raise CancelledError;
     delete_result := delete_result a |}.

(** The oldest waiting invocation gets its turn again: its send has
    ended, or the task was cancelled while it waited, and the invocation
    goes on from there. *)
Definition resume (env : Env) (st : State) : State :=
  match waiting st with
  | [] => st
  | cycle :: others =>
      let st1 := {| running := running st; processing_active := processing_active st;
                    cancelled := cancelled st;
                    waiting := others; trace := trace st |} in
      let answers := script cycle (index cycle) in
      match finish_send (if cancelled st then interrupted answers else answers)
              (sending cycle) with
      | (Next, events) =>
          continue env st1 (script cycle) (S (index cycle)) events (pending cycle)
      | (c, events) => leave st1 events c
      end
  end.

(** [shutdown], lines 299-303: it clears [running] and cancels the task,
    which is running from [on_ready] on.  An invocation that waits in
    [channel.send] meets the cancellation when it gets its turn. *)
Definition stop (st : State) : State :=
  {| running := false;
     processing_active := processing_active st;
     cancelled := true;
     waiting := waiting st;
     trace := trace st |}.

(** The bot when [on_ready] has started the task. *)
Definition initial : State :=
  {| running := true; processing_active := false; cancelled := false;
     waiting := []; trace := [] |}.

(** What can happen to the bot. *)
Inductive Action : Type :=
| Tick (response : result py) (answers : nat -> Answers)
| Resume
| Stop.

Definition act (env : Env) (st : State) (a : Action) : State :=
  match a with
  | Tick response answers => tick env response answers st
  | Resume => resume env st
  | Stop => stop st
  end.

Definition run (env : Env) (actions : list Action) : State :=
  fold_left (act env) actions initial.

End Bot.

(** ** The bot's configuration *)

Module Lifecycle.

(** One call of [ssm_client.get_parameter]. *)
Record GetParameter : Type := {
  Name : str;
  WithDecryption : bool
}.

(** The process environment, the parameter store and [int()] on text. *)
Record Process : Type := {
  DISCORD_BOT_TOKEN : option str;
  DISCORD_CHANNEL_ID : option str;
  SQS_QUEUE_URL : option str;
  ENVIRONMENT : option str;
  ssm_client : result unit;                    (* [boto3.client('ssm')] *)
  get_parameter : GetParameter -> result py;   (* the response *)
  clients : result unit;     (* [boto3.client('sqs')], [discord.Client(...)] *)
  to_int : str -> option Z                     (* [int(text)]; [None] for [ValueError] *)
}.

Definition or_default (o : option str) (d : str) : str :=
  match o with Some s => s | None => d end.

(** [response['Parameter']['Value']] *)
Definition parameter_value (response : py) : result py :=
  parameter <- py_getitem response (lit "Parameter") ;;
  py_getitem parameter (lit "Value").

(** The lookup in the parameter store, lines 62-71 and 84-90: what it
    gives, and the calls made. *)
Definition lookup_parameter (p : Process) (suffix : str) (decrypt : bool)
  : result py * list GetParameter :=
  match ssm_client p with
  | Raise e => (Raise e, [])
  | Ok _ =>
      let call :=
        {| Name := lit "/" ++ or_default (ENVIRONMENT p) (lit "dev") ++ suffix;
           WithDecryption := decrypt |} in
      (response <- get_parameter p call ;; parameter_value response, [call])
  end.

(** [_get_discord_token] *)
Definition _get_discord_token (p : Process) : result py * list GetParameter :=
  match DISCORD_BOT_TOKEN p with
  | Some (c :: token) => (Ok (PStr (c :: token)), [])
  | _ =>
      match lookup_parameter p (lit "/discord/bot-token") true with
      | (Ok value, made) => (Ok value, made)
      | (Raise _, made) => (Raise ValueError, made)
      end
  end.

(** [int(v)] *)
Definition py_int (p : Process) (v : py) : result Z :=
  match v with
  | PInt z => Ok z
  | PBool b => Ok (if b then 1 else 0)%Z
  | PStr s => match to_int p s with Some z => Ok z | None => Raise ValueError end
  | _ => Raise TypeError
  end.

(** [_get_channel_id] *)
Definition _get_channel_id (p : Process) : result Z * list GetParameter :=
  match DISCORD_CHANNEL_ID p with
  | Some (c :: channel_id) => (py_int p (PStr (c :: channel_id)), [])
  | _ =>
      match lookup_parameter p (lit "/discord/channel-id") false with
      | (Ok value, made) =>
          (match py_int p value with
           | Ok z => Ok z
           | Raise _ => Raise ValueError
           end, made)
      | (Raise _, made) => (Raise ValueError, made)
      end
  end.

(** [_get_sqs_queue_url] *)
Definition _get_sqs_queue_url (p : Process) : result str :=
  match SQS_QUEUE_URL p with
  | Some (c :: url) => Ok (c :: url)
  | _ => Raise ValueError
  end.

(** What [DiscordInstagramBot.__init__] leaves in the bot, apart from
    the two clients. *)
Record Settings : Type := {
  bot_token : py;
  channel_id : Z;
  sqs_queue_url : str;
  environment : str;
  running : bool;
  processing_active : bool
}.

Definition configure (p : Process) : result Settings * list GetParameter :=
  match _get_discord_token p with
  | (Raise e, made) => (Raise e, made)
  | (Ok token, made) =>
      match _get_channel_id p with
      | (Raise e, made') => (Raise e, made ++ made')
      | (Ok channel, made') =>
          (url <- _get_sqs_queue_url p ;;
           _ <- clients p ;;
           Ok {| bot_token := token; channel_id := channel; sqs_queue_url := url;
                 environment := or_default (ENVIRONMENT p) (lit "dev");
                 running := true; processing_active := false |},
           made ++ made')
      end
  end.

End Lifecycle.

(** * Properties *)

(** ** Comparisons on code points *)

Ltac N_cases :=
  repeat match goal with
  | |- context [?a =? ?b] => destruct (N.eqb_spec a b)
  | |- context [?a <=? ?b] => destruct (N.leb_spec a b)
  | |- context [?a <? ?b] => destruct (N.ltb_spec a b)
  | H : context [?a =? ?b] |- _ => destruct (N.eqb_spec a b)
  | H : context [?a <=? ?b] |- _ => destruct (N.leb_spec a b)
  | H : context [?a <? ?b] |- _ => destruct (N.ltb_spec a b)
  end;
  cbn [andb orb negb] in *.

Lemma str_eqb_refl (s : str) : str_eqb s s = true.
Proof. induction s; cbn; [|rewrite N.eqb_refl]; auto. Qed.

Lemma str_eqb_eq (a b : str) : str_eqb a b = true <-> a = b.
Proof.
  split; [|intros ->; apply str_eqb_refl].
  revert b; induction a as [|x a IH]; intros [|y b]; cbn; try easy.
  intros H; apply andb_prop in H as [H1 H2].
  apply N.eqb_eq in H1; apply IH in H2; congruence.
Qed.

(** ** Induction on values *)

Section PyInduction.
Variable P : py -> Prop.
Hypothesis HNone : P PNone.
Hypothesis HBool : forall b, P (PBool b).
Hypothesis HInt : forall z, P (PInt z).
Hypothesis HStr : forall s, P (PStr s).
Hypothesis HList : forall l, Forall P l -> P (PList l).
Hypothesis HDict : forall items,
  Forall (fun kv => P (snd kv)) items -> P (PDict items).

Fixpoint py_ind (v : py) : P v :=
  match v with
  | PNone => HNone
  | PBool b => HBool b
  | PInt z => HInt z
  | PStr s => HStr s
  | PList l =>
      HList l
        ((fix all (l : list py) : Forall P l :=
            match l with
            | [] => Forall_nil P
            | x :: l' => Forall_cons x (py_ind x) (all l')
            end) l)
  | PDict items =>
      HDict items
        ((fix all (l : list (str * py)) : Forall (fun kv => P (snd kv)) l :=
            match l with
            | [] => Forall_nil _
            | kv :: l' => Forall_cons kv (py_ind (snd kv)) (all l')
            end) items)
  end.
End PyInduction.

(** ** Dicts built from distinct keys *)

Lemma str_eqb_sym (a b : str) : str_eqb a b = str_eqb b a.
Proof.
  destruct (str_eqb a b) eqn:E1, (str_eqb b a) eqn:E2; try reflexivity.
  - apply str_eqb_eq in E1. subst. now rewrite str_eqb_refl in E2.
  - apply str_eqb_eq in E2. subst. now rewrite str_eqb_refl in E1.
Qed.

Lemma dict_set_fresh (items : list (str * py)) (k : str) (v : py) :
  existsb (str_eqb k) (List.map fst items) = false ->
  dict_set items k v = items ++ [(k, v)].
Proof.
  induction items as [|[k' v'] items IH]; cbn; [reflexivity|].
  intros H. apply orb_false_elim in H as [H1 H2].
  now rewrite H1, IH.
Qed.

Lemma keys_distinct_app (l1 l2 : list str) :
  keys_distinct (l1 ++ l2) = true <->
  keys_distinct l1 = true /\ keys_distinct l2 = true
  /\ forall k, In k l1 -> existsb (str_eqb k) l2 = false.
Proof.
  induction l1 as [|a l1 IH]; cbn [app keys_distinct].
  - intuition auto. now cbn in *.
  - rewrite !andb_true_iff, !negb_true_iff, IH, existsb_app, orb_false_iff.
    split.
    + intros ((H1 & H2) & H3 & H4 & H5). repeat split; auto.
      intros k [<-|Hin]; auto.
    + intros ((H1 & H2) & H3 & H4). repeat split; auto.
      * apply H4. now left.
      * intros k Hin. apply H4. now right.
Qed.

Lemma dict_of_pairs_distinct (items : list (str * py)) :
  keys_distinct (List.map fst items) = true -> dict_of_pairs items = items.
Proof.
  unfold dict_of_pairs.
  enough (H : forall acc,
            keys_distinct (List.map fst (acc ++ items)) = true ->
            fold_left (fun d kv => dict_set d (fst kv) (snd kv)) items acc
            = acc ++ items) by apply (H []).
  induction items as [|[k v] items IH]; intros acc Hd; cbn [fold_left fst snd].
  - now rewrite app_nil_r.
  - rewrite dict_set_fresh.
    + rewrite IH; rewrite <- app_assoc; [reflexivity|exact Hd].
    + rewrite map_app in Hd. apply keys_distinct_app in Hd as (_ & _ & Hd).
      destruct (existsb (str_eqb k) (List.map fst acc)) eqn:E; [|reflexivity].
      apply existsb_exists in E as (k' & Hin & Hk).
      specialize (Hd k' Hin). cbn [List.map fst existsb] in Hd.
      rewrite str_eqb_sym, Hk in Hd. discriminate.
Qed.

(** ** [json]: what [dumps] writes, [loads] reads back *)

Module JsonFacts.
Import Json.

Lemma hexval_hex_digit (d : N) : d < 16 -> hexval (hex_digit d) = Some d.
Proof.
  intros H; unfold hexval, hex_digit.
  N_cases; try lia; f_equal; lia.
Qed.

Lemma hex4_u_escape (n : N) :
  n < 65536 ->
  hex4 (hex_digit (n / 4096 mod 16)) (hex_digit (n / 256 mod 16))
       (hex_digit (n / 16 mod 16)) (hex_digit (n mod 16)) = Some n.
Proof.
  intros H; unfold hex4.
  rewrite !hexval_hex_digit by (apply N.mod_lt; lia).
  f_equal.
  zify; Z.to_euclidean_division_equations; lia.
Qed.


(** Bits below [2^k] and a multiple of [2^k] do not meet. *)
Lemma lor_shiftl_low (a z k : N) :
  z < 2 ^ k -> N.lor (N.shiftl a k) z = a * 2 ^ k + z.
Proof.
  intros Hz.
  assert (Hland : N.land (N.shiftl a k) z = 0).
  { apply N.bits_inj; intros i.
    rewrite N.land_spec, N.bits_0.
    destruct (N.lt_ge_cases i k) as [Hi|Hi].
    - rewrite N.shiftl_spec_low by assumption. reflexivity.
    - replace (N.testbit z i) with false; [apply andb_false_r|].
      symmetry. destruct (N.eq_dec z 0) as [->|Hz0]; [apply N.bits_0|].
      apply N.bits_above_log2.
      apply N.lt_le_trans with k; [|assumption].
      apply N.log2_lt_pow2; lia. }
  rewrite <- N.lxor_lor by assumption.
  rewrite <- N.add_nocarry_lxor by assumption.
  now rewrite N.shiftl_mul_pow2.
Qed.

Lemma lor_d800 (z : N) : z < 1024 -> N.lor 0xd800 z = 0xd800 + z.
Proof. intros H. apply (lor_shiftl_low 54 z 10); assumption. Qed.

Lemma lor_dc00 (z : N) : z < 1024 -> N.lor 0xdc00 z = 0xdc00 + z.
Proof. intros H. apply (lor_shiftl_low 55 z 10); assumption. Qed.

Lemma land_3ff (n : N) : N.land n 0x3ff = n mod 1024.
Proof. apply (N.land_ones n 10). Qed.

(** The scanner, one head shape at a time. *)

Lemma scan_plain (c : N) (t : str) :
  c <> 34 -> c <> 92 -> 32 <= c ->
  scanstring (c :: t) = cons_chr c (scanstring t).
Proof.
  intros H1 H2 H3; cbn [scanstring].
  N_cases; try lia; reflexivity.
Qed.

Lemma scan_simple (e x : N) (t : str) :
  e <> 117 -> simple_escape e = Some x ->
  scanstring (92 :: e :: t) = cons_chr x (scanstring t).
Proof.
  intros H1 H2; cbn [scanstring].
  change (92 =? 34) with false; change (92 =? 92) with true; cbv iota.
  destruct (N.eqb_spec e 117); [contradiction|].
  now rewrite H2.
Qed.

(** What the scanner looks for after an escaped high surrogate. *)
Definition low_escape_ahead (t : str) : bool :=
  match t with
  | b :: u :: g1 :: g2 :: g3 :: g4 :: _ =>
      (b =? 92) && (u =? 117)
      && match hex4 g1 g2 g3 g4 with
         | Some uni2 => is_low_surrogate uni2
         | None => true
         end
  | _ => false
  end.

Lemma scan_u_single (h1 h2 h3 h4 uni : N) (t : str) :
  hex4 h1 h2 h3 h4 = Some uni ->
  is_high_surrogate uni && low_escape_ahead t = false ->
  scanstring (92 :: 117 :: h1 :: h2 :: h3 :: h4 :: t) = cons_chr uni (scanstring t).
Proof.
  intros Hh Hs; cbn [scanstring].
  change (92 =? 34) with false; change (92 =? 92) with true;
    change (117 =? 117) with true; cbv iota.
  rewrite Hh.
  destruct t as [|b [|u [|g1 [|g2 [|g3 [|g4 t']]]]]]; try reflexivity.
  unfold low_escape_ahead in Hs.
  destruct (is_high_surrogate uni); cbn [andb] in *; [|reflexivity].
  destruct (b =? 92); cbn [andb] in *; [|reflexivity].
  destruct (u =? 117); cbn [andb] in *; [|reflexivity].
  destruct (hex4 g1 g2 g3 g4); [|discriminate].
  now rewrite Hs.
Qed.

Lemma scan_u_pair (h1 h2 h3 h4 g1 g2 g3 g4 hi lo : N) (t : str) :
  hex4 h1 h2 h3 h4 = Some hi -> is_high_surrogate hi = true ->
  hex4 g1 g2 g3 g4 = Some lo -> is_low_surrogate lo = true ->
  scanstring (92 :: 117 :: h1 :: h2 :: h3 :: h4 :: 92 :: 117 :: g1 :: g2 :: g3 :: g4 :: t)
  = cons_chr (join_surrogates hi lo) (scanstring t).
Proof.
  intros Hh Hhi Hg Hlo; cbn [scanstring].
  change (92 =? 34) with false; change (92 =? 92) with true;
    change (117 =? 117) with true; cbv iota.
  rewrite Hh, Hhi; cbn [andb]. now rewrite Hg, Hlo.
Qed.


Definition hi_unit (c : N) : N :=
  N.lor 0xd800 (N.land (N.shiftr (c - 0x10000) 10) 0x3ff).
Definition lo_unit (c : N) : N :=
  N.lor 0xdc00 (N.land (c - 0x10000) 0x3ff).

(** The four shapes of an encoded character. *)
Lemma escape_char_cases (c : N) :
  (escape_char c = [c] /\ c <> 34 /\ c <> 92 /\ 32 <= c)
  \/ (exists e, escape_char c = [92; e] /\ e <> 117 /\ simple_escape e = Some c)
  \/ (c < 0x10000 /\ escape_char c = u_escape c)
  \/ (0x10000 <= c /\ escape_char c = u_escape (hi_unit c) ++ u_escape (lo_unit c)).
Proof.
  unfold escape_char.
  destruct (N.eqb_spec c 92) as [->|?];
    [right; left; exists 92; repeat split; discriminate|].
  destruct (N.eqb_spec c 34) as [->|?];
    [right; left; exists 34; repeat split; discriminate|].
  destruct ((32 <=? c) && (c <=? 126)) eqn:Hp.
  { left. apply andb_prop in Hp as [Hp _]. apply N.leb_le in Hp. auto. }
  destruct (N.eqb_spec c 8) as [->|?];
    [right; left; exists 98; repeat split; discriminate|].
  destruct (N.eqb_spec c 12) as [->|?];
    [right; left; exists 102; repeat split; discriminate|].
  destruct (N.eqb_spec c 10) as [->|?];
    [right; left; exists 110; repeat split; discriminate|].
  destruct (N.eqb_spec c 13) as [->|?];
    [right; left; exists 114; repeat split; discriminate|].
  destruct (N.eqb_spec c 9) as [->|?];
    [right; left; exists 116; repeat split; discriminate|].
  destruct (N.ltb_spec c 0x10000); right; right; [left|right]; auto.
Qed.

Lemma hi_unit_range (c : N) : 0xd800 <= hi_unit c <= 0xdbff.
Proof.
  unfold hi_unit. rewrite land_3ff.
  assert (H : N.shiftr (c - 65536) 10 mod 1024 < 1024) by (apply N.mod_lt; lia).
  rewrite lor_d800 by assumption.
  revert H; generalize (N.shiftr (c - 65536) 10 mod 1024); intros; lia.
Qed.

Lemma lo_unit_range (c : N) : 0xdc00 <= lo_unit c <= 0xdfff.
Proof.
  unfold lo_unit. rewrite land_3ff.
  assert (H : (c - 65536) mod 1024 < 1024) by (apply N.mod_lt; lia).
  rewrite lor_dc00 by assumption.
  revert H; generalize ((c - 65536) mod 1024); intros; lia.
Qed.

Lemma join_units (c : N) :
  0x10000 <= c < 0x110000 -> join_surrogates (hi_unit c) (lo_unit c) = c.
Proof.
  intros Hc. unfold join_surrogates, hi_unit, lo_unit.
  rewrite !land_3ff, N.shiftr_div_pow2. change (2 ^ 10) with 1024.
  remember ((c - 65536) / 1024 mod 1024) as h eqn:Eh.
  remember ((c - 65536) mod 1024) as l eqn:El.
  assert (H1 : h < 1024) by (subst h; apply N.mod_lt; lia).
  assert (H2 : l < 1024) by (subst l; apply N.mod_lt; lia).
  rewrite lor_d800, lor_dc00 by assumption.
  replace (0xd800 + h - 0xd800) with h by lia.
  replace (0xdc00 + l - 0xdc00) with l by lia.
  rewrite (lor_shiftl_low _ _ 10) by assumption.
  change (2 ^ 10) with 1024. subst h l.
  zify; Z.to_euclidean_division_equations; lia.
Qed.

Definition head_not_low (s : str) : Prop :=
  match s with
  | c :: _ => is_low_surrogate c = false
  | [] => True
  end.

Lemma no_low_escape_ahead (s rest : str) :
  head_not_low s ->
  low_escape_ahead (flat_map escape_char s ++ 34 :: rest) = false.
Proof.
  destruct s as [|c s]; intros H.
  { cbn [flat_map app].
    destruct rest as [|u [|g1 [|g2 [|g3 [|g4 t]]]]]; reflexivity. }
  cbn [flat_map head_not_low] in *. rewrite <- app_assoc.
  destruct (escape_char_cases c)
    as [(-> & ? & ? & ?)|[(e & -> & ? & ?)|[(? & ->)|(? & ->)]]].
  - cbn [app low_escape_ahead].
    destruct (flat_map escape_char s ++ 34 :: rest) as [|u [|g1 [|g2 [|g3 [|g4 t]]]]];
      try reflexivity.
    destruct (N.eqb_spec c 92); [contradiction|reflexivity].
  - cbn [app low_escape_ahead].
    destruct (flat_map escape_char s ++ 34 :: rest) as [|g1 [|g2 [|g3 [|g4 t]]]];
      try reflexivity.
    destruct (N.eqb_spec e 117); [contradiction|reflexivity].
  - unfold u_escape; cbn [app low_escape_ahead].
    rewrite hex4_u_escape by assumption. now rewrite H.
  - rewrite <- app_assoc. unfold u_escape at 1; cbn [app low_escape_ahead].
    pose proof (hi_unit_range c) as Hr.
    rewrite hex4_u_escape by lia.
    unfold is_low_surrogate. N_cases; try lia; reflexivity.
Qed.

Lemma str_ok_tail (c : N) (s : str) : str_ok (c :: s) = true -> str_ok s = true.
Proof. cbn [str_ok]. intros H. apply andb_prop in H as [_ H]. exact H. Qed.

Lemma str_ok_head (c : N) (s : str) :
  str_ok (c :: s) = true ->
  c < 0x110000 /\ (is_high_surrogate c = true -> head_not_low s).
Proof.
  cbn [str_ok]. intros H.
  apply andb_prop in H as [H _]. apply andb_prop in H as [H1 H2].
  apply N.ltb_lt in H1. split; [assumption|].
  unfold is_high_surrogate. intros Hh. rewrite Hh in H2. cbn [andb] in H2.
  destruct s as [|d s]; cbn [head_not_low]; [exact I|].
  unfold is_low_surrogate. now destruct ((0xdc00 <=? d) && (d <=? 0xdfff)).
Qed.

(** An encoded string, scanned from after its opening quote, is the
    string, and the scanner stops after the closing quote. *)
Lemma scanstring_encoded (s rest : str) :
  str_ok s = true ->
  scanstring (flat_map escape_char s ++ 34 :: rest) = Ok (s, rest).
Proof.
  induction s as [|c s IH]; intros Hok; [reflexivity|].
  pose proof (str_ok_head _ _ Hok) as [Hc Hnext].
  specialize (IH (str_ok_tail _ _ Hok)).
  cbn [flat_map]. rewrite <- app_assoc.
  destruct (escape_char_cases c)
    as [(-> & ? & ? & ?)|[(e & -> & ? & ?)|[(? & ->)|(? & ->)]]].
  - cbn [app]. rewrite scan_plain, IH by assumption. reflexivity.
  - cbn [app]. rewrite (scan_simple e c), IH by assumption. reflexivity.
  - unfold u_escape; cbn [app].
    rewrite (scan_u_single _ _ _ _ c), IH; [reflexivity| |].
    + apply hex4_u_escape; assumption.
    + destruct (is_high_surrogate c) eqn:Hh; [|reflexivity].
      cbn [andb]. apply no_low_escape_ahead. auto.
  - rewrite <- app_assoc. unfold u_escape; cbn [app].
    pose proof (hi_unit_range c) as Hhi. pose proof (lo_unit_range c) as Hlo.
    rewrite (scan_u_pair _ _ _ _ _ _ _ _ (hi_unit c) (lo_unit c)), IH.
    + rewrite join_units by lia. reflexivity.
    + apply hex4_u_escape; lia.
    + unfold is_high_surrogate. N_cases; try lia; reflexivity.
    + apply hex4_u_escape; lia.
    + unfold is_low_surrogate. N_cases; try lia; reflexivity.
Qed.


(** Integers *)

Definition digit_step (a d : N) : N := 10 * a + (d - 48).

Lemma digits_aux_value (fuel : nat) : forall n acc,
  n < 2 ^ N.of_nat fuel ->
  fold_left digit_step (digits_aux fuel n acc) 0 = fold_left digit_step acc n.
Proof.
  induction fuel as [|fuel IH]; intros n acc Hn.
  - cbn in Hn. replace n with 0 by lia. reflexivity.
  - cbn [digits_aux].
    destruct (N.ltb_spec n 10) as [Hlt|Hge].
    + cbn [fold_left]. f_equal. unfold digit_step.
      rewrite N.mod_small by assumption. lia.
    + rewrite IH.
      * cbn [fold_left]. f_equal. unfold digit_step.
        zify; Z.to_euclidean_division_equations; lia.
      * rewrite Nat2N.inj_succ, N.pow_succ_r' in Hn.
        apply N.Div0.div_lt_upper_bound. lia.
Qed.

Lemma digits_aux_shape (fuel : nat) : forall n acc,
  0 < n -> n < 2 ^ N.of_nat fuel ->
  exists d ds, digits_aux fuel n acc = d :: ds ++ acc
               /\ 49 <= d <= 57 /\ forallb is_digit ds = true.
Proof.
  induction fuel as [|fuel IH]; intros n acc Hpos Hn.
  - cbn in Hn. lia.
  - cbn [digits_aux].
    assert (Hd : is_digit (48 + n mod 10) = true).
    { unfold is_digit. assert (n mod 10 < 10) by (apply N.mod_lt; lia).
      clear IH Hn. revert H. generalize (n mod 10). intros m Hm.
      N_cases; try lia; reflexivity. }
    destruct (N.ltb_spec n 10) as [Hlt|Hge].
    + exists (48 + n mod 10), []. rewrite N.mod_small by assumption.
      repeat split; try lia.
    + destruct (IH (n / 10) ((48 + n mod 10) :: acc)) as (d & ds & E & Hr & Hds).
      * apply N.div_str_pos. lia.
      * rewrite Nat2N.inj_succ, N.pow_succ_r' in Hn.
        apply N.Div0.div_lt_upper_bound. lia.
      * exists d, (ds ++ [48 + n mod 10]). rewrite E, <- app_assoc.
        repeat split; try tauto.
        rewrite forallb_app, Hds. cbn [forallb andb]. now rewrite Hd.
Qed.

Lemma size_bound (n : N) : n < 2 ^ N.of_nat (N.to_nat (N.size n)).
Proof. rewrite N2Nat.id. apply N.size_gt. Qed.

Lemma span_digits_app (ds rest : str) :
  forallb is_digit ds = true ->
  (forall c t, rest = c :: t -> is_digit c = false) ->
  span_digits (ds ++ rest) = (ds, rest).
Proof.
  intros Hds Hrest. induction ds as [|d ds IH].
  - cbn [app]. destruct rest as [|c t]; [reflexivity|].
    cbn [span_digits]. now rewrite (Hrest c t eq_refl).
  - cbn [forallb] in Hds. apply andb_prop in Hds as [Hd Hds].
    cbn [app span_digits]. rewrite Hd, IH by assumption. reflexivity.
Qed.

(** What may follow a value inside a document written by [dumps]. *)
Definition delimited (rest : str) : Prop :=
  match rest with
  | [] => True
  | c :: _ => c = 44 \/ c = 93 \/ c = 125
  end.

Lemma delimited_no_digit (rest : str) :
  delimited rest -> forall c t, rest = c :: t -> is_digit c = false.
Proof.
  intros H c t ->. cbn in H. unfold is_digit.
  destruct H as [->|[->| ->]]; reflexivity.
Qed.

Lemma delimited_no_float (rest : str) :
  delimited rest -> float_follows rest = false.
Proof.
  destruct rest as [|c [|d t]]; try reflexivity.
  cbn. intros [->|[->| ->]]; reflexivity.
Qed.

Lemma match_integer_digits (n : N) (rest : str) :
  delimited rest ->
  match_integer (digits n ++ rest) = Ok (n, rest).
Proof.
  intros Hrest. unfold digits.
  destruct (N.eqb_spec n 0) as [->|Hn]; [reflexivity|].
  destruct (digits_aux_shape (N.to_nat (N.size n)) n [])
    as (d & ds & E & Hr & Hds); [lia|apply size_bound|].
  pose proof (digits_aux_value (N.to_nat (N.size n)) n [] (size_bound n)) as Hv.
  rewrite E in *. rewrite app_nil_r in *.
  cbn [app match_integer].
  destruct (N.eqb_spec d 48); [lia|].
  replace (is_digit d) with true
    by (unfold is_digit; N_cases; try lia; reflexivity).
  rewrite span_digits_app by (auto; apply delimited_no_digit; assumption).
  unfold int_of_digits.
  change (fun a d0 : N => 10 * a + (d0 - 48)) with digit_step.
  now rewrite Hv.
Qed.

Lemma digits_head (n : N) :
  exists d t, digits n = d :: t /\ is_digit d = true.
Proof.
  unfold digits. destruct (N.eqb_spec n 0) as [->|Hn].
  - exists 48, []. split; reflexivity.
  - destruct (digits_aux_shape (N.to_nat (N.size n)) n [])
      as (d & ds & E & Hr & Hds); [lia|apply size_bound|].
    exists d, (ds ++ []). split; [assumption|].
    unfold is_digit; N_cases; try lia; reflexivity.
Qed.

Lemma match_number_repr (z : Z) (rest : str) :
  delimited rest ->
  match_number (repr_int z ++ rest) = Ok (PInt z, rest).
Proof.
  intros Hrest. unfold repr_int.
  destruct (Z.ltb_spec z 0) as [Hneg|Hpos].
  - cbn [app match_number].
    rewrite match_integer_digits by assumption. cbn [bind].
    rewrite delimited_no_float by assumption.
    do 3 f_equal. rewrite N2Z.inj_abs_N. lia.
  - destruct (digits_head (Z.abs_N z)) as (d & t & E & Hd).
    pose proof (match_integer_digits (Z.abs_N z) rest Hrest) as Hm.
    rewrite E in *. cbn [app] in *. unfold match_number.
    assert (Hne : d <> 45) by (intros ->; discriminate).
    assert (Hgoal :
      bind (match_integer (d :: t ++ rest))
        (fun x => let '(n, r) := x in
           if float_follows r then Raise Unmodelled else Ok (PInt (Z.of_N n), r))
      = Ok (PInt z, rest)).
    { rewrite Hm. cbn [bind]. rewrite delimited_no_float by assumption.
      do 3 f_equal. rewrite N2Z.inj_abs_N. lia. }
    revert Hgoal. clear -Hne.
    destruct d as [|p]; [auto|].
    do 6 (destruct p as [p|p|]; auto). congruence.
Qed.


(** Values *)

(** Fuel that scanning the text of a value takes. *)
Fixpoint size (v : py) : nat :=
  match v with
  | PList l => S (fold_right (fun x a => S (size x + a)) O l)
  | PDict items => S (fold_right (fun kv a => S (size (snd kv) + a)) O items)
  | _ => 1
  end.

Definition value_start (c : N) : bool :=
  (c =? 34) || (c =? 123) || (c =? 91) || (c =? 110) || (c =? 116)
  || (c =? 102) || (c =? 45) || is_digit c.

Lemma dumps_head (v : py) :
  exists c t, dumps v = c :: t /\ value_start c = true.
Proof.
  destruct v as [| [|] | z | s | l | items]; cbn [dumps];
    try (eexists _, _; split; reflexivity).
  unfold repr_int. destruct (z <? 0)%Z.
  - eexists _, _; split; reflexivity.
  - destruct (digits_head (Z.abs_N z)) as (d & t & -> & Hd).
    exists d, t. split; [reflexivity|].
    unfold value_start. rewrite Hd. now rewrite !orb_true_r.
Qed.

Lemma value_start_not_ws (c : N) : value_start c = true -> is_ws c = false.
Proof.
  unfold value_start. intros H.
  repeat (apply orb_prop in H as [H|H]);
    try (apply N.eqb_eq in H; subst c; reflexivity).
  unfold is_digit in H. apply andb_prop in H as [H1 H2].
  apply N.leb_le in H1, H2. unfold is_ws.
  N_cases; try lia; reflexivity.
Qed.

Lemma skip_ws_dumps (v : py) (rest : str) :
  skip_ws (dumps v ++ rest) = dumps v ++ rest.
Proof.
  destruct (dumps_head v) as (c & t & -> & Hc).
  cbn [app skip_ws]. now rewrite (value_start_not_ws c Hc).
Qed.

Lemma head_is_dumps (v : py) (rest : str) (c : N) :
  value_start c = false -> head_is c (dumps v ++ rest) = false.
Proof.
  destruct (dumps_head v) as (d & t & -> & Hd). intros Hc.
  cbn [app head_is]. destruct (N.eqb_spec d c); [congruence|reflexivity].
Qed.

Lemma scan_once_number (fuel : nat) (c : N) (t : str) :
  is_digit c = true
  \/ (c = 45 /\ exists d t', t = d :: t' /\ is_digit d = true) ->
  scan_once (S fuel) (c :: t) = match_number (c :: t).
Proof.
  intros [Hc|(-> & d & t' & -> & Hd)].
  - unfold is_digit in Hc. apply andb_prop in Hc as [H1 H2].
    apply N.leb_le in H1, H2.
    assert (Hcases : c = 48 \/ c = 49 \/ c = 50 \/ c = 51 \/ c = 52 \/ c = 53
                     \/ c = 54 \/ c = 55 \/ c = 56 \/ c = 57) by lia.
    repeat destruct Hcases as [->|Hcases]; try subst c; reflexivity.
  - unfold is_digit in Hd. apply andb_prop in Hd as [H1 H2].
    apply N.leb_le in H1, H2.
    assert (Hcases : d = 48 \/ d = 49 \/ d = 50 \/ d = 51 \/ d = 52 \/ d = 53
                     \/ d = 54 \/ d = 55 \/ d = 56 \/ d = 57) by lia.
    repeat destruct Hcases as [->|Hcases]; try subst d; reflexivity.
Qed.

Lemma scan_once_int (fuel : nat) (z : Z) (rest : str) :
  delimited rest ->
  scan_once (S fuel) (repr_int z ++ rest) = Ok (PInt z, rest).
Proof.
  intros Hrest. rewrite <- match_number_repr by assumption.
  unfold repr_int. destruct (Z.ltb_spec z 0).
  - destruct (digits_head (Z.abs_N z)) as (d & t & E & Hd). rewrite E.
    cbn [app]. apply scan_once_number. right. split; [reflexivity|].
    exists d, (t ++ rest). auto.
  - destruct (digits_head (Z.abs_N z)) as (d & t & E & Hd). rewrite E.
    cbn [app]. apply scan_once_number. now left.
Qed.


Definition scans_back (v : py) : Prop :=
  forall fuel rest,
    (size v <= fuel)%nat -> delimited rest ->
    scan_once fuel (dumps v ++ rest) = Ok (v, rest).

Definition elements_size (l : list py) : nat :=
  fold_right (fun x a => S (size x + a)) O l.

Definition members_size (items : list (str * py)) : nat :=
  fold_right (fun kv a => S (size (snd kv) + a)) O items.

Lemma join_cons (sep x : str) (l : list str) :
  join sep (x :: l) = x ++ match l with [] => [] | _ :: _ => sep ++ join sep l end.
Proof. destruct l; cbn [join]; [now rewrite app_nil_r|reflexivity]. Qed.

Lemma skip_ws_space (t : str) : skip_ws (32 :: t) = skip_ws t.
Proof. reflexivity. Qed.

Lemma skip_ws_stop (c : N) (t : str) : is_ws c = false -> skip_ws (c :: t) = c :: t.
Proof. intros H. cbn [skip_ws]. now rewrite H. Qed.

(** Steps of the two loops on punctuation. *)
Ltac punct :=
  cbn [bind head_is tl N.eqb Pos.eqb];
  repeat (first
            [ rewrite skip_ws_space
            | rewrite skip_ws_dumps
            | rewrite skip_ws_stop by reflexivity ];
          cbn [bind head_is tl N.eqb Pos.eqb]).

Lemma parse_elements_dumps (l : list py) :
  Forall scans_back l -> l <> [] ->
  forall fuel rest,
    (elements_size l <= fuel)%nat ->
    parse_elements fuel (join (lit ", ") (List.map dumps l) ++ 93 :: rest)
    = Ok (l, rest).
Proof.
  induction 1 as [|v l Hv Hl IH]; [congruence|]. intros _ fuel rest Hfuel.
  cbn [elements_size fold_right] in Hfuel. fold (elements_size l) in Hfuel.
  destruct fuel as [|fuel]; [lia|].
  cbn [List.map]. rewrite join_cons, <- app_assoc. cbn [parse_elements].
  destruct l as [|v' l].
  - cbn [List.map app]. rewrite Hv; [|lia|cbn; auto]. now punct.
  - pose proof (IH ltac:(discriminate) fuel rest ltac:(lia)) as IH'.
    cbn [List.map] in *. rewrite <- app_assoc.
    change (lit ", ") with [44; 32] in *. cbn [app].
    rewrite Hv; [|lia|cbn; auto]. punct.
    rewrite join_cons in *. rewrite <- app_assoc in *.
    punct. now rewrite IH'.
Qed.

Definition member_text (kv : str * py) : str :=
  encode_basestring_ascii (fst kv) ++ lit ": " ++ dumps (snd kv).

Lemma parse_members_dumps (items : list (str * py)) :
  Forall (fun kv => scans_back (snd kv)) items -> items <> [] ->
  forallb (fun kv => str_ok (fst kv)) items = true ->
  forall fuel rest,
    (members_size items <= fuel)%nat ->
    parse_members fuel (join (lit ", ") (List.map member_text items) ++ 125 :: rest)
    = Ok (items, rest).
Proof.
  induction 1 as [|[k v] l Hv Hl IH]; [congruence|]. intros _ Hkeys fuel rest Hfuel.
  cbn [members_size fold_right snd] in Hfuel. fold (members_size l) in Hfuel.
  cbn [forallb fst] in Hkeys. apply andb_prop in Hkeys as [Hk Hkeys].
  cbn [snd] in Hv.
  destruct fuel as [|fuel]; [lia|].
  cbn [List.map]. rewrite join_cons, <- app_assoc.
  unfold member_text at 1. cbn [fst snd]. unfold encode_basestring_ascii.
  change (lit ": ") with [58; 32]. cbn [app]. rewrite <- !app_assoc. cbn [app].
  cbn [parse_members]. punct.
  rewrite scanstring_encoded by assumption. punct.
  destruct l as [|[k' v'] l].
  - cbn [List.map app]. rewrite Hv; [|lia|cbn; auto]. now punct.
  - pose proof (IH ltac:(discriminate) Hkeys fuel rest ltac:(lia)) as IH'.
    cbn [List.map] in *.
    change (lit ", ") with [44; 32] in *. cbn [app].
    rewrite Hv; [|lia|cbn; auto]. punct.
    rewrite join_cons in *. rewrite <- app_assoc in *.
    unfold member_text at 1. unfold member_text at 1 in IH'.
    unfold encode_basestring_ascii in *. cbn [app fst snd] in *.
    punct. now rewrite IH'.
Qed.


Lemma Forall_forallb_impl {A} (P : A -> Prop) (f : A -> bool) (l : list A) :
  Forall (fun x => f x = true -> P x) l -> forallb f l = true -> Forall P l.
Proof.
  induction 1 as [|x l Hx Hl IH]; cbn [forallb]; intros H; constructor;
    apply andb_prop in H as [H1 H2]; auto.
Qed.

Lemma scan_once_dumps (v : py) : py_ok v = true -> scans_back v.
Proof.
  induction v as [| b | z | s | l IH | items IH] using py_ind;
    intros Hok fuel rest Hfuel Hrest;
    (destruct fuel as [|fuel]; [cbn in Hfuel; lia|]).
  - reflexivity.
  - destruct b; reflexivity.
  - apply scan_once_int; assumption.
  - cbn [dumps py_ok] in *. unfold encode_basestring_ascii.
    cbn [app]. rewrite <- app_assoc. cbn [app scan_once].
    change (34 =? 34) with true. cbv iota.
    now rewrite scanstring_encoded.
  - cbn [py_ok] in Hok. pose proof (Forall_forallb_impl _ _ _ IH Hok) as Hall.
    cbn [dumps]. cbn [app]. rewrite <- app_assoc. cbn [app scan_once].
    change (91 =? 34) with false; change (91 =? 123) with false;
      change (91 =? 91) with true. cbv iota.
    destruct l as [|x l].
    + reflexivity.
    + cbn [List.map]. rewrite join_cons, <- app_assoc.
      punct. rewrite (head_is_dumps x _ 93) by reflexivity.
      pose proof (parse_elements_dumps (x :: l) Hall ltac:(discriminate) fuel rest)
        as Hp.
      cbn [List.map] in Hp. rewrite join_cons, <- app_assoc in Hp.
      rewrite Hp; [reflexivity|].
      cbn [size] in Hfuel. unfold elements_size. lia.
  - cbn [py_ok] in Hok. apply andb_prop in Hok as [Hkeys Hok].
    assert (Hall : Forall (fun kv => scans_back (snd kv)) items).
    { apply (Forall_forallb_impl _ (fun kv => str_ok (fst kv) && py_ok (snd kv)));
        [|assumption].
      eapply Forall_impl; [|exact IH]. cbn beta. intros kv H1 H2.
      apply andb_prop in H2 as [_ H2]. auto. }
    assert (Hks : forallb (fun kv => str_ok (fst kv)) items = true).
    { clear -Hok. induction items as [|kv items IHi]; [reflexivity|].
      cbn [forallb] in *. apply andb_prop in Hok as [H1 H2].
      apply andb_prop in H1 as [H1 _]. now rewrite H1, IHi. }
    change (dumps (PDict items))
      with (123 :: join (lit ", ") (List.map member_text items) ++ [125]).
    cbn [app]. rewrite <- app_assoc. cbn [app scan_once].
    change (123 =? 34) with false; change (123 =? 123) with true. cbv iota.
    destruct items as [|[k x] items].
    + reflexivity.
    + pose proof (parse_members_dumps ((k, x) :: items) Hall ltac:(discriminate)
                    Hks fuel rest) as Hp.
      remember (join (lit ", ") (List.map member_text ((k, x) :: items))) as J eqn:EJ.
      assert (HJ : exists t, J = 34 :: t).
      { subst J. cbn [List.map]. rewrite join_cons. unfold member_text at 1.
        unfold encode_basestring_ascii. cbn [app]. eauto. }
      destruct HJ as (t & HJ). rewrite HJ in *. cbn [app] in *. punct.
      rewrite Hp.
      * cbn [bind]. now rewrite dict_of_pairs_distinct.
      * cbn [size] in Hfuel. unfold members_size. lia.
Qed.

Lemma length_join_dumps {A} (f : A -> str) (g : A -> nat) (l : list A) :
  Forall (fun x => (g x <= List.length (f x))%nat) l ->
  (fold_right (fun x a => S (g x + a)) O l
   <= S (List.length (join (lit ", ") (List.map f l))))%nat.
Proof.
  induction 1 as [|x l Hx Hl IH]; [cbn; lia|].
  cbn [List.map fold_right]. rewrite join_cons, length_app.
  destruct l as [|y l]; [cbn in *; lia|].
  cbn [List.map] in *. rewrite length_app.
  change (List.length (lit ", ")) with 2%nat. lia.
Qed.

Lemma size_le_length (v : py) : (size v <= List.length (dumps v))%nat.
Proof.
  induction v as [| b | z | s | l IH | items IH] using py_ind.
  - cbn. lia.
  - destruct b; cbn; lia.
  - cbn [size dumps]. destruct (dumps_head (PInt z)) as (c & t & E & _).
    cbn [dumps] in E. rewrite E. cbn. lia.
  - cbn [size dumps]. unfold encode_basestring_ascii. cbn. lia.
  - cbn [size dumps]. cbn [List.length]. rewrite length_app. cbn [List.length].
    pose proof (length_join_dumps dumps size l IH). lia.
  - cbn [size dumps]. cbn [List.length]. rewrite length_app. cbn [List.length].
    pose proof (length_join_dumps
                  (fun kv => encode_basestring_ascii (fst kv) ++ lit ": " ++ dumps (snd kv))
                  (fun kv => size (snd kv)) items) as H.
    cbv beta in H.
    assert (Hm : Forall (fun kv : str * py =>
                  (size (snd kv) <= List.length
                     (encode_basestring_ascii (fst kv) ++ lit ": " ++ dumps (snd kv)))%nat)
                  items).
    { eapply Forall_impl; [|exact IH]. cbv beta. intros kv Hkv.
      rewrite !length_app. lia. }
    specialize (H Hm). apply le_n_S. rewrite Nat.add_1_r. exact H.
Qed.

(** Reading back what [dumps] wrote gives the value. *)
Lemma loads_dumps (v : py) : py_ok v = true -> loads (dumps v) = Ok v.
Proof.
  intros Hok. unfold loads.
  rewrite <- (app_nil_r (dumps v)) at 1 2. rewrite skip_ws_dumps.
  rewrite (scan_once_dumps v Hok); [reflexivity| |exact I].
  rewrite app_nil_r. pose proof (size_le_length v). lia.
Qed.

End JsonFacts.

(** ** Percent-encoding and UTF-8 *)

Module UrlFacts.
Import Urllib.

(** A code point a [str] can hold and UTF-8 can encode. *)
Definition scalar (c : N) : bool :=
  (c <? 0xD800) || ((0xDFFF <? c) && (c <? 0x110000)).

Definition is_surrogate (c : N) : bool := (0xD800 <=? c) && (c <=? 0xDFFF).

Definition is_byte (b : N) : bool := b <? 256.

Definition is_ascii (c : N) : bool := c <? 0x80.

(** What [quote] writes: the characters it keeps, and [%] with upper-case
    hexadecimal digits. *)
Definition url_char (c : N) : bool :=
  is_safe c || (c =? 37) || ((48 <=? c) && (c <=? 57)) || ((65 <=? c) && (c <=? 70)).

Ltac divmod := zify; Z.to_euclidean_division_equations; lia.

Lemma utf8_decode_ascii (s : str) :
  forallb is_ascii s = true -> utf8_decode s = s.
Proof.
  induction s as [|c s IH]; [reflexivity|].
  cbn [forallb]. intros H. apply andb_prop in H as [Hc Hs].
  cbn [utf8_decode]. unfold is_ascii in Hc. rewrite Hc, IH by exact Hs. reflexivity.
Qed.

Ltac known t v := assert (t = v) as -> by (N_cases; try reflexivity; lia).

Lemma decode_two (q r : N) (rest : list N) :
  2 <= q < 32 -> r < 64 ->
  utf8_decode (0xC0 + q :: 0x80 + r :: rest) = 64 * q + r :: utf8_decode rest.
Proof.
  intros Hq Hr. cbn [utf8_decode].
  known (0xC0 + q <? 0x80) false.
  known ((0xC2 <=? 0xC0 + q) && (0xC0 + q <=? 0xDF)) true.
  unfold is_cont. known ((0x80 <=? 0x80 + r) && (0x80 + r <=? 0xBF)) true.
  f_equal. lia.
Qed.

Lemma second_ok_three (q m : N) :
  q < 16 -> m < 64 -> (q = 0 -> 32 <= m) -> (q = 13 -> m < 32) ->
  second_ok (0xE0 + q) (0x80 + m) = true.
Proof.
  intros Hq Hm Hlow Hed. unfold second_ok, is_cont.
  destruct (N.eqb_spec (0xE0 + q) 0xE0) as [E|E].
  { assert (32 <= m) by (apply Hlow; lia).
    known ((0xA0 <=? 0x80 + m) && (0x80 + m <=? 0xBF)) true. reflexivity. }
  destruct (N.eqb_spec (0xE0 + q) 0xED) as [E1|E1].
  { assert (m < 32) by (apply Hed; lia).
    known ((0x80 <=? 0x80 + m) && (0x80 + m <=? 0x9F)) true. reflexivity. }
  known (0xE0 + q =? 0xF0) false.
  known (0xE0 + q =? 0xF4) false.
  known ((0x80 <=? 0x80 + m) && (0x80 + m <=? 0xBF)) true. reflexivity.
Qed.

Lemma decode_three (q m r : N) (rest : list N) :
  q < 16 -> m < 64 -> r < 64 -> (q = 0 -> 32 <= m) -> (q = 13 -> m < 32) ->
  utf8_decode (0xE0 + q :: 0x80 + m :: 0x80 + r :: rest)
  = 4096 * q + 64 * m + r :: utf8_decode rest.
Proof.
  intros Hq Hm Hr Hlow Hed. cbn [utf8_decode].
  rewrite (second_ok_three q m Hq Hm Hlow Hed).
  known (0xE0 + q <? 0x80) false.
  known ((0xC2 <=? 0xE0 + q) && (0xE0 + q <=? 0xDF)) false.
  known ((0xE0 <=? 0xE0 + q) && (0xE0 + q <=? 0xEF)) true.
  unfold is_cont. known ((0x80 <=? 0x80 + r) && (0x80 + r <=? 0xBF)) true.
  f_equal. lia.
Qed.

Lemma second_ok_four (q n : N) :
  q <= 4 -> n < 64 -> (q = 0 -> 16 <= n) -> (q = 4 -> n < 16) ->
  second_ok (0xF0 + q) (0x80 + n) = true.
Proof.
  intros Hq Hn Hlow Hhigh. unfold second_ok, is_cont.
  known (0xF0 + q =? 0xE0) false.
  known (0xF0 + q =? 0xED) false.
  destruct (N.eqb_spec (0xF0 + q) 0xF0) as [E|E].
  { assert (16 <= n) by (apply Hlow; lia).
    known ((0x90 <=? 0x80 + n) && (0x80 + n <=? 0xBF)) true. reflexivity. }
  destruct (N.eqb_spec (0xF0 + q) 0xF4) as [E1|E1].
  { assert (n < 16) by (apply Hhigh; lia).
    known ((0x80 <=? 0x80 + n) && (0x80 + n <=? 0x8F)) true. reflexivity. }
  known ((0x80 <=? 0x80 + n) && (0x80 + n <=? 0xBF)) true. reflexivity.
Qed.

Lemma decode_four (q n m r : N) (rest : list N) :
  q <= 4 -> n < 64 -> m < 64 -> r < 64 -> (q = 0 -> 16 <= n) -> (q = 4 -> n < 16) ->
  utf8_decode (0xF0 + q :: 0x80 + n :: 0x80 + m :: 0x80 + r :: rest)
  = 262144 * q + 4096 * n + 64 * m + r :: utf8_decode rest.
Proof.
  intros Hq Hn Hm Hr Hlow Hhigh. cbn [utf8_decode].
  rewrite (second_ok_four q n Hq Hn Hlow Hhigh).
  known (0xF0 + q <? 0x80) false.
  known ((0xC2 <=? 0xF0 + q) && (0xF0 + q <=? 0xDF)) false.
  known ((0xE0 <=? 0xF0 + q) && (0xF0 + q <=? 0xEF)) false.
  known ((0xF0 <=? 0xF0 + q) && (0xF0 + q <=? 0xF4)) true.
  unfold is_cont.
  known ((0x80 <=? 0x80 + m) && (0x80 + m <=? 0xBF)) true.
  known ((0x80 <=? 0x80 + r) && (0x80 + r <=? 0xBF)) true.
  f_equal. lia.
Qed.

Lemma small_is_byte (a b : N) : a + b < 256 -> is_byte (a + b) = true.
Proof. intros H. unfold is_byte. now apply N.ltb_lt. Qed.

Lemma encode_one (c : N) (s : str) (bs : list N) :
  scalar c = true -> utf8_encode s = Ok bs ->
  exists cs, utf8_encode (c :: s) = Ok (cs ++ bs)
             /\ forallb is_byte cs = true
             /\ forall rest, utf8_decode (cs ++ rest) = c :: utf8_decode rest.
Proof.
  intros Hc Hs. cbn [utf8_encode]. rewrite Hs. cbn [bind].
  assert (Hrange : c < 0xD800 \/ 0xDFFF < c < 0x110000).
  { unfold scalar in Hc. N_cases; try discriminate; lia. }
  clear Hc.
  destruct (N.ltb_spec c 0x80) as [H1|H1].
  { exists [c]. split; [reflexivity|]. split.
    - cbn [forallb]. unfold is_byte. known (c <? 256) true. reflexivity.
    - intros rest. cbn [app utf8_decode]. known (c <? 0x80) true. reflexivity. }
  destruct (N.ltb_spec c 0x800) as [H2|H2].
  { exists [0xC0 + c / 64; 0x80 + c mod 64]. split; [reflexivity|].
    assert (Hq : 2 <= c / 64 < 32) by divmod.
    assert (Hr : c mod 64 < 64) by divmod.
    assert (Hv : 64 * (c / 64) + c mod 64 = c) by divmod.
    split.
    - cbn [forallb]. rewrite !small_is_byte by lia. reflexivity.
    - intros rest. cbn [app]. rewrite decode_two by assumption. now rewrite Hv. }
  known ((0xD800 <=? c) && (c <=? 0xDFFF)) false.
  destruct (N.ltb_spec c 0x10000) as [H3|H3].
  { exists [0xE0 + c / 4096; 0x80 + c / 64 mod 64; 0x80 + c mod 64].
    split; [reflexivity|].
    assert (Hq : c / 4096 < 16) by divmod.
    assert (Hm : c / 64 mod 64 < 64) by divmod.
    assert (Hr : c mod 64 < 64) by divmod.
    assert (Hv : 4096 * (c / 4096) + 64 * (c / 64 mod 64) + c mod 64 = c) by divmod.
    assert (Hlow : c / 4096 = 0 -> 32 <= c / 64 mod 64) by divmod.
    assert (Hed : c / 4096 = 13 -> c / 64 mod 64 < 32).
    { intros H13. assert (c < 0xD800) by lia. divmod. }
    split.
    - cbn [forallb]. rewrite !small_is_byte by lia. reflexivity.
    - intros rest. cbn [app]. rewrite decode_three by assumption. now rewrite Hv. }
  exists [0xF0 + c / 262144; 0x80 + c / 4096 mod 64; 0x80 + c / 64 mod 64; 0x80 + c mod 64].
  split; [reflexivity|].
  assert (Hmax : c < 0x110000) by lia.
  assert (Hq : c / 262144 <= 4) by divmod.
  assert (Hn : c / 4096 mod 64 < 64) by divmod.
  assert (Hm : c / 64 mod 64 < 64) by divmod.
  assert (Hr : c mod 64 < 64) by divmod.
  assert (Hv : 262144 * (c / 262144) + 4096 * (c / 4096 mod 64)
               + 64 * (c / 64 mod 64) + c mod 64 = c) by divmod.
  assert (Hlow : c / 262144 = 0 -> 16 <= c / 4096 mod 64) by divmod.
  assert (Hhigh : c / 262144 = 4 -> c / 4096 mod 64 < 16) by divmod.
  split.
  - cbn [forallb]. rewrite !small_is_byte by lia. reflexivity.
  - intros rest. cbn [app]. rewrite decode_four by assumption. now rewrite Hv.
Qed.

Lemma encode_decode (s : str) :
  forallb scalar s = true ->
  exists bs, utf8_encode s = Ok bs /\ forallb is_byte bs = true /\ utf8_decode bs = s.
Proof.
  induction s as [|c s IH]; [exists []; auto|].
  cbn [forallb]. intros H. apply andb_prop in H as [Hc Hs].
  destruct (IH Hs) as (bs & Hbs & Hbytes & Hdec).
  destruct (encode_one c s bs Hc Hbs) as (cs & Hcs & Hcb & Hcd).
  exists (cs ++ bs). split; [exact Hcs|]. split.
  - rewrite forallb_app, Hcb, Hbytes. reflexivity.
  - rewrite Hcd, Hdec. reflexivity.
Qed.

Lemma encode_surrogate (s : str) :
  existsb is_surrogate s = true -> utf8_encode s = Raise UnicodeEncodeError.
Proof.
  induction s as [|c s IH]; [discriminate|].
  cbn [existsb utf8_encode]. intros H.
  destruct (utf8_encode s) as [bs|e] eqn:Hs.
  - destruct (existsb is_surrogate s); [discriminate (IH eq_refl)|].
    rewrite orb_false_r in H. unfold is_surrogate in H. cbn [bind].
    rewrite H.
    assert ((c <? 0x80) = false /\ (c <? 0x800) = false) as [-> ->]; [|reflexivity].
    N_cases; try discriminate; split; try reflexivity; lia.
  - cbn [bind]. destruct (existsb is_surrogate s) eqn:Hex.
    + now rewrite <- (IH eq_refl).
    + rewrite orb_false_r in H.
      (* the rest of the key is encoded first *)
      exfalso. revert Hs Hex. clear. revert e.
      induction s as [|d s IH]; [discriminate|].
      intros e. cbn [utf8_encode existsb]. intros Hs Hex.
      apply orb_false_elim in Hex as [Hd Hex].
      destruct (utf8_encode s) as [bs|e'] eqn:Hs'; [|now apply (IH e')].
      cbn [bind] in Hs. unfold is_surrogate in Hd. rewrite Hd in Hs.
      destruct (d <? 0x80), (d <? 0x800), (d <? 0x10000); discriminate.
Qed.

Lemma hexval_upper (d : N) : d < 16 -> hexval (upper_hex_digit d) = Some d.
Proof.
  intros Hd. unfold hexval, upper_hex_digit.
  destruct (N.ltb_spec d 10).
  - assert ((48 <=? 48 + d) && (48 + d <=? 57) = true) as ->
      by (N_cases; try reflexivity; lia).
    f_equal. lia.
  - assert ((48 <=? 55 + d) && (55 + d <=? 57) = false) as ->
      by (N_cases; try reflexivity; lia).
    assert ((97 <=? 55 + d) && (55 + d <=? 102) = false) as ->
      by (N_cases; try reflexivity; lia).
    assert ((65 <=? 55 + d) && (55 + d <=? 70) = true) as ->
      by (N_cases; try reflexivity; lia).
    f_equal. lia.
Qed.

Lemma upper_hex_digit_char (d : N) :
  d < 16 -> url_char (upper_hex_digit d) = true /\ is_ascii (upper_hex_digit d) = true.
Proof.
  intros Hd. unfold url_char, upper_hex_digit, is_ascii.
  destruct (N.ltb_spec d 10).
  - known ((48 <=? 48 + d) && (48 + d <=? 57)) true.
    known (48 + d <? 0x80) true.
    rewrite orb_true_r. split; reflexivity.
  - known ((65 <=? 55 + d) && (55 + d <=? 70)) true.
    known (55 + d <? 0x80) true.
    rewrite orb_true_r. split; reflexivity.
Qed.

Ltac split_or H :=
  match type of H with
  | (_ || _) = true => apply orb_prop in H; destruct H as [H|H]; [split_or H|]
  | _ => idtac
  end.

Lemma safe_is_plain (b : N) : is_safe b = true -> b <> 37 /\ is_ascii b = true.
Proof.
  unfold is_safe, is_ascii. intros H. split_or H;
    N_cases; try discriminate; split; try reflexivity; lia.
Qed.

Lemma unquote_escape (h1 h2 a b : N) (rest : str) :
  hexval h1 = Some a -> hexval h2 = Some b ->
  unquote_to_bytes (37 :: h1 :: h2 :: rest) = 16 * a + b :: unquote_to_bytes rest.
Proof.
  intros Ha Hb. cbn [unquote_to_bytes]. rewrite N.eqb_refl, Ha, Hb. reflexivity.
Qed.

Lemma unquote_plain (c : N) (rest : str) :
  c <> 37 -> unquote_to_bytes (c :: rest) = c :: unquote_to_bytes rest.
Proof.
  intros Hc. cbn [unquote_to_bytes].
  destruct (N.eqb_spec c 37); [contradiction|reflexivity].
Qed.

Lemma quote_bytes (bs : list N) :
  forallb is_byte bs = true ->
  unquote_to_bytes (flat_map quote_byte bs) = bs
  /\ forallb url_char (flat_map quote_byte bs) = true
  /\ forallb is_ascii (flat_map quote_byte bs) = true.
Proof.
  induction bs as [|b bs IH]; [auto|].
  cbn [forallb flat_map]. intros H. apply andb_prop in H as [Hb Hbs].
  destruct (IH Hbs) as (IH1 & IH2 & IH3).
  unfold is_byte in Hb. apply N.ltb_lt in Hb.
  assert (Hquote : quote_byte b
                   = if is_safe b then [b]
                     else [37; upper_hex_digit (b / 16); upper_hex_digit (b mod 16)])
    by reflexivity.
  rewrite Hquote. clear Hquote. destruct (is_safe b) eqn:Hsafe.
  - destruct (safe_is_plain b Hsafe) as [Hne Hascii].
    cbn [app forallb]. rewrite unquote_plain, IH1, IH2, IH3, Hascii by exact Hne.
    unfold url_char. rewrite Hsafe. auto.
  - assert (Hq : b / 16 < 16) by divmod.
    assert (Hr : b mod 16 < 16) by divmod.
    assert (Hv : 16 * (b / 16) + b mod 16 = b) by divmod.
    cbn [app forallb].
    rewrite (unquote_escape _ _ _ _ _ (hexval_upper _ Hq) (hexval_upper _ Hr)).
    destruct (upper_hex_digit_char _ Hq) as [-> ->].
    destruct (upper_hex_digit_char _ Hr) as [-> ->].
    rewrite Hv, IH1, IH2, IH3. auto.
Qed.

Lemma unquote_to_bytes_plain (s : str) :
  contains 37 s = false -> unquote_to_bytes s = s.
Proof.
  unfold contains. induction s as [|c s IH]; [reflexivity|].
  cbn [existsb]. intros H. apply orb_false_elim in H as [Hc Hs].
  rewrite unquote_plain, IH; auto.
  intros ->. discriminate.
Qed.

Lemma unquote_runs_ascii (s run : str) :
  forallb is_ascii s = true -> unquote_runs run s = decode_run (rev run ++ s).
Proof.
  revert run. induction s as [|c s IH]; intros run.
  - now rewrite app_nil_r.
  - cbn [forallb unquote_runs]. intros H. apply andb_prop in H as [Hc Hs].
    unfold is_ascii in Hc. rewrite Hc, IH by exact Hs.
    cbn [rev]. now rewrite <- app_assoc.
Qed.

Lemma unquote_ascii (s : str) :
  forallb is_ascii s = true -> unquote s = decode_run s.
Proof.
  intros H. unfold unquote. destruct (contains 37 s) eqn:Hp; cbn [negb].
  - now rewrite unquote_runs_ascii.
  - unfold decode_run. now rewrite unquote_to_bytes_plain, utf8_decode_ascii.
Qed.

Lemma quote_unquote (s : str) :
  forallb scalar s = true ->
  exists quoted, quote s = Ok quoted
                 /\ forallb url_char quoted = true
                 /\ unquote quoted = s.
Proof.
  intros Hs. destruct (encode_decode s Hs) as (bs & Hbs & Hbytes & Hdec).
  destruct (quote_bytes bs Hbytes) as (H1 & H2 & H3).
  exists (flat_map quote_byte bs). unfold quote. rewrite Hbs. cbn [bind].
  split; [reflexivity|]. split; [exact H2|].
  rewrite unquote_ascii by exact H3. unfold decode_run. now rewrite H1.
Qed.


(** *** Decoding a URL-encoded key *)

(** A URL-encoding of the bytes [bs], as a form or a storage
    notification writes it: a byte below 0x80 other than [%] and [+]
    may stand for itself, a space may be written [+], and any byte may
    be written [%] with its two hexadecimal digits, in either case. *)
Inductive url_encoded : list N -> str -> Prop :=
| enc_nil : url_encoded [] []
| enc_plain (b : N) (bs : list N) (s : str) :
    b < 0x80 -> b <> 37 -> b <> 43 ->
    url_encoded bs s -> url_encoded (b :: bs) (b :: s)
| enc_plus (bs : list N) (s : str) :
    url_encoded bs s -> url_encoded (32 :: bs) (43 :: s)
| enc_escape (b h1 h2 : N) (bs : list N) (s : str) :
    b < 256 -> hexval h1 = Some (b / 16) -> hexval h2 = Some (b mod 16) ->
    url_encoded bs s -> url_encoded (b :: bs) (37 :: h1 :: h2 :: s).

Lemma hexval_char (h d : N) : hexval h = Some d -> h <> 43 /\ is_ascii h = true.
Proof.
  unfold hexval, is_ascii. intros H.
  N_cases; try discriminate; split; try reflexivity; lia.
Qed.

Lemma url_encoded_bytes (bs : list N) (s : str) :
  url_encoded bs s ->
  unquote_to_bytes (replace_char 43 32 s) = bs
  /\ forallb is_ascii (replace_char 43 32 s) = true.
Proof.
  unfold replace_char.
  induction 1 as [|b bs s Hb H37 H43 _ [IH1 IH2]|bs s _ [IH1 IH2]
                  |b h1 h2 bs s Hb Hh1 Hh2 _ [IH1 IH2]];
    cbn [List.map forallb].
  - auto.
  - destruct (N.eqb_spec b 43); [contradiction|].
    rewrite unquote_plain, IH1, IH2 by assumption.
    unfold is_ascii. known (b <? 0x80) true. auto.
  - rewrite N.eqb_refl, unquote_plain, IH1, IH2 by discriminate. auto.
  - destruct (hexval_char h1 _ Hh1) as [N1 A1].
    destruct (hexval_char h2 _ Hh2) as [N2 A2].
    change (37 =? 43) with false. cbn iota.
    destruct (N.eqb_spec h1 43); [contradiction|].
    destruct (N.eqb_spec h2 43); [contradiction|].
    rewrite (unquote_escape _ _ _ _ _ Hh1 Hh2), IH1, IH2, A1, A2.
    split; [|reflexivity]. f_equal. divmod.
Qed.

(** [unquote_plus] gives back the text whose UTF-8 bytes were encoded. *)
Lemma unquote_plus_encoded (key raw : str) (bs : list N) :
  forallb scalar key = true -> utf8_encode key = Ok bs -> url_encoded bs raw ->
  unquote_plus (PStr raw) = Ok key.
Proof.
  intros Hkey Hbs Henc. cbn [unquote_plus]. f_equal.
  destruct (encode_decode key Hkey) as (bs' & Hbs' & _ & Hdec).
  rewrite Hbs in Hbs'. injection Hbs' as <-.
  destruct (url_encoded_bytes bs raw Henc) as [H1 H2].
  rewrite unquote_ascii by exact H2. unfold decode_run. now rewrite H1.
Qed.

End UrlFacts.

(** ** Well-formed text *)

Module TextFacts.
Import Urllib UrlFacts Json JsonFacts.

Lemma str_ok_cons (c : N) (s : str) :
  c < 0x110000 -> (is_high_surrogate c = true -> head_not_low s) ->
  str_ok s = true -> str_ok (c :: s) = true.
Proof.
  intros Hc Hnext Hs. cbn [str_ok]. rewrite Hs, andb_true_r.
  apply andb_true_intro. split; [now apply N.ltb_lt|].
  unfold is_high_surrogate in Hnext.
  destruct ((0xd800 <=? c) && (c <=? 0xdbff)); [|reflexivity].
  specialize (Hnext eq_refl). destruct s as [|d s]; [reflexivity|].
  cbn [head_not_low] in Hnext. unfold is_low_surrogate in Hnext.
  now rewrite Hnext.
Qed.

Lemma scalar_plain (c : N) :
  scalar c = true ->
  c < 0x110000 /\ is_high_surrogate c = false /\ is_low_surrogate c = false.
Proof.
  unfold scalar, is_high_surrogate, is_low_surrogate. intros H.
  N_cases; try discriminate; repeat split; try reflexivity; lia.
Qed.

Lemma ascii_scalar (c : N) : is_ascii c = true -> scalar c = true.
Proof.
  unfold is_ascii, scalar. intros H. N_cases; try discriminate; try reflexivity; lia.
Qed.

Lemma ascii_scalars (s : str) : forallb is_ascii s = true -> forallb scalar s = true.
Proof.
  induction s as [|c s IH]; [reflexivity|]. cbn [forallb]. intros H.
  apply andb_prop in H as [H1 H2]. now rewrite (ascii_scalar c H1), IH.
Qed.

Lemma scalars_head (s : str) : forallb scalar s = true -> head_not_low s.
Proof.
  destruct s as [|c s]; [exact (fun _ => I)|]. cbn [forallb head_not_low].
  intros H. apply andb_prop in H as [H _]. now apply scalar_plain in H.
Qed.

Lemma str_ok_scalar_app (a b : str) :
  forallb scalar a = true -> str_ok b = true -> str_ok (a ++ b) = true.
Proof.
  induction a as [|c a IH]; [auto|]. cbn [forallb app]. intros H Hb.
  apply andb_prop in H as [Hc Ha]. destruct (scalar_plain c Hc) as (H1 & H2 & _).
  apply str_ok_cons; [assumption|congruence|auto].
Qed.

Lemma str_ok_scalars (s : str) : forallb scalar s = true -> str_ok s = true.
Proof.
  intros H. rewrite <- (app_nil_r s). now apply str_ok_scalar_app.
Qed.

Lemma str_ok_ascii (s : str) : forallb is_ascii s = true -> str_ok s = true.
Proof. intros H. now apply str_ok_scalars, ascii_scalars. Qed.

Lemma head_not_low_app (a b : str) :
  head_not_low a -> (a = [] -> head_not_low b) -> head_not_low (a ++ b).
Proof. destruct a as [|c a]; cbn; auto. Qed.

(** Text after text is text unless a high surrogate meets a low one. *)
Lemma str_ok_app (a b : str) :
  str_ok a = true -> str_ok b = true -> head_not_low b -> str_ok (a ++ b) = true.
Proof.
  induction a as [|c a IH]; [auto|]. intros Ha Hb Hhead. cbn [app].
  destruct (str_ok_head _ _ Ha) as [Hc Hnext].
  apply str_ok_cons; [assumption| |apply IH; eauto using str_ok_tail].
  intros Hh. apply head_not_low_app; [auto|]. intros _. exact Hhead.
Qed.

Lemma str_ok_prefix (a b : str) : str_ok (a ++ b) = true -> str_ok a = true.
Proof.
  induction a as [|c a IH]; [reflexivity|]. cbn [app]. intros H.
  destruct (str_ok_head _ _ H) as [Hc Hnext].
  apply str_ok_cons; [assumption| |apply IH; eauto using str_ok_tail].
  intros Hh. specialize (Hnext Hh). destruct a; [exact I|exact Hnext].
Qed.

Lemma str_ok_suffix (a b : str) : str_ok (a ++ b) = true -> str_ok b = true.
Proof.
  induction a as [|c a IH]; [auto|]. cbn [app]. intros H.
  apply IH. eauto using str_ok_tail.
Qed.

Lemma str_ok_replace_plus (s : str) :
  str_ok s = true -> str_ok (replace_char 43 32 s) = true.
Proof.
  unfold replace_char. induction s as [|c s IH]; [reflexivity|]. intros H.
  destruct (str_ok_head _ _ H) as [Hc Hnext]. cbn [List.map].
  destruct (N.eqb_spec c 43) as [->|Hne].
  - apply str_ok_cons; [reflexivity|discriminate|eauto using str_ok_tail].
  - apply str_ok_cons; [assumption| |eauto using str_ok_tail].
    intros Hh. specialize (Hnext Hh). destruct s as [|d s]; [exact I|].
    cbn [List.map head_not_low] in *.
    destruct (N.eqb_spec d 43) as [->|_]; [reflexivity|exact Hnext].
Qed.

(** *** What [utf8_decode] gives *)

Lemma two_scalar (b1 b2 : N) :
  (0xC2 <=? b1) && (b1 <=? 0xDF) = true -> is_cont b2 = true ->
  scalar ((b1 - 0xC0) * 64 + (b2 - 0x80)) = true.
Proof.
  unfold is_cont, scalar. intros H1 H2.
  apply andb_prop in H1 as [A1 A2]. apply andb_prop in H2 as [B1 B2].
  apply N.leb_le in A1, A2, B1, B2.
  known ((b1 - 0xC0) * 64 + (b2 - 0x80) <? 0xD800) true. reflexivity.
Qed.

Lemma second_ok_range (b1 b2 : N) :
  second_ok b1 b2 = true ->
  0x80 <= b2 <= 0xBF
  /\ (b1 = 0xED -> b2 <= 0x9F) /\ (b1 = 0xF4 -> b2 <= 0x8F)
  /\ (b1 = 0xF0 -> 0x90 <= b2).
Proof.
  unfold second_ok, is_cont.
  destruct (N.eqb_spec b1 0xE0) as [->|H1].
  { intros H. apply andb_prop in H as [A B]. apply N.leb_le in A, B.
    repeat split; try lia; discriminate. }
  destruct (N.eqb_spec b1 0xED) as [->|H2].
  { intros H. apply andb_prop in H as [A B]. apply N.leb_le in A, B.
    repeat split; try lia; discriminate. }
  destruct (N.eqb_spec b1 0xF0) as [->|H3].
  { intros H. apply andb_prop in H as [A B]. apply N.leb_le in A, B.
    repeat split; try lia; discriminate. }
  destruct (N.eqb_spec b1 0xF4) as [->|H4].
  { intros H. apply andb_prop in H as [A B]. apply N.leb_le in A, B.
    repeat split; try lia; discriminate. }
  intros H. apply andb_prop in H as [A B]. apply N.leb_le in A, B.
  repeat split; try lia; contradiction.
Qed.

Lemma three_scalar (b1 b2 b3 : N) :
  (0xE0 <=? b1) && (b1 <=? 0xEF) = true -> second_ok b1 b2 = true ->
  is_cont b3 = true ->
  scalar (((b1 - 0xE0) * 64 + (b2 - 0x80)) * 64 + (b3 - 0x80)) = true.
Proof.
  intros H1 H2 H3. apply andb_prop in H1 as [A1 A2]. apply N.leb_le in A1, A2.
  destruct (second_ok_range b1 b2 H2) as (R & Red & _ & _).
  unfold is_cont in H3. apply andb_prop in H3 as [B1 B2]. apply N.leb_le in B1, B2.
  unfold scalar.
  destruct (N.lt_ge_cases b1 0xED) as [Hlow|Hhigh].
  - known (((b1 - 0xE0) * 64 + (b2 - 0x80)) * 64 + (b3 - 0x80) <? 0xD800) true.
    reflexivity.
  - destruct (N.eq_dec b1 0xED) as [->|Hne].
    + specialize (Red eq_refl).
      known (((0xED - 0xE0) * 64 + (b2 - 0x80)) * 64 + (b3 - 0x80) <? 0xD800) true.
      reflexivity.
    + known (0xDFFF <? ((b1 - 0xE0) * 64 + (b2 - 0x80)) * 64 + (b3 - 0x80)) true.
      known (((b1 - 0xE0) * 64 + (b2 - 0x80)) * 64 + (b3 - 0x80) <? 0x110000) true.
      apply orb_true_r.
Qed.

Lemma four_scalar (b1 b2 b3 b4 : N) :
  (0xF0 <=? b1) && (b1 <=? 0xF4) = true -> second_ok b1 b2 = true ->
  is_cont b3 = true -> is_cont b4 = true ->
  scalar ((((b1 - 0xF0) * 64 + (b2 - 0x80)) * 64 + (b3 - 0x80)) * 64 + (b4 - 0x80))
  = true.
Proof.
  intros H1 H2 H3 H4. apply andb_prop in H1 as [A1 A2]. apply N.leb_le in A1, A2.
  destruct (second_ok_range b1 b2 H2) as (R & _ & Rf4 & Rf0).
  unfold is_cont in H3, H4.
  apply andb_prop in H3 as [B1 B2]. apply N.leb_le in B1, B2.
  apply andb_prop in H4 as [C1 C2]. apply N.leb_le in C1, C2.
  unfold scalar.
  assert (Hb2 : b1 = 0xF4 \/ b1 < 0xF4) by lia.
  assert (Hup : (((b1 - 0xF0) * 64 + (b2 - 0x80)) * 64 + (b3 - 0x80)) * 64 + (b4 - 0x80)
                < 0x110000).
  { destruct Hb2 as [->|Hlt]; [specialize (Rf4 eq_refl)|]; lia. }
  assert (Hlow : 0xDFFF
                 < (((b1 - 0xF0) * 64 + (b2 - 0x80)) * 64 + (b3 - 0x80)) * 64
                   + (b4 - 0x80)).
  { destruct (N.eq_dec b1 0xF0) as [->|Hne]; [specialize (Rf0 eq_refl)|]; lia. }
  apply N.ltb_lt in Hup, Hlow. rewrite Hup, Hlow. apply orb_true_r.
Qed.

Lemma utf8_decode_scalars (n : nat) : forall bs,
  (List.length bs <= n)%nat -> forallb scalar (utf8_decode bs) = true.
Proof.
  induction n as [|n IH]; intros bs Hlen.
  { destruct bs; [reflexivity|cbn in Hlen; lia]. }
  destruct bs as [|b1 r1]; [reflexivity|]. cbn [List.length] in Hlen.
  assert (I1 : forallb scalar (utf8_decode r1) = true) by (apply IH; lia).
  cbn [utf8_decode].
  destruct (b1 <? 0x80) eqn:E0.
  { cbn [forallb]. rewrite I1, andb_true_r. now apply ascii_scalar. }
  destruct ((0xC2 <=? b1) && (b1 <=? 0xDF)) eqn:E2.
  { destruct r1 as [|b2 r2]; [reflexivity|]. cbn [List.length] in Hlen.
    destruct (is_cont b2) eqn:C2; cbn [forallb].
    - rewrite (two_scalar b1 b2 E2 C2). apply IH. lia.
    - exact I1. }
  destruct ((0xE0 <=? b1) && (b1 <=? 0xEF)) eqn:E3.
  { destruct r1 as [|b2 r2]; [reflexivity|]. cbn [List.length] in Hlen.
    destruct (second_ok b1 b2) eqn:S2; [|exact I1].
    destruct r2 as [|b3 r3]; [reflexivity|]. cbn [List.length] in Hlen.
    destruct (is_cont b3) eqn:C3; cbn [forallb].
    - rewrite (three_scalar b1 b2 b3 E3 S2 C3). apply IH. lia.
    - apply IH. cbn [List.length]. lia. }
  destruct ((0xF0 <=? b1) && (b1 <=? 0xF4)) eqn:E4.
  { destruct r1 as [|b2 r2]; [reflexivity|]. cbn [List.length] in Hlen.
    destruct (second_ok b1 b2) eqn:S2; [|exact I1].
    destruct r2 as [|b3 r3]; [reflexivity|]. cbn [List.length] in Hlen.
    destruct (is_cont b3) eqn:C3; cbn [forallb].
    - destruct r3 as [|b4 r4]; [reflexivity|]. cbn [List.length] in Hlen.
      destruct (is_cont b4) eqn:C4; cbn [forallb].
      + rewrite (four_scalar b1 b2 b3 b4 E4 S2 C3 C4). apply IH. lia.
      + apply IH. cbn [List.length]. lia.
    - apply IH. cbn [List.length]. lia. }
  exact I1.
Qed.

Lemma decode_run_scalars (run : str) : forallb scalar (decode_run run) = true.
Proof. unfold decode_run. now apply (utf8_decode_scalars _ _ (le_n _)). Qed.

Lemma utf8_decode_nonempty (bs : list N) : bs <> [] -> utf8_decode bs <> [].
Proof.
  destruct bs as [|b1 r1]; [congruence|]. intros _. cbn [utf8_decode].
  destruct (b1 <? 0x80); [discriminate|].
  destruct ((0xC2 <=? b1) && (b1 <=? 0xDF)).
  { destruct r1 as [|b2 r2]; [discriminate|]. destruct (is_cont b2); discriminate. }
  destruct ((0xE0 <=? b1) && (b1 <=? 0xEF)).
  { destruct r1 as [|b2 r2]; [discriminate|].
    destruct (second_ok b1 b2); [|discriminate].
    destruct r2 as [|b3 r3]; [discriminate|]. destruct (is_cont b3); discriminate. }
  destruct ((0xF0 <=? b1) && (b1 <=? 0xF4)).
  { destruct r1 as [|b2 r2]; [discriminate|].
    destruct (second_ok b1 b2); [|discriminate].
    destruct r2 as [|b3 r3]; [discriminate|].
    destruct (is_cont b3); [|discriminate].
    destruct r3 as [|b4 r4]; [discriminate|]. destruct (is_cont b4); discriminate. }
  discriminate.
Qed.

Lemma unquote_to_bytes_nonempty (s : str) : s <> [] -> unquote_to_bytes s <> [].
Proof.
  destruct s as [|c rest]; [congruence|]. intros _. cbn [unquote_to_bytes].
  destruct (c =? 37); [|discriminate].
  destruct rest as [|h1 [|h2 rest']]; try discriminate.
  destruct (hexval h1), (hexval h2); discriminate.
Qed.

Lemma decode_run_head (run : str) (rest : str) :
  run <> [] -> head_not_low (decode_run run ++ rest).
Proof.
  intros Hrun. apply head_not_low_app.
  - apply scalars_head, decode_run_scalars.
  - intros H. exfalso. revert H. unfold decode_run.
    now apply utf8_decode_nonempty, unquote_to_bytes_nonempty.
Qed.

(** *** [unquote] keeps text well-formed *)

Lemma unquote_runs_ok (s : str) : forall run,
  str_ok s = true ->
  str_ok (unquote_runs run s) = true
  /\ (run <> [] \/ head_not_low s -> head_not_low (unquote_runs run s)).
Proof.
  induction s as [|c rest IH]; intros run Hs; cbn [unquote_runs].
  - split; [apply str_ok_scalars, decode_run_scalars|].
    intros _. apply scalars_head, decode_run_scalars.
  - destruct (c <? 0x80) eqn:Ec.
    + destruct (IH (c :: run) (str_ok_tail _ _ Hs)) as [H1 H2].
      split; [exact H1|]. intros _. apply H2. left. discriminate.
    + destruct (IH [] (str_ok_tail _ _ Hs)) as [H1 H2].
      destruct (str_ok_head _ _ Hs) as [Hc Hnext].
      split.
      * apply str_ok_scalar_app; [apply decode_run_scalars|].
        apply str_ok_cons; [assumption| |assumption].
        intros Hh. apply H2. right. auto.
      * intros Hhead. destruct run as [|r run].
        -- destruct Hhead as [Hhead|Hhead]; [congruence|]. exact Hhead.
        -- apply decode_run_head. intros H. apply (f_equal (@List.length N)) in H.
           rewrite length_rev in H. discriminate.
Qed.

Lemma unquote_ok (s : str) : str_ok s = true -> str_ok (unquote s) = true.
Proof.
  intros Hs. unfold unquote. destruct (negb (contains 37 s)); [exact Hs|].
  now apply unquote_runs_ok.
Qed.

Lemma unquote_plus_ok (raw object_key : str) :
  str_ok raw = true -> unquote_plus (PStr raw) = Ok object_key ->
  str_ok object_key = true.
Proof.
  intros Hraw H. cbn [unquote_plus] in H. injection H as <-.
  now apply unquote_ok, str_ok_replace_plus.
Qed.

(** *** [strip] keeps text well-formed *)

Lemma lstrip_suffix (c : N) (s : str) : exists p, s = p ++ Os.lstrip c s.
Proof.
  induction s as [|x s (p & IH)]; [exists []; reflexivity|].
  cbn [Os.lstrip]. destruct (x =? c).
  - exists (x :: p). cbn [app]. now f_equal.
  - exists []. reflexivity.
Qed.

Lemma strip_ok (c : N) (s : str) : str_ok s = true -> str_ok (Os.strip c s) = true.
Proof.
  intros Hs. unfold Os.strip.
  destruct (lstrip_suffix c s) as (p & Hp).
  assert (H1 : str_ok (Os.lstrip c s) = true).
  { rewrite Hp in Hs. now apply str_ok_suffix in Hs. }
  destruct (lstrip_suffix c (rev (Os.lstrip c s))) as (q & Hq).
  apply (f_equal (@rev N)) in Hq. rewrite rev_involutive, rev_app_distr in Hq.
  rewrite Hq in H1. now apply str_ok_prefix in H1.
Qed.

End TextFacts.

(** ** What the scanner gives *)

Module ScanFacts.
Import Json JsonFacts UrlFacts TextFacts.

(** [r] is what is left of [s] after a part of it was read. *)
Definition tail_of (r s : str) : Prop := exists p, s = p ++ r.

(** ... after a part that is not empty. *)
Definition proper (r s : str) : Prop := exists c p, s = c :: p ++ r.

Lemma tail_of_refl (s : str) : tail_of s s.
Proof. now exists []. Qed.

Lemma proper_tail (r s : str) : proper r s -> tail_of r s.
Proof. intros (c & p & ->). now exists (c :: p). Qed.

Lemma tail_of_trans (r s t : str) : tail_of r s -> tail_of s t -> tail_of r t.
Proof. intros (p & ->) (q & ->). exists (q ++ p). now rewrite app_assoc. Qed.

Lemma proper_after (r s t : str) : proper r s -> tail_of s t -> proper r t.
Proof.
  intros (c & p & ->) (q & ->). destruct q as [|d q].
  - now exists c, p.
  - exists d, (q ++ c :: p). cbn [app]. now rewrite <- app_assoc.
Qed.

Lemma proper_before (r s t : str) : tail_of r s -> proper s t -> proper r t.
Proof.
  intros (p & ->) (c & q & ->). exists c, (q ++ p). now rewrite app_assoc.
Qed.

Lemma proper_cons (c : N) (r s : str) : tail_of r s -> proper r (c :: s).
Proof. intros (p & ->). now exists c, p. Qed.

Lemma proper_length (r s : str) : proper r s -> (List.length r < List.length s)%nat.
Proof. intros (c & p & ->). cbn [List.length]. rewrite length_app. lia. Qed.

Lemma tail_of_length (r s : str) : tail_of r s -> (List.length r <= List.length s)%nat.
Proof. intros (p & ->). rewrite length_app. lia. Qed.

Lemma tail_of_scalar (r s : str) :
  tail_of r s -> forallb scalar s = true -> forallb scalar r = true.
Proof. intros (p & ->) H. rewrite forallb_app in H. now apply andb_prop in H. Qed.

Lemma skip_ws_tail (s : str) : tail_of (skip_ws s) s.
Proof.
  induction s as [|c s IH]; [apply tail_of_refl|]. cbn [skip_ws].
  destruct (is_ws c); [|apply tail_of_refl].
  apply proper_tail, proper_cons, IH.
Qed.

Lemma tl_proper (c : N) (s : str) : head_is c s = true -> proper (tl s) s.
Proof.
  destruct s as [|x s]; [discriminate|]. intros _. apply proper_cons, tail_of_refl.
Qed.

Lemma strip_prefix_tail (p s r : str) : strip_prefix p s = Some r -> s = p ++ r.
Proof.
  revert s. induction p as [|x p IH]; intros s; cbn [strip_prefix].
  - intros H. now injection H as ->.
  - destruct s as [|y s]; [discriminate|].
    destruct (N.eqb_spec x y) as [->|]; [|discriminate].
    intros H. cbn [app]. f_equal. now apply IH.
Qed.

Lemma span_digits_tail (s : str) : tail_of (snd (span_digits s)) s.
Proof.
  induction s as [|c s IH]; [apply tail_of_refl|]. cbn [span_digits].
  destruct (is_digit c); [|apply tail_of_refl].
  destruct (span_digits s) as [ds r]. cbn [snd] in *.
  apply proper_tail, proper_cons, IH.
Qed.

Lemma match_integer_proper (s r : str) (n : N) :
  match_integer s = Ok (n, r) -> proper r s.
Proof.
  unfold match_integer. destruct s as [|c rest]; [discriminate|].
  destruct (c =? 48).
  - intros H. injection H as _ <-. apply proper_cons, tail_of_refl.
  - destruct (is_digit c); [|discriminate].
    pose proof (span_digits_tail rest) as Ht.
    destruct (span_digits rest) as [ds r']. intros H. injection H as _ <-.
    now apply proper_cons.
Qed.

Lemma match_number_proper (s r : str) (v : py) :
  match_number s = Ok (v, r) -> proper r s /\ py_ok v = true.
Proof.
  unfold match_number.
  assert (Hplain : (n_r <- match_integer s ;;
                    (let '(n, r) := n_r in
                     if float_follows r then Raise Unmodelled
                     else Ok (PInt (Z.of_N n), r))) = Ok (v, r) ->
                   proper r s /\ py_ok v = true).
  { destruct (match_integer s) as [[n r']|e] eqn:E; [|discriminate]. cbn [bind].
    destruct (float_follows r'); [discriminate|]. intros H. injection H as <- <-.
    split; [now apply match_integer_proper in E|reflexivity]. }
  destruct s as [|c rest]; [exact Hplain|].
  destruct (N.eq_dec c 45) as [->|Hne].
  - destruct (match_integer rest) as [[n r']|e] eqn:E; [|discriminate]. cbn [bind].
    destruct (float_follows r'); [discriminate|]. intros H. injection H as <- <-.
    split; [|reflexivity]. apply match_integer_proper in E.
    apply proper_tail in E. now apply proper_cons.
  - revert Hplain. destruct c as [|p]; [auto|].
    repeat (destruct p as [p|p|]; auto); congruence.
Qed.

(** *** Strings *)

Lemma cons_chr_ok (x : N) (res : result (str * str)) (k r : str) :
  cons_chr x res = Ok (k, r) -> exists k', k = x :: k' /\ res = Ok (k', r).
Proof.
  unfold cons_chr. destruct res as [[k' r']|e]; [|discriminate]. cbn [bind].
  intros H. injection H as <- <-. eauto.
Qed.

Lemma hexval_bound (c d : N) : hexval c = Some d -> d < 16.
Proof.
  unfold hexval. intros H. N_cases; try discriminate; injection H as <-; lia.
Qed.

Lemma hex4_bound (a b c d n : N) : hex4 a b c d = Some n -> n < 65536.
Proof.
  unfold hex4.
  destruct (hexval a) as [x|] eqn:Ea; [|discriminate].
  destruct (hexval b) as [y|] eqn:Eb; [|discriminate].
  destruct (hexval c) as [z|] eqn:Ec; [|discriminate].
  destruct (hexval d) as [w|] eqn:Ed; [|discriminate].
  apply hexval_bound in Ea, Eb, Ec, Ed. intros H. injection H as <-. lia.
Qed.

Lemma simple_escape_ascii (e x : N) : simple_escape e = Some x -> x < 0x80.
Proof.
  unfold simple_escape. intros H.
  repeat match type of H with
         | (if ?b then _ else _) = _ => destruct b; [injection H as <-; lia|]
         end.
  discriminate.
Qed.

Lemma join_surrogates_range (hi lo : N) :
  is_high_surrogate hi = true -> is_low_surrogate lo = true ->
  0x10000 <= join_surrogates hi lo < 0x110000.
Proof.
  unfold is_high_surrogate, is_low_surrogate, join_surrogates. intros H1 H2.
  apply andb_prop in H1 as [A1 A2]. apply andb_prop in H2 as [B1 B2].
  apply N.leb_le in A1, A2, B1, B2.
  rewrite (lor_shiftl_low (hi - 0xd800) (lo - 0xdc00) 10)
    by (change (2 ^ 10) with 1024; lia).
  change (2 ^ 10) with 1024. lia.
Qed.

Lemma plain_char (c : N) (s : str) :
  c < 0x110000 -> is_high_surrogate c = false -> str_ok s = true ->
  str_ok (c :: s) = true.
Proof. intros Hc Hh Hs. apply str_ok_cons; [assumption|congruence|assumption]. Qed.

Lemma above_bmp (c : N) :
  0x10000 <= c -> is_high_surrogate c = false /\ is_low_surrogate c = false.
Proof.
  unfold is_high_surrogate, is_low_surrogate. intros H.
  N_cases; try (split; reflexivity); lia.
Qed.

Lemma below_d800 (c : N) :
  c < 0xd800 -> is_high_surrogate c = false /\ is_low_surrogate c = false.
Proof.
  unfold is_high_surrogate, is_low_surrogate. intros H.
  N_cases; try (split; reflexivity); lia.
Qed.

(** The first character of a scanned string is a low surrogate only when
    the text starts with the escape of one. *)
Lemma scan_head (s k r : str) :
  scanstring s = Ok (k, r) -> forallb scalar s = true ->
  low_escape_ahead s = false -> head_not_low k.
Proof.
  destruct s as [|c rest]; [discriminate|]. cbn [scanstring forallb].
  intros H Hs Hahead. apply andb_prop in Hs as [Hc Hrest].
  destruct (c =? 34). { injection H as <- _. exact I. }
  destruct (N.eqb_spec c 92) as [->|Hc92].
  - destruct rest as [|e rest1]; [discriminate|].
    destruct (N.eqb_spec e 117) as [->|He].
    + destruct rest1 as [|h1 [|h2 [|h3 [|h4 rest2]]]]; try discriminate.
      destruct (hex4 h1 h2 h3 h4) as [uni|] eqn:Eh; [|discriminate].
      assert (Hlow : is_low_surrogate uni = false).
      { cbn [low_escape_ahead] in Hahead. rewrite Eh in Hahead. exact Hahead. }
      assert (Huni : forall res, cons_chr uni res = Ok (k, r) -> head_not_low k).
      { intros res Hres. apply cons_chr_ok in Hres as (k' & -> & _). exact Hlow. }
      destruct rest2 as [|b [|u [|g1 [|g2 [|g3 [|g4 rest3]]]]]]; eauto.
      destruct (is_high_surrogate uni && (b =? 92) && (u =? 117)) eqn:Ecase; eauto.
      destruct (hex4 g1 g2 g3 g4) as [uni2|]; [|discriminate].
      destruct (is_low_surrogate uni2) eqn:El; eauto.
      apply cons_chr_ok in H as (k' & -> & _). cbn [head_not_low].
      apply andb_prop in Ecase as [Ecase _]. apply andb_prop in Ecase as [Eh1 _].
      now apply above_bmp, (join_surrogates_range uni uni2).
    + destruct (simple_escape e) as [x|] eqn:Ex; [|discriminate].
      apply cons_chr_ok in H as (k' & -> & _). cbn [head_not_low].
      apply simple_escape_ascii in Ex. apply below_d800. lia.
  - destruct (c <? 32); [discriminate|].
    apply cons_chr_ok in H as (k' & -> & _). cbn [head_not_low].
    now apply scalar_plain in Hc.
Qed.

Lemma scanstring_spec (n : nat) : forall s k r,
  (List.length s <= n)%nat -> scanstring s = Ok (k, r) ->
  proper r s /\ (forallb scalar s = true -> str_ok k = true).
Proof.
  induction n as [|n IH]; intros s k r Hlen H.
  { destruct s; [discriminate|cbn in Hlen; lia]. }
  destruct s as [|c rest]; [discriminate|]. cbn [List.length] in Hlen.
  cbn [scanstring] in H.
  destruct (c =? 34).
  { injection H as <- <-. split; [apply proper_cons, tail_of_refl|reflexivity]. }
  (* a character [x] followed by the string scanned from [t] *)
  assert (Hstep : forall x t,
            (List.length t <= n)%nat -> tail_of t rest ->
            cons_chr x (scanstring t) = Ok (k, r) ->
            x < 0x110000 ->
            (forallb scalar (c :: rest) = true ->
             is_high_surrogate x = true -> low_escape_ahead t = false) ->
            proper r (c :: rest)
            /\ (forallb scalar (c :: rest) = true -> str_ok k = true)).
  { intros x t Ht Htail Hres Hx Hhigh.
    apply cons_chr_ok in Hres as (k' & -> & Hres).
    destruct (IH t k' r Ht Hres) as [Hp Hok].
    split; [apply proper_tail in Hp; apply proper_cons; eapply tail_of_trans; eauto|].
    intros Hs.
    assert (Hst : forallb scalar t = true).
    { apply (tail_of_scalar t rest Htail). cbn [forallb] in Hs.
      now apply andb_prop in Hs as [_ Hs]. }
    apply str_ok_cons; [assumption| |auto].
    intros Hh. apply (scan_head t k' r Hres Hst). auto. }
  destruct (N.eqb_spec c 92) as [->|Hc92].
  - destruct rest as [|e rest1]; [discriminate|]. cbn [List.length] in Hlen.
    destruct (N.eqb_spec e 117) as [->|He].
    + destruct rest1 as [|h1 [|h2 [|h3 [|h4 rest2]]]]; try discriminate.
      cbn [List.length] in Hlen.
      destruct (hex4 h1 h2 h3 h4) as [uni|] eqn:Eh; [|discriminate].
      pose proof (hex4_bound _ _ _ _ _ Eh) as Huni.
      assert (Htail2 : tail_of rest2 (117 :: h1 :: h2 :: h3 :: h4 :: rest2))
        by (exists [117; h1; h2; h3; h4]; reflexivity).
      destruct rest2 as [|b [|u [|g1 [|g2 [|g3 [|g4 rest3]]]]]];
        try (match type of H with
             | cons_chr _ (scanstring ?t) = _ =>
                 apply (Hstep uni t ltac:(cbn [List.length] in *; lia) Htail2 H
                          ltac:(lia));
                 intros _ _; reflexivity
             end).
      cbn [List.length] in Hlen.
      destruct (is_high_surrogate uni && (b =? 92) && (u =? 117)) eqn:Ecase.
      * destruct (hex4 g1 g2 g3 g4) as [uni2|] eqn:Eg; [|discriminate].
        apply andb_prop in Ecase as [Ecase Eu]. apply andb_prop in Ecase as [Ehigh Eb].
        destruct (is_low_surrogate uni2) eqn:El.
        -- pose proof (join_surrogates_range uni uni2 Ehigh El) as Hj.
           apply (Hstep (join_surrogates uni uni2) rest3
                    ltac:(lia)
                    ltac:(exists [117; h1; h2; h3; h4; b; u; g1; g2; g3; g4];
                          reflexivity) H ltac:(lia)).
           intros _ Hh. destruct (above_bmp (join_surrogates uni uni2)) as [Hn _];
             [lia|congruence].
        -- apply (Hstep uni (b :: u :: g1 :: g2 :: g3 :: g4 :: rest3)
                    ltac:(cbn [List.length]; lia) Htail2 H ltac:(lia)).
           intros _ _. cbn [low_escape_ahead]. rewrite Eg, El. apply andb_false_r.
      * apply (Hstep uni (b :: u :: g1 :: g2 :: g3 :: g4 :: rest3)
                 ltac:(cbn [List.length]; lia) Htail2 H ltac:(lia)).
        intros _ Hh. rewrite Hh in Ecase. cbn [andb] in Ecase.
        cbn [low_escape_ahead]. now rewrite Ecase.
    + destruct (simple_escape e) as [x|] eqn:Ex; [|discriminate].
      apply simple_escape_ascii in Ex.
      apply (Hstep x rest1 ltac:(lia) ltac:(exists [e]; reflexivity) H ltac:(lia)).
      intros _ Hh. destruct (below_d800 x) as [Hn _]; [lia|congruence].
  - destruct (c <? 32); [discriminate|].
    assert (Hc : forallb scalar (c :: rest) = true -> scalar c = true).
    { cbn [forallb]. intros Hs. now apply andb_prop in Hs. }
    destruct (scalar c) eqn:Esc.
    + destruct (scalar_plain c Esc) as (Hc1 & Hc2 & _).
      apply (Hstep c rest ltac:(lia) (tail_of_refl _) H Hc1).
      intros _ Hh. congruence.
    + apply cons_chr_ok in H as (k' & -> & Hres).
      destruct (IH rest k' r ltac:(lia) Hres) as [Hp _].
      split; [apply proper_tail in Hp; now apply proper_cons|].
      intros Hs. apply Hc in Hs. discriminate.
Qed.

Lemma scanstring_ok (s k r : str) :
  scanstring s = Ok (k, r) ->
  proper r s /\ (forallb scalar s = true -> str_ok k = true).
Proof. apply (scanstring_spec (List.length s)). apply le_n. Qed.

(** *** Dicts built from pairs *)

Definition pair_ok (kv : str * py) : bool := str_ok (fst kv) && py_ok (snd kv).

Lemma existsb_dict_set (x : str) (items : list (str * py)) (k : str) (v : py) :
  existsb (str_eqb x) (List.map fst (dict_set items k v)) = true ->
  existsb (str_eqb x) (List.map fst items) = true \/ str_eqb x k = true.
Proof.
  induction items as [|[k' v'] items IH]; cbn [dict_set List.map fst existsb].
  - rewrite orb_false_r. auto.
  - destruct (str_eqb k k'); cbn [List.map fst existsb]; [auto|].
    intros H. apply orb_prop in H as [H|H]; [left; now rewrite H|].
    destruct (IH H) as [H'|H']; [left; rewrite H'; apply orb_true_r|now right].
Qed.

Lemma dict_set_ok (items : list (str * py)) (k : str) (v : py) :
  py_ok (PDict items) = true -> str_ok k = true -> py_ok v = true ->
  py_ok (PDict (dict_set items k v)) = true.
Proof.
  intros Hd Hk Hv. induction items as [|[k' v'] items IH].
  - cbn. now rewrite Hk, Hv.
  - cbn [py_ok List.map fst snd keys_distinct forallb] in Hd.
    apply andb_prop in Hd as [Hd1 Hd2]. apply andb_prop in Hd1 as [Hn Hdist].
    apply andb_prop in Hd2 as [Hkv Hall]. apply andb_prop in Hkv as [Hk' Hv'].
    cbn [dict_set]. destruct (str_eqb k k') eqn:E.
    + cbn [py_ok List.map fst snd keys_distinct forallb].
      now rewrite Hn, Hdist, Hk', Hv, Hall.
    + assert (IH' : py_ok (PDict (dict_set items k v)) = true).
      { apply IH. cbn [py_ok]. now rewrite Hdist, Hall. }
      cbn [py_ok] in IH'. apply andb_prop in IH' as [I1 I2].
      cbn [py_ok List.map fst snd keys_distinct forallb].
      rewrite I1, I2, Hk', Hv'.
      destruct (existsb (str_eqb k') (List.map fst (dict_set items k v))) eqn:Ex;
        [|reflexivity].
      apply existsb_dict_set in Ex as [Ex|Ex].
      * rewrite Ex in Hn. discriminate.
      * rewrite str_eqb_sym in Ex. congruence.
Qed.

Lemma dict_of_pairs_ok (pairs : list (str * py)) :
  forallb pair_ok pairs = true -> py_ok (PDict (dict_of_pairs pairs)) = true.
Proof.
  unfold dict_of_pairs.
  assert (H : forall acc, py_ok (PDict acc) = true -> forallb pair_ok pairs = true ->
              py_ok (PDict (fold_left (fun d kv => dict_set d (fst kv) (snd kv))
                              pairs acc)) = true).
  { induction pairs as [|[k v] pairs IH]; intros acc Hacc Hall; [exact Hacc|].
    cbn [forallb] in Hall. apply andb_prop in Hall as [Hkv Hall].
    apply andb_prop in Hkv as [Hk Hv]. cbn [fold_left fst snd].
    apply IH; [now apply dict_set_ok|exact Hall]. }
  apply H. reflexivity.
Qed.

(** *** Values *)

Ltac chain :=
  repeat first
    [ assumption
    | apply tail_of_refl
    | match goal with
      | H : tail_of ?r ?s |- tail_of ?r _ => apply (tail_of_trans r s); [exact H|]
      end ].

Lemma prefix_proper (c : N) (p s r : str) :
  strip_prefix (c :: p) s = Some r -> proper r s.
Proof. intros H. apply strip_prefix_tail in H. now exists c, p. Qed.

Definition scan_spec (fuel : nat) : Prop :=
  (forall s v r, scan_once fuel s = Ok (v, r) ->
     proper r s /\ (forallb scalar s = true -> py_ok v = true))
  /\ (forall s pairs r, parse_members fuel s = Ok (pairs, r) ->
     proper r s /\ (forallb scalar s = true -> forallb pair_ok pairs = true))
  /\ (forall s vs r, parse_elements fuel s = Ok (vs, r) ->
     proper r s /\ (forallb scalar s = true -> forallb py_ok vs = true)).

Lemma scan_once_step (fuel : nat) (s : str) (v : py) (r : str) :
  scan_spec fuel -> scan_once (S fuel) s = Ok (v, r) ->
  proper r s /\ (forallb scalar s = true -> py_ok v = true).
Proof.
  intros (_ & IHm & IHe). cbn [scan_once].
  destruct s as [|c rest]; [discriminate|].
  assert (Hrest : forallb scalar (c :: rest) = true -> forallb scalar rest = true).
  { cbn [forallb]. intros Hs. now apply andb_prop in Hs. }
  pose proof (skip_ws_tail rest) as Hws.
  destruct (c =? 34).
  { destruct (scanstring rest) as [[k r']|e] eqn:Es; [|discriminate]. cbn [bind].
    intros H. injection H as <- <-. apply scanstring_ok in Es as [Hp Hok].
    split; [apply proper_cons, proper_tail, Hp|]. cbn [py_ok]. auto. }
  destruct (c =? 123).
  { destruct (head_is 125 (skip_ws rest)) eqn:Eh.
    - intros H. injection H as <- <-. split; [|reflexivity].
      apply tl_proper, proper_tail in Eh. apply proper_cons. chain.
    - destruct (parse_members fuel (skip_ws rest)) as [[pairs r']|e] eqn:Em;
        [|discriminate].
      cbn [bind]. intros H. injection H as <- <-. apply IHm in Em as [Hp Hok].
      apply proper_tail in Hp. split; [apply proper_cons; chain|].
      intros Hs. apply dict_of_pairs_ok, Hok.
      apply (tail_of_scalar _ rest Hws). auto. }
  destruct (c =? 91).
  { destruct (head_is 93 (skip_ws rest)) eqn:Eh.
    - intros H. injection H as <- <-. split; [|reflexivity].
      apply tl_proper, proper_tail in Eh. apply proper_cons. chain.
    - destruct (parse_elements fuel (skip_ws rest)) as [[vs r']|e] eqn:Em;
        [|discriminate].
      cbn [bind]. intros H. injection H as <- <-. apply IHe in Em as [Hp Hok].
      apply proper_tail in Hp. split; [apply proper_cons; chain|].
      intros Hs. cbn [py_ok]. apply Hok.
      apply (tail_of_scalar _ rest Hws). auto. }
  repeat match goal with
         | |- match strip_prefix ?p ?t with _ => _ end = _ -> _ =>
             let E := fresh "E" in
             destruct (strip_prefix p t) eqn:E;
             [first [discriminate
                    | intros H; injection H as <- <-;
                      split; [exact (prefix_proper _ _ _ _ E)|reflexivity]]|]
         end.
  intros H. apply match_number_proper in H as [Hp Hok]. auto.
Qed.

Lemma parse_members_step (fuel : nat) (s : str) (pairs : list (str * py)) (r : str) :
  scan_spec fuel -> parse_members (S fuel) s = Ok (pairs, r) ->
  proper r s /\ (forallb scalar s = true -> forallb pair_ok pairs = true).
Proof.
  intros (IHs & IHm & _). cbn [parse_members].
  destruct (head_is 34 s) eqn:Eq; [|discriminate].
  pose proof (tl_proper 34 s Eq) as T0.
  destruct (scanstring (tl s)) as [[k r0]|e] eqn:Es; [|discriminate]. cbn [bind].
  apply scanstring_ok in Es as [T1 Hk]. apply proper_tail in T1.
  pose proof (skip_ws_tail r0) as T2.
  destruct (head_is 58 (skip_ws r0)) eqn:E58; [|discriminate].
  pose proof (proper_tail _ _ (tl_proper 58 _ E58)) as T3.
  pose proof (skip_ws_tail (tl (skip_ws r0))) as T4.
  destruct (scan_once fuel (skip_ws (tl (skip_ws r0)))) as [[v r2]|e] eqn:Ev;
    [|discriminate].
  cbn [bind]. apply IHs in Ev as [T5 Hv]. apply proper_tail in T5.
  pose proof (skip_ws_tail r2) as T6.
  assert (Hpair : forallb scalar s = true -> pair_ok (k, v) = true).
  { intros Hs. unfold pair_ok. cbn [fst snd].
    assert (Hs1 : forallb scalar (tl s) = true)
      by (apply (tail_of_scalar _ s); [now apply proper_tail|exact Hs]).
    rewrite (Hk Hs1). apply Hv. apply (tail_of_scalar _ (tl s)); [chain|exact Hs1]. }
  destruct (head_is 125 (skip_ws r2)) eqn:E125.
  { intros H. injection H as <- <-.
    pose proof (proper_tail _ _ (tl_proper 125 _ E125)) as T7.
    split; [apply (proper_before _ (tl s)); [chain|exact T0]|].
    intros Hs. cbn [forallb]. now rewrite (Hpair Hs). }
  destruct (head_is 44 (skip_ws r2)) eqn:E44; [|discriminate].
  pose proof (proper_tail _ _ (tl_proper 44 _ E44)) as T7.
  pose proof (skip_ws_tail (tl (skip_ws r2))) as T8.
  destruct (parse_members fuel (skip_ws (tl (skip_ws r2)))) as [[more r4]|e] eqn:Em;
    [|discriminate].
  cbn [bind]. apply IHm in Em as [T9 Hmore]. apply proper_tail in T9.
  intros H. injection H as <- <-.
  split; [apply (proper_before _ (tl s)); [chain|exact T0]|].
  intros Hs. cbn [forallb]. rewrite (Hpair Hs). apply Hmore.
  apply (tail_of_scalar _ s); [|exact Hs].
  apply proper_tail in T0. chain.
Qed.

Lemma parse_elements_step (fuel : nat) (s : str) (vs : list py) (r : str) :
  scan_spec fuel -> parse_elements (S fuel) s = Ok (vs, r) ->
  proper r s /\ (forallb scalar s = true -> forallb py_ok vs = true).
Proof.
  intros (IHs & _ & IHe). cbn [parse_elements].
  destruct (scan_once fuel s) as [[v r0]|e] eqn:Ev; [|discriminate]. cbn [bind].
  apply IHs in Ev as [T0 Hv].
  pose proof (skip_ws_tail r0) as T1.
  destruct (head_is 93 (skip_ws r0)) eqn:E93.
  { intros H. injection H as <- <-.
    pose proof (proper_tail _ _ (tl_proper 93 _ E93)) as T2.
    split; [apply (proper_before _ r0); [chain|exact T0]|].
    intros Hs. cbn [forallb]. now rewrite (Hv Hs). }
  destruct (head_is 44 (skip_ws r0)) eqn:E44; [|discriminate].
  pose proof (proper_tail _ _ (tl_proper 44 _ E44)) as T2.
  pose proof (skip_ws_tail (tl (skip_ws r0))) as T3.
  destruct (parse_elements fuel (skip_ws (tl (skip_ws r0)))) as [[more r2]|e] eqn:Em;
    [|discriminate].
  cbn [bind]. apply IHe in Em as [T4 Hmore]. apply proper_tail in T4.
  intros H. injection H as <- <-.
  split; [apply (proper_before _ r0); [chain|exact T0]|].
  intros Hs. cbn [forallb]. rewrite (Hv Hs). apply Hmore.
  apply (tail_of_scalar _ s); [|exact Hs].
  apply proper_tail in T0. chain.
Qed.

Lemma scan_spec_all (fuel : nat) : scan_spec fuel.
Proof.
  induction fuel as [|fuel IH].
  - repeat split; discriminate.
  - split; [|split]; intros s x r H.
    + exact (scan_once_step fuel s x r IH H).
    + exact (parse_members_step fuel s x r IH H).
    + exact (parse_elements_step fuel s x r IH H).
Qed.

(** *** Depth *)

Lemma cons_chr_raise (x : N) (res : result (str * str)) (e : exn) :
  cons_chr x res = Raise e -> res = Raise e.
Proof. unfold cons_chr. destruct res as [[k r]|e']; [discriminate|exact id]. Qed.

Lemma scanstring_raises (n : nat) : forall s e,
  (List.length s <= n)%nat -> scanstring s = Raise e -> e = JSONDecodeError.
Proof.
  induction n as [|n IH]; intros s e Hlen H.
  { destruct s; [now injection H|cbn in Hlen; lia]. }
  assert (Hstep : forall x t, (List.length t <= n)%nat ->
                    cons_chr x (scanstring t) = Raise e -> e = JSONDecodeError).
  { intros x t Ht Hres. apply cons_chr_raise in Hres. eauto. }
  destruct s as [|c rest]; [now injection H|]. cbn [List.length] in Hlen.
  cbn [scanstring] in H.
  destruct (c =? 34); [discriminate|].
  destruct (c =? 92).
  - destruct rest as [|e1 rest1]; [now injection H|]. cbn [List.length] in Hlen.
    destruct (e1 =? 117).
    + destruct rest1 as [|h1 [|h2 [|h3 [|h4 rest2]]]]; try (now injection H).
      cbn [List.length] in Hlen.
      destruct (hex4 h1 h2 h3 h4) as [uni|]; [|now injection H].
      destruct rest2 as [|b [|u [|g1 [|g2 [|g3 [|g4 rest3]]]]]];
        try (apply Hstep in H; [exact H|cbn [List.length] in *; lia]).
      cbn [List.length] in Hlen.
      destruct (is_high_surrogate uni && (b =? 92) && (u =? 117)).
      * destruct (hex4 g1 g2 g3 g4) as [uni2|]; [|now injection H].
        destruct (is_low_surrogate uni2);
          (apply Hstep in H; [exact H|cbn [List.length] in *; lia]).
      * apply Hstep in H; [exact H|cbn [List.length] in *; lia].
    + destruct (simple_escape e1) as [x|]; [|now injection H].
      apply Hstep in H; [exact H|lia].
  - destruct (c <? 32); [now injection H|].
    apply Hstep in H; [exact H|lia].
Qed.

Lemma match_integer_raises (s : str) (e : exn) :
  match_integer s = Raise e -> e = JSONDecodeError.
Proof.
  unfold match_integer. destruct s as [|c rest]; [intros H; now injection H|].
  destruct (c =? 48); [discriminate|].
  destruct (is_digit c); [|intros H; now injection H].
  destruct (span_digits rest). discriminate.
Qed.

Lemma match_number_raises (s : str) (e : exn) :
  match_number s = Raise e -> e = JSONDecodeError \/ e = Unmodelled.
Proof.
  unfold match_number.
  assert (Hplain : forall t (f : N -> Z),
            (n_r <- match_integer t ;;
             (let '(n, r) := n_r in
              if float_follows r then Raise Unmodelled else Ok (PInt (f n), r)))
            = Raise e -> e = JSONDecodeError \/ e = Unmodelled).
  { intros t f. destruct (match_integer t) as [[n r']|e'] eqn:E; cbn [bind].
    - destruct (float_follows r'); [|discriminate]. intros H. injection H as <-. now right.
    - intros H. injection H as ->. left. now apply match_integer_raises in E. }
  destruct s as [|c rest]; [apply (Hplain [] Z.of_N)|].
  destruct (N.eq_dec c 45) as [->|Hne].
  - apply (Hplain rest (fun n => (- Z.of_N n)%Z)).
  - pose proof (Hplain (c :: rest) Z.of_N) as Hp. revert Hp.
    destruct c as [|p]; [auto|].
    repeat (destruct p as [p|p|]; auto); congruence.
Qed.

(** The scanner did not run out of [fuel]. *)
Definition in_depth {A : Type} (res : result A) : Prop := res <> Raise RecursionError.

Definition deep_enough (fuel : nat) : Prop :=
  (forall s, (2 * List.length s + 1 <= fuel)%nat -> in_depth (scan_once fuel s))
  /\ (forall s, (2 * List.length s + 2 <= fuel)%nat -> in_depth (parse_members fuel s))
  /\ (forall s, (2 * List.length s + 2 <= fuel)%nat -> in_depth (parse_elements fuel s)).

Ltac lengths :=
  repeat match goal with
         | H : proper _ _ |- _ => apply proper_length in H
         | H : tail_of _ _ |- _ => apply tail_of_length in H
         end;
  cbn [List.length] in *; lia.

Ltac scanned E :=
  intros H; injection H as ->;
  apply (scanstring_raises _ _ _ (le_n _)) in E; discriminate.

Lemma scan_once_deep (fuel : nat) (s : str) :
  deep_enough fuel -> (2 * List.length s + 1 <= S fuel)%nat ->
  in_depth (scan_once (S fuel) s).
Proof.
  intros (_ & IHm & IHe) Hlen. unfold in_depth. cbn [scan_once].
  destruct s as [|c rest]; [discriminate|].
  pose proof (skip_ws_tail rest) as Hws.
  destruct (c =? 34).
  { destruct (scanstring rest) as [[k r']|e] eqn:Es; cbn [bind]; [discriminate|].
    scanned Es. }
  destruct (c =? 123).
  { destruct (head_is 125 (skip_ws rest)); [discriminate|].
    destruct (parse_members fuel (skip_ws rest)) as [[pairs r']|e] eqn:Em; cbn [bind];
      [discriminate|].
    intros H. injection H as ->. revert Em. apply IHm. lengths. }
  destruct (c =? 91).
  { destruct (head_is 93 (skip_ws rest)); [discriminate|].
    destruct (parse_elements fuel (skip_ws rest)) as [[vs r']|e] eqn:Em; cbn [bind];
      [discriminate|].
    intros H. injection H as ->. revert Em. apply IHe. lengths. }
  repeat match goal with
         | |- match strip_prefix ?p ?t with _ => _ end <> _ =>
             destruct (strip_prefix p t); [discriminate|]
         end.
  intros H. apply match_number_raises in H as [H|H]; discriminate.
Qed.

Lemma parse_members_deep (fuel : nat) (s : str) :
  deep_enough fuel -> (2 * List.length s + 2 <= S fuel)%nat ->
  in_depth (parse_members (S fuel) s).
Proof.
  intros (IHs & IHm & _) Hlen. unfold in_depth. cbn [parse_members].
  destruct (head_is 34 s) eqn:Eq; [|discriminate].
  pose proof (tl_proper 34 s Eq) as T0.
  destruct (scanstring (tl s)) as [[k r0]|e] eqn:Es; cbn [bind]; [|scanned Es].
  apply scanstring_ok in Es as [T1 _].
  pose proof (skip_ws_tail r0) as T2.
  destruct (head_is 58 (skip_ws r0)) eqn:E58; [|discriminate].
  pose proof (tl_proper 58 _ E58) as T3.
  pose proof (skip_ws_tail (tl (skip_ws r0))) as T4.
  destruct (scan_once fuel (skip_ws (tl (skip_ws r0)))) as [[v r2]|e] eqn:Ev;
    cbn [bind].
  - destruct (proj1 (scan_spec_all fuel) _ _ _ Ev) as [T5 _].
    pose proof (skip_ws_tail r2) as T6.
    destruct (head_is 125 (skip_ws r2)); [discriminate|].
    destruct (head_is 44 (skip_ws r2)) eqn:E44; [|discriminate].
    pose proof (tl_proper 44 _ E44) as T7.
    pose proof (skip_ws_tail (tl (skip_ws r2))) as T8.
    destruct (parse_members fuel (skip_ws (tl (skip_ws r2)))) as [[more r4]|e] eqn:Em;
      cbn [bind]; [discriminate|].
    intros H. injection H as ->. revert Em. apply IHm. lengths.
  - intros H. injection H as ->. revert Ev. apply IHs. lengths.
Qed.

Lemma parse_elements_deep (fuel : nat) (s : str) :
  deep_enough fuel -> (2 * List.length s + 2 <= S fuel)%nat ->
  in_depth (parse_elements (S fuel) s).
Proof.
  intros (IHs & _ & IHe) Hlen. unfold in_depth. cbn [parse_elements].
  destruct (scan_once fuel s) as [[v r0]|e] eqn:Ev; cbn [bind].
  - destruct (proj1 (scan_spec_all fuel) _ _ _ Ev) as [T0 _].
    pose proof (skip_ws_tail r0) as T1.
    destruct (head_is 93 (skip_ws r0)); [discriminate|].
    destruct (head_is 44 (skip_ws r0)) eqn:E44; [|discriminate].
    pose proof (tl_proper 44 _ E44) as T2.
    pose proof (skip_ws_tail (tl (skip_ws r0))) as T3.
    destruct (parse_elements fuel (skip_ws (tl (skip_ws r0)))) as [[more r2]|e] eqn:Em;
      cbn [bind]; [discriminate|].
    intros H. injection H as ->. revert Em. apply IHe. lengths.
  - intros H. injection H as ->. revert Ev. apply IHs. lia.
Qed.

Lemma deep_enough_all (fuel : nat) : deep_enough fuel.
Proof.
  induction fuel as [|fuel IH].
  - repeat split; intros s H; lia.
  - split; [|split]; intros s H.
    + exact (scan_once_deep fuel s IH H).
    + exact (parse_members_deep fuel s IH H).
    + exact (parse_elements_deep fuel s IH H).
Qed.


Lemma loads_in_depth (text : str) : in_depth (loads text).
Proof.
  unfold in_depth, loads.
  destruct (scan_once _ (skip_ws text)) as [[v' r]|e] eqn:E; cbn [bind].
  - destruct (skip_ws r); discriminate.
  - intros H. injection H as ->. revert E.
    apply (proj1 (deep_enough_all _)). lia.
Qed.

End ScanFacts.

(** ** The ingest side *)

Module LambdaFacts.
Import Lambda.

(** The loop only ever appends. *)
Lemma step_extends (env : Env) (self : ImageProcessor) (st : Loop) (record : py) :
  exists ims es cs,
    processed_images (step env self st record) = processed_images st ++ ims
    /\ errors (step env self st record) = errors st ++ es
    /\ calls (step env self st record) = calls st ++ cs.
Proof.
  unfold step.
  destruct (process_record env self (List.length (calls st)) record) as [[|im|e] made];
    cbn [processed_images errors calls].
  - exists [], [], made. now rewrite !app_nil_r.
  - exists [im], [], made. now rewrite !app_nil_r.
  - exists [], [RecordError record e], made. now rewrite !app_nil_r.
Qed.

Lemma fold_extends (env : Env) (self : ImageProcessor) (records : list py) :
  forall st, exists ims es cs,
    processed_images (fold_left (step env self) records st) = processed_images st ++ ims
    /\ errors (fold_left (step env self) records st) = errors st ++ es
    /\ calls (fold_left (step env self) records st) = calls st ++ cs.
Proof.
  induction records as [|r records IH]; intros st; cbn [fold_left].
  - exists [], [], []. now rewrite !app_nil_r.
  - destruct (IH (step env self st r)) as (ims & es & cs & H1 & H2 & H3).
    destruct (step_extends env self st r) as (ims' & es' & cs' & G1 & G2 & G3).
    exists (ims' ++ ims), (es' ++ es), (cs' ++ cs).
    rewrite H1, H2, H3, G1, G2, G3, !app_assoc. auto.
Qed.

(** The state in which the loop reaches the record after [before]. *)
Definition reached (env : Env) (self : ImageProcessor) (before : list py) : Loop :=
  fold_left (step env self) before start.

Lemma isolation (env : Env) (self : ImageProcessor) (before after : list py) (record : py) :
  let st := reached env self before in
  let out := fst (process_record env self (List.length (calls st)) record) in
  let final := fold_left (step env self) (before ++ record :: after) start in
  (forall image, out = Processed image -> In image (processed_images final))
  /\ (forall e, out = Failed e -> In (RecordError record e) (errors final)).
Proof.
  intros st out final. subst final.
  rewrite fold_left_app. cbn [fold_left]. fold (reached env self before). fold st.
  destruct (fold_extends env self after (step env self st record))
    as (ims & es & cs & H1 & H2 & _).
  rewrite H1, H2. subst out. unfold step.
  destruct (process_record env self (List.length (calls st)) record) as [o made].
  cbn [fst processed_images errors].
  split; intros x ->; rewrite in_app_iff; left; rewrite in_app_iff; right; now left.
Qed.

End LambdaFacts.

(** ** Properties of the ingest side *)

(** A sample environment: no object metadata, signed URLs, and a queue
    that refuses a message whose text holds an exclamation mark. *)
Definition sample_env : Lambda.Env :=
  {| Lambda.SQS_QUEUE_URL := Some (lit "https://sqs.example/queue");
     Lambda.ENVIRONMENT := None;
     Lambda.boto3_client := Ok tt;
     Lambda.head_object := fun _ _ => Raise (ClientError (lit "404"));
     Lambda.generate_presigned_url := fun _ k => Ok (lit "https://signed.example/" ++ k);
     Lambda.send_message := fun m =>
       if contains 33 (Lambda.MessageBody m)
       then Raise (ClientError (lit "throttled"))
       else Ok (PStr (lit "id-1"));
     Lambda.utcnow_isoformat := fun _ => lit "2024-05-01T10:00:00.000001";
     Lambda.py_str := fun _ => lit "?";
     Lambda.unicode_lower := fun _ c _ => [c] |}.

Definition sample_self : Lambda.ImageProcessor :=
  {| Lambda.queue_url := lit "https://sqs.example/queue";
     Lambda.environment := lit "dev" |}.

(** [{'s3': {'bucket': {'name': bucket}, 'object': {'key': key}}}] *)
Definition s3_record (bucket_name raw_key : py) : py :=
  PDict [(lit "s3",
          PDict [(lit "bucket", PDict [(lit "name", bucket_name)]);
                 (lit "object", PDict [(lit "key", raw_key)])])].

Definition s3_event (records : list py) : py :=
  PDict [(lit "Records", PList records)].

Definition sample_records : list py :=
  [PDict [(lit "s3", PNone)];
   s3_record (PStr (lit "imgs")) (PStr (lit "a%2Fb.png"));
   s3_record (PStr (lit "imgs")) (PStr (lit "oops!.png"));
   s3_record (PStr (lit "imgs")) (PStr (lit "notes.txt"));
   s3_record (PStr (lit "imgs")) (PStr (lit "c.JPG"))].

Section Ingest.
Import Lambda LambdaFacts.
Variable env : Env.
Variable self : ImageProcessor.

Lemma read_s3_event (records : list py) : read_records (s3_event records) = Ok records.
Proof. reflexivity. Qed.

Lemma fold_counts (records : list py) : forall st,
  (List.length (processed_images (fold_left (step env self) records st))
   + List.length (errors (fold_left (step env self) records st))
   <= List.length (processed_images st) + List.length (errors st)
      + List.length records)%nat.
Proof.
  induction records as [|r records IH]; intros st; cbn [fold_left List.length].
  - lia.
  - specialize (IH (step env self st r)).
    assert (H : (List.length (processed_images (step env self st r))
                 + List.length (errors (step env self st r))
                 <= S (List.length (processed_images st) + List.length (errors st)))%nat).
    { unfold step.
      destruct (process_record env self (List.length (calls st)) r) as [[|im|e] made];
        cbn [processed_images errors]; rewrite ?length_app; cbn [List.length]; lia. }
    lia.
Qed.

(** C2. Whatever the batch holds, the response is built from the whole
    batch: a record whose processing raises leaves its error in the error
    list, a record that is normalized and published without error leaves
    its entry in the processed list, whatever happened to the records
    before and after it; and the two lists together are no longer than
    the batch. *)
Theorem record_failure_is_isolated
    (event : py) (records before after : list py) (record : py) :
  read_records event = Ok records ->
  records = before ++ record :: after ->
  let sent := List.length (calls (reached env self before)) in
  let r := fst (process_s3_event env self event) in
  (forall e, fst (process_record env self sent record) = Failed e ->
     exists es, response_errors r = Some es /\ In (RecordError record e) es)
  /\ (forall image, fst (process_record env self sent record) = Processed image ->
        In image (response_images r))
  /\ (processed_count r + error_count r <= List.length records)%nat.
Proof.
  intros Hread -> sent r. subst r sent.
  unfold process_s3_event. rewrite Hread. cbn [fst].
  destruct (isolation env self before after record) as [Hp He].
  remember (fold_left (step env self) (before ++ record :: after) start) as final.
  unfold respond;
    cbn [response_errors response_images processed_count error_count].
  repeat split.
  - intros e H. specialize (He e H).
    destruct (errors final) as [|x es]; [contradiction|]. eauto.
  - exact Hp.
  - subst final. apply (fold_counts (before ++ record :: after) start).
Qed.

End Ingest.

Lemma record_failure_is_isolated_witness :
  Lambda.read_records (s3_event sample_records) = Ok sample_records
  /\ sample_records
     = firstn 2 sample_records ++ nth 2 sample_records PNone :: skipn 3 sample_records
  /\ fst (Lambda.process_record sample_env sample_self 1 (nth 2 sample_records PNone))
     = Lambda.Failed (ClientError (lit "throttled"))
  /\ (exists es,
        Lambda.response_errors
          (fst (Lambda.process_s3_event sample_env sample_self (s3_event sample_records)))
        = Some es
        /\ In (Lambda.RecordError (nth 2 sample_records PNone)
                 (ClientError (lit "throttled"))) es).
Proof.
  split; [reflexivity|]. split; [reflexivity|]. split; [vm_compute; reflexivity|].
  pose proof (record_failure_is_isolated sample_env sample_self (s3_event sample_records)
                sample_records (firstn 2 sample_records) (skipn 3 sample_records)
                (nth 2 sample_records PNone) eq_refl eq_refl) as H.
  cbv zeta in H. destruct H as (H & _ & _).
  apply (H (ClientError (lit "throttled"))).
  vm_compute. reflexivity.
Defined.

Section IngestStatus.
Import Lambda LambdaFacts.
Variable env : Env.

Definition status_of (h : HandlerResult) : Z :=
  match h with
  | Returned r => statusCode r
  | Failure status _ => status
  end.

(** C3, as the code has it. The status is 200 exactly when there is no
    error and 207 exactly when there is one, also when the batch itself
    cannot be read: then the response is a 207 with the one top-level
    error and an empty processed list.  The status is 500 exactly when
    the processor cannot be constructed, and that response carries
    nothing but its error message. *)
Theorem handler_status (event : py) :
  (forall self r made,
     process_s3_event env self event = (r, made) ->
     (statusCode r = 200%Z <-> response_errors r = None /\ error_count r = O)
     /\ (statusCode r = 207%Z <-> error_count r <> O)
     /\ (forall e, read_records event = Raise e ->
           statusCode r = 207%Z /\ response_images r = []
           /\ processed_count r = O
           /\ response_errors r = Some [EventError e] /\ made = []))
  /\ (status_of (fst (lambda_handler env event)) = 500%Z
      <-> exists e, init env = Raise e
                    /\ lambda_handler env event = (Failure 500 (ExecutionFailed e), [])).
Proof.
  split.
  - intros self r made H. unfold process_s3_event in H.
    injection H as <- <-.
    repeat split.
    + unfold respond in *; cbn [statusCode response_errors] in *.
      destruct (errors _); [reflexivity|discriminate].
    + unfold respond in *; cbn [statusCode error_count] in *.
      destruct (errors _); [reflexivity|discriminate].
    + unfold respond; cbn [statusCode response_errors error_count].
      intros [H _]. destruct (errors _); [reflexivity|discriminate].
    + unfold respond; cbn [statusCode error_count].
      destruct (errors _); [discriminate|]. cbn. discriminate.
    + unfold respond; cbn [statusCode error_count].
      destruct (errors _); [intros H; now elim H|reflexivity].
    + rewrite H. reflexivity.
    + rewrite H. reflexivity.
    + rewrite H. reflexivity.
    + rewrite H. reflexivity.
    + rewrite H. reflexivity.
  - unfold lambda_handler. destruct (init env) as [self|e].
    + destruct (process_s3_event env self event) as [r made] eqn:E.
      cbn [fst status_of]. split.
      * unfold process_s3_event in E. injection E as <- _.
        unfold respond; cbn [statusCode]. destruct (errors _); discriminate.
      * intros (e & H & _). discriminate.
    + cbn [fst status_of]. split; [|reflexivity]. intros _. exists e. auto.
Qed.

End IngestStatus.

Definition unreadable_event : py := PDict [(lit "Records", PInt 5)].

(** C3 fails as stated: a batch that cannot be read is answered with
    207, not 500. *)
Lemma unreadable_batch_is_207 :
  Lambda.read_records unreadable_event = Raise TypeError
  /\ Lambda.lambda_handler sample_env unreadable_event
     = (Lambda.Returned
          {| Lambda.statusCode := 207;
             Lambda.processed_count := 0;
             Lambda.error_count := 1;
             Lambda.response_images := [];
             Lambda.response_errors := Some [Lambda.EventError TypeError] |}, [])
  /\ status_of (fst (Lambda.lambda_handler sample_env unreadable_event)) <> 500%Z.
Proof. repeat split. vm_compute. discriminate. Qed.

Lemma handler_status_witness :
  Lambda.read_records unreadable_event = Raise TypeError
  /\ Lambda.statusCode
       (fst (Lambda.process_s3_event sample_env sample_self unreadable_event)) = 207%Z
  /\ Lambda.response_errors
       (fst (Lambda.process_s3_event sample_env sample_self unreadable_event))
     = Some [Lambda.EventError TypeError].
Proof.
  split; [reflexivity|].
  pose proof (handler_status sample_env unreadable_event) as [H _].
  specialize (H sample_self _ _ eq_refl) as (_ & _ & H).
  specialize (H TypeError eq_refl) as (H1 & _ & _ & H2 & _).
  split; [exact H1|exact H2].
Defined.

Section IngestRecords.
Import Lambda LambdaFacts.
Variable env : Env.
Variable self : ImageProcessor.

Lemma existsb_str_eqb (x : str) (l : list str) :
  existsb (str_eqb x) l = true <-> In x l.
Proof.
  rewrite existsb_exists. split.
  - intros (y & Hin & Heq). apply str_eqb_eq in Heq. now subst.
  - intros Hin. exists x. split; [assumption|apply str_eqb_refl].
Qed.

Lemma skipped_record_changes_nothing (sent : nat) (record : py) (st : Loop) :
  process_record env self (List.length (calls st)) record = (Skipped, []) ->
  step env self st record = st.
Proof.
  intros H. unfold step. rewrite H. rewrite app_nil_r. now destruct st.
Qed.

(** C6. A record with a bucket and a key whose lower-cased extension is
    none of .jpg, .jpeg, .png, .gif, .webp is skipped: its processing
    ends without a call to the queue, it leaves the processed list, the
    error list and the calls as they were, and the response to a batch
    is the response to the batch without the record. *)
Theorem disallowed_extension_is_skipped
    (record bucket_name : py) (object_key : str) (before after : list py) :
  s3_location record = Ok (bucket_name, object_key) ->
  truthy bucket_name = true ->
  object_key <> [] ->
  ~ In (snd (Os.splitext (Os.lower (unicode_lower env) object_key))) valid_extensions ->
  (forall sent, process_record env self sent record = (Skipped, []))
  /\ (forall st, step env self st record = st)
  /\ process_s3_event env self (s3_event (before ++ record :: after))
     = process_s3_event env self (s3_event (before ++ after)).
Proof.
  intros Hloc Hb Hk Hext.
  assert (Hskip : forall sent, process_record env self sent record = (Skipped, [])).
  { intros sent. unfold process_record. rewrite Hloc, Hb.
    assert (Hv : _is_valid_image_file env object_key = false).
    { unfold _is_valid_image_file.
      destruct (existsb _ valid_extensions) eqn:E; [|reflexivity].
      apply existsb_str_eqb in E. contradiction. }
    rewrite Hv. cbn [negb orb].
    destruct (negb (truthy (PStr object_key))); reflexivity. }
  assert (Hstep : forall st, step env self st record = st).
  { intros st. apply (skipped_record_changes_nothing O). apply Hskip. }
  repeat split; auto.
  unfold process_s3_event. rewrite !read_s3_event.
  rewrite !fold_left_app. cbn [fold_left]. now rewrite Hstep.
Qed.

(** The record names the bucket [bucket_name] and the raw key
    [raw_key], whatever else it and its parts hold. *)
Definition s3_names (record bucket_name raw_key : py) : Prop :=
  exists items s3 bkt obj,
    record = PDict items
    /\ lookup (lit "s3") items = Some (PDict s3)
    /\ lookup (lit "bucket") s3 = Some (PDict bkt)
    /\ lookup (lit "name") bkt = Some bucket_name
    /\ lookup (lit "object") s3 = Some (PDict obj)
    /\ lookup (lit "key") obj = Some raw_key.

Lemma s3_names_location (record bucket_name : py) (raw : str) :
  s3_names record bucket_name (PStr raw) ->
  s3_location record = Ok (bucket_name, Urllib.unquote (replace_char 43 32 raw)).
Proof.
  intros (items & s3 & bkt & obj & -> & H1 & H2 & H3 & H4 & H5).
  unfold s3_location. cbn [py_get bind]. rewrite H1. cbn [py_get bind].
  rewrite H2. cbn [py_get bind]. rewrite H3, H4. cbn [py_get bind].
  rewrite H5. reflexivity.
Qed.

Lemma bind_ok {A B : Type} (r : result A) (k : A -> result B) (b : B) :
  bind r k = Ok b -> exists a, r = Ok a /\ k a = Ok b.
Proof. destruct r as [a|e]; [eauto|discriminate]. Qed.

(** A value read that is not the default was found under the key. *)
Lemma py_get_found (v : py) (k : str) (default x : py) :
  py_get v k default = Ok x -> x <> default ->
  exists items, v = PDict items /\ lookup k items = Some x.
Proof.
  destruct v as [| | | | |items]; try discriminate. cbn [py_get].
  destruct (lookup k items) as [y|] eqn:E; intros H Hx; injection H as <-.
  - eauto.
  - contradiction.
Qed.

(** A record that is processed names its bucket and its key. *)
Lemma located_names (record bucket_name : py) (object_key : str) :
  s3_location record = Ok (bucket_name, object_key) ->
  truthy bucket_name = true -> object_key <> [] ->
  exists raw, s3_names record bucket_name (PStr raw)
              /\ Urllib.unquote_plus (PStr raw) = Ok object_key.
Proof.
  unfold s3_location, s3_names. intros H Hb Hk.
  apply bind_ok in H as (s3_info & E1 & H).
  apply bind_ok in H as (bucket_obj & E2 & H).
  apply bind_ok in H as (name & E3 & H).
  apply bind_ok in H as (object_obj & E4 & H).
  apply bind_ok in H as (raw_key & E5 & H).
  apply bind_ok in H as (decoded & E6 & H).
  injection H as -> ->.
  apply py_get_found in E3 as (bkt & -> & E3); [|intros ->; discriminate].
  apply py_get_found in E2 as (s3 & -> & E2); [|intros H; injection H as ->; discriminate].
  apply py_get_found in E1 as (items & -> & E1);
    [|intros H; injection H as ->; discriminate].
  destruct raw_key as [| | |raw| |]; try discriminate.
  apply py_get_found in E5 as (obj & -> & E5).
  2:{ intros H. injection H as ->. cbn in E6. injection E6 as <-. congruence. }
  apply py_get_found in E4 as (s3' & Hs3 & E4);
    [|intros H; injection H as ->; discriminate].
  injection Hs3 as <-.
  exists raw. split; [|exact E6].
  exists items, s3, bkt, obj. repeat split; assumption.
Qed.

(** A located record with a valid extension, a URL and a queue that
    accepts the message ends as processed, after one call to the queue. *)
Lemma process_record_published
    (sent : nat) (record bucket_name : py) (object_key image_url : str) :
  s3_location record = Ok (bucket_name, object_key) ->
  truthy bucket_name = true ->
  object_key <> [] ->
  _is_valid_image_file env object_key = true ->
  _generate_image_url env bucket_name object_key = Ok image_url ->
  (forall m, is_ok (send_message env m) = true) ->
  process_record env self sent record
  = (Processed {| bucket := bucket_name; key := object_key; url := image_url |},
     snd (_send_to_sqs env self
            (_create_sqs_message self (utcnow_isoformat env sent) image_url object_key
               (_get_object_metadata env bucket_name object_key)))).
Proof.
  intros Hloc Hb Hk Hv Hurl Hsend.
  unfold process_record. rewrite Hloc, Hb, Hv, Hurl.
  destruct object_key as [|c k]; [congruence|]. cbn [truthy str_eqb negb orb].
  unfold _send_to_sqs. cbn [snd].
  match goal with
  | |- context [send_message env ?m] =>
      specialize (Hsend m); destruct (send_message env m); [reflexivity|discriminate]
  end.
Qed.

(** C9. A batch of one record that names the bucket "imgs" and the raw
    key "a%2Fb.png": the key is decoded to "a/b.png" and passes the
    extension test; the processor being constructed and the queue
    accepting the message, [_send_to_sqs] is entered once, with the
    notification of a/b.png, and so the queue is called exactly once;
    the response has status 200, processed count 1 and no error. *)
Theorem scenario_one_image (event record : py) :
  init env = Ok self ->
  (forall m, is_ok (send_message env m) = true) ->
  read_records event = Ok [record] ->
  s3_names record (PStr (lit "imgs")) (PStr (lit "a%2Fb.png")) ->
  s3_location record = Ok (PStr (lit "imgs"), lit "a/b.png")
  /\ _is_valid_image_file env (lit "a/b.png") = true
  /\ exists r image_url,
       let notification :=
         _create_sqs_message self (utcnow_isoformat env 0) image_url (lit "a/b.png")
           (_get_object_metadata env (PStr (lit "imgs")) (lit "a/b.png")) in
       _generate_image_url env (PStr (lit "imgs")) (lit "a/b.png") = Ok image_url
       /\ lambda_handler env event
          = (Returned r, snd (_send_to_sqs env self notification))
       /\ snd (_send_to_sqs env self notification)
          = [{| QueueUrl := queue_url self;
                MessageBody := Json.dumps notification;
                MessageAttributes :=
                  [(lit "Environment", environment self);
                   (lit "MessageType", lit "InstagramImageUpload")] |}]
       /\ statusCode r = 200%Z
       /\ processed_count r = 1%nat
       /\ error_count r = O
       /\ response_errors r = None
       /\ response_images r
          = [{| bucket := PStr (lit "imgs"); key := lit "a/b.png"; url := image_url |}].
Proof.
  intros Hinit Hsend Hread Hnames.
  assert (Hloc : s3_location record = Ok (PStr (lit "imgs"), lit "a/b.png")).
  { rewrite (s3_names_location _ _ _ Hnames). reflexivity. }
  split; [exact Hloc|]. split; [reflexivity|].
  assert (Hurl : exists u,
            _generate_image_url env (PStr (lit "imgs")) (lit "a/b.png") = Ok u).
  { unfold _generate_image_url.
    destruct (generate_presigned_url env _ _) as [u|e]; [eauto|].
    change (Urllib.quote (lit "a/b.png")) with (Ok (lit "a/b.png")).
    cbn [bind]. eauto. }
  destruct Hurl as (u & Hurl).
  unfold lambda_handler. rewrite Hinit.
  unfold process_s3_event. rewrite Hread.
  cbn [fold_left]. unfold step.
  rewrite (process_record_published _ record (PStr (lit "imgs"))
             (lit "a/b.png") u); auto; try reflexivity; try discriminate.
  eexists _, u. cbv zeta. split; [exact Hurl|]. repeat split.
Qed.

(** C10. The key of every ingested record is the raw key of the record
    decoded by [unquote_plus]: plus signs become spaces, then percent
    escapes are read as UTF-8.  So a raw key that is a URL-encoding of a
    key, in which a space may be written as a plus sign, gives that key
    back; a raw key without a percent sign is the raw key with its plus
    signs turned into spaces; "a+b.png" gives "a b.png", which plain
    percent-decoding would leave as it is. *)
Theorem key_plus_becomes_space :
  (forall sent record image made,
     process_record env self sent record = (Processed image, made) ->
     exists raw, s3_names record (bucket image) (PStr raw)
                 /\ Urllib.unquote_plus (PStr raw) = Ok (key image))
  /\ (forall record bucket_name raw,
        s3_names record bucket_name (PStr raw) ->
        exists object_key,
          Urllib.unquote_plus (PStr raw) = Ok object_key
          /\ s3_location record = Ok (bucket_name, object_key))
  /\ (forall object_key raw bytes,
        forallb UrlFacts.scalar object_key = true ->
        Urllib.utf8_encode object_key = Ok bytes ->
        UrlFacts.url_encoded bytes raw ->
        Urllib.unquote_plus (PStr raw) = Ok object_key)
  /\ (forall raw, contains 37 raw = false ->
        Urllib.unquote_plus (PStr raw) = Ok (replace_char 43 32 raw))
  /\ Urllib.unquote_plus (PStr (lit "a+b.png")) = Ok (lit "a b.png")
  /\ Urllib.unquote (lit "a+b.png") = lit "a+b.png".
Proof.
  split; [|split; [|split; [|split; [|split; reflexivity]]]].
  - intros sent record image made. unfold process_record.
    destruct (s3_location record) as [[bucket_name object_key]|e] eqn:Hloc;
      [|discriminate].
    destruct (truthy bucket_name) eqn:Hb; [|discriminate]. cbn [negb orb].
    destruct (truthy (PStr object_key)) eqn:Hk; [|discriminate]. cbn [negb].
    destruct (_is_valid_image_file env object_key); [|discriminate]. cbn [negb].
    destruct (_generate_image_url env bucket_name object_key); [|discriminate].
    destruct (_send_to_sqs env self _) as [[mid|e] calls]; [|discriminate].
    intros H. injection H as <- _. cbn [bucket key].
    apply (located_names record bucket_name object_key Hloc Hb).
    intros ->. discriminate.
  - intros record bucket_name raw H. eexists. split; [reflexivity|].
    now apply s3_names_location.
  - apply UrlFacts.unquote_plus_encoded.
  - intros raw Hno. cbn [Urllib.unquote_plus]. f_equal. unfold Urllib.unquote.
    assert (Hc : contains 37 (replace_char 43 32 raw) = false).
    { unfold contains, replace_char in *.
      induction raw as [|c k IH]; [reflexivity|].
      cbn [List.map existsb] in *.
      apply orb_false_elim in Hno as [H1 H2].
      rewrite (IH H2), orb_false_r.
      destruct (N.eqb_spec c 43) as [->|_]; [reflexivity|exact H1]. }
    now rewrite Hc.
Qed.

End IngestRecords.

Lemma disallowed_extension_is_skipped_witness :
  Lambda.process_record sample_env sample_self 0 (nth 3 sample_records PNone)
  = (Lambda.Skipped, [])
  /\ Lambda.process_s3_event sample_env sample_self (s3_event sample_records)
     = Lambda.process_s3_event sample_env sample_self
         (s3_event (firstn 3 sample_records ++ skipn 4 sample_records)).
Proof.
  destruct (disallowed_extension_is_skipped sample_env sample_self
              (nth 3 sample_records PNone) (PStr (lit "imgs")) (lit "notes.txt")
              (firstn 3 sample_records) (skipn 4 sample_records))
    as (H1 & _ & H3).
  - reflexivity.
  - reflexivity.
  - discriminate.
  - vm_compute. intuition discriminate.
  - split; [apply H1|exact H3].
Defined.

(** The sample environment with a queue that accepts every message. *)
Definition accepting_env : Lambda.Env :=
  {| Lambda.SQS_QUEUE_URL := Lambda.SQS_QUEUE_URL sample_env;
     Lambda.ENVIRONMENT := Lambda.ENVIRONMENT sample_env;
     Lambda.boto3_client := Lambda.boto3_client sample_env;
     Lambda.head_object := Lambda.head_object sample_env;
     Lambda.generate_presigned_url := Lambda.generate_presigned_url sample_env;
     Lambda.send_message := fun _ => Ok (PStr (lit "id-1"));
     Lambda.utcnow_isoformat := Lambda.utcnow_isoformat sample_env;
     Lambda.py_str := Lambda.py_str sample_env;
     Lambda.unicode_lower := Lambda.unicode_lower sample_env |}.

(** A record as the storage service writes it, for the object [raw_key]
    of the bucket [bucket_name]. *)
Definition storage_record (bucket_name raw_key : str) : py :=
  PDict
    [(lit "eventVersion", PStr (lit "2.1"));
     (lit "eventSource", PStr (lit "aws:s3"));
     (lit "awsRegion", PStr (lit "eu-west-1"));
     (lit "eventTime", PStr (lit "2024-05-01T09:59:58.000Z"));
     (lit "eventName", PStr (lit "ObjectCreated:Put"));
     (lit "s3",
      PDict [(lit "s3SchemaVersion", PStr (lit "1.0"));
             (lit "configurationId", PStr (lit "uploads"));
             (lit "bucket",
              PDict [(lit "name", PStr bucket_name);
                     (lit "ownerIdentity", PDict [(lit "principalId", PStr (lit "A1"))]);
                     (lit "arn", PStr (lit "arn:aws:s3:::" ++ bucket_name))]);
             (lit "object",
              PDict [(lit "key", PStr raw_key);
                     (lit "size", PInt 2048);
                     (lit "eTag", PStr (lit "0123456789abcdef"));
                     (lit "sequencer", PStr (lit "0A1B2C3D4E5F678901"))])])].

Lemma storage_record_names (bucket_name raw_key : str) :
  s3_names (storage_record bucket_name raw_key) (PStr bucket_name) (PStr raw_key).
Proof. unfold s3_names, storage_record. repeat eexists. Qed.

Lemma scenario_one_image_witness :
  exists image_url,
    Lambda.lambda_handler accepting_env
      (s3_event [storage_record (lit "imgs") (lit "a%2Fb.png")])
    = (Lambda.Returned
         {| Lambda.statusCode := 200;
            Lambda.processed_count := 1;
            Lambda.error_count := 0;
            Lambda.response_images :=
              [{| Lambda.bucket := PStr (lit "imgs"); Lambda.key := lit "a/b.png";
                  Lambda.url := image_url |}];
            Lambda.response_errors := None |},
       [Lambda.sqs_call sample_self
          (Lambda._create_sqs_message sample_self
             (lit "2024-05-01T10:00:00.000001") image_url (lit "a/b.png") (PDict []))]).
Proof.
  destruct (scenario_one_image accepting_env sample_self
              (s3_event [storage_record (lit "imgs") (lit "a%2Fb.png")])
              (storage_record (lit "imgs") (lit "a%2Fb.png")))
    as (_ & _ & r & image_url & H).
  - reflexivity.
  - intros m. reflexivity.
  - reflexivity.
  - apply storage_record_names.
  - cbv zeta in H. destruct H as (_ & Hh & Hcalls & H1 & H2 & H3 & H4 & H5).
    exists image_url. rewrite Hh, Hcalls. destruct r as [s p e ims es].
    cbn [Lambda.statusCode Lambda.processed_count Lambda.error_count
         Lambda.response_images Lambda.response_errors] in *.
    subst. reflexivity.
Defined.

Lemma key_plus_becomes_space_witness :
  Lambda.s3_location (storage_record (lit "imgs") (lit "my+cat%2B1.gif"))
  = Ok (PStr (lit "imgs"), lit "my cat+1.gif").
Proof.
  destruct (key_plus_becomes_space sample_env sample_self) as (_ & H & _).
  destruct (H (storage_record (lit "imgs") (lit "my+cat%2B1.gif"))
              (PStr (lit "imgs")) (lit "my+cat%2B1.gif")
              (storage_record_names _ _)) as (object_key & Hk & Hloc).
  rewrite Hloc. vm_compute in Hk. injection Hk as <-. reflexivity.
Defined.

(** ** Division and [.1f] *)

Module FloatFacts.
Import Float.
Local Open Scope Z_scope.

Lemma round_half_even_bounds (p q : Z) :
  0 < q -> p / q <= round_half_even p q <= p / q + 1.
Proof.
  intros Hq. unfold round_half_even.
  destruct (2 * (p mod q) <? q); [lia|].
  destruct (q <? 2 * (p mod q)); [lia|].
  destruct (Z.even (p / q)); lia.
Qed.

(** The rounded quotient is within half a unit of the quotient. *)
Lemma round_half_even_nearest (p q : Z) :
  0 < q -> 2 * Z.abs (p - round_half_even p q * q) <= q.
Proof.
  intros Hq. unfold round_half_even.
  pose proof (Z.div_mod p q ltac:(lia)) as Hdm.
  pose proof (Z.mod_pos_bound p q Hq) as Hr.
  destruct (Z.ltb_spec (2 * (p mod q)) q).
  - replace (p - p / q * q) with (p mod q) by lia. lia.
  - destruct (Z.ltb_spec q (2 * (p mod q))).
    + replace (p - (p / q + 1) * q) with (p mod q - q) by lia. lia.
    + destruct (Z.even (p / q)).
      * replace (p - p / q * q) with (p mod q) by lia. lia.
      * replace (p - (p / q + 1) * q) with (p mod q - q) by lia. lia.
Qed.

Lemma div_lt_inv (a b c : Z) : 0 < b -> a / b < c -> a < b * c.
Proof.
  intros Hb H. destruct (Z.lt_ge_cases a (b * c)) as [|Hge]; [assumption|].
  apply Z.div_le_lower_bound in Hge; lia.
Qed.

(** The exponent [true_divide] chooses. *)
Definition exponent (a b : Z) : Z :=
  Z.log2 (a * 2 ^ (54 + Z.log2 b) / b) - 52 - (54 + Z.log2 b).

Lemma exponent_range (a b : Z) :
  2 <= b -> b <= a -> a < 2 ^ 1024 -> -52 <= exponent a b <= 970.
Proof.
  intros Hb Hab Ha. unfold exponent.
  set (s := 54 + Z.log2 b).
  assert (Hs : 54 <= s) by (pose proof (Z.log2_nonneg b); lia).
  assert (Hps : 0 < 2 ^ s) by (apply Z.pow_pos_nonneg; lia).
  assert (Hlow : 2 ^ s <= a * 2 ^ s / b).
  { apply Z.div_le_lower_bound; [lia|]. nia. }
  assert (Hup : a * 2 ^ s / b < 2 ^ (1023 + s)).
  { apply Z.div_lt_upper_bound; [lia|].
    rewrite Z.pow_add_r by lia.
    assert (a * 2 ^ s < 2 ^ 1024 * 2 ^ s) by nia.
    change (2 ^ 1024) with (2 * 2 ^ 1023) in H. nia. }
  assert (H1 : s <= Z.log2 (a * 2 ^ s / b)).
  { rewrite <- (Z.log2_pow2 s) at 1 by lia. apply Z.log2_le_mono. exact Hlow. }
  assert (H2 : Z.log2 (a * 2 ^ s / b) < 1023 + s).
  { apply Z.log2_lt_pow2; lia. }
  lia.
Qed.

(** With that exponent the quotient has at most 53 bits. *)
Lemma scaled_quotient_small (a b : Z) :
  0 < b -> 0 < a ->
  fst (scaled a b (exponent a b)) / snd (scaled a b (exponent a b)) < 2 ^ 53
  /\ 0 < snd (scaled a b (exponent a b))
  /\ 0 <= fst (scaled a b (exponent a b)).
Proof.
  intros Hb Ha.
  set (s := 54 + Z.log2 b).
  assert (Hs : 54 <= s) by (pose proof (Z.log2_nonneg b); lia).
  assert (Hps : 0 < 2 ^ s) by (apply Z.pow_pos_nonneg; lia).
  set (X := a * 2 ^ s / b).
  assert (Hlb : 2 ^ Z.log2 b <= b < 2 ^ Z.succ (Z.log2 b)) by (apply Z.log2_spec; lia).
  assert (HX : 2 ^ 53 <= X).
  { apply Z.div_le_lower_bound; [lia|].
    unfold s. rewrite Z.pow_add_r by (pose proof (Z.log2_nonneg b); lia).
    rewrite Z.pow_succ_r in Hlb by apply Z.log2_nonneg.
    change (2 ^ 54) with (2 * 2 ^ 53). nia. }
  assert (HXpos : 0 < X) by (assert (0 < 2 ^ 53) by reflexivity; lia).
  pose proof (Z.log2_spec X HXpos) as [_ HXup].
  assert (HL : 53 <= Z.log2 X).
  { rewrite <- (Z.log2_pow2 53) by lia. apply Z.log2_le_mono. exact HX. }
  set (e := exponent a b).
  assert (He : Z.succ (Z.log2 X) = e + 53 + s) by (unfold e, exponent; fold s; fold X; lia).
  rewrite He in HXup. apply div_lt_inv in HXup; [|assumption].
  unfold scaled.
  destruct (Z.leb_spec 0 e) as [Hpos|Hneg]; cbn [fst snd].
  - assert (Hpe : 0 < 2 ^ e) by (apply Z.pow_pos_nonneg; lia).
    repeat split; try nia.
    apply Z.div_lt_upper_bound; [nia|].
    rewrite !Z.pow_add_r in HXup by lia. nia.
  - assert (Hpe : 0 < 2 ^ (- e)) by (apply Z.pow_pos_nonneg; lia).
    repeat split; try nia.
    apply Z.div_lt_upper_bound; [lia|].
    replace (e + 53 + s) with ((s + e) + 53) in HXup by lia.
    assert (Hse : 0 <= s + e) by (unfold e, exponent; fold s; fold X; lia).
    rewrite Z.pow_add_r in HXup by lia.
    replace s with ((s + e) + (- e)) in HXup at 1 by lia.
    rewrite Z.pow_add_r in HXup by lia.
    assert (Hpse : 0 < 2 ^ (s + e)) by (apply Z.pow_pos_nonneg; lia).
    nia.
Qed.

(** Division of a count by a unit gives a value. *)
Lemma true_divide_ok (a b : Z) :
  2 <= b -> b <= a -> a < 2 ^ 1024 ->
  exists f, true_divide a b = Ok f /\ 0 < den f /\ 0 <= num f.
Proof.
  intros Hb Hab Ha.
  pose proof (exponent_range a b Hb Hab Ha) as He.
  destruct (scaled_quotient_small a b ltac:(lia) ltac:(lia)) as (Hq & Hsnd & Hfst).
  unfold true_divide. fold (exponent a b).
  destruct (Z.eqb_spec b 0); [lia|].
  destruct (Z.ltb_spec a 0); [lia|]. destruct (Z.ltb_spec b 0); [lia|].
  cbn [orb]. destruct (Z.eqb_spec a 0); [lia|].
  destruct (Z.ltb_spec (exponent a b) (-1074)); [lia|].
  set (m := round_half_even _ _).
  assert (Hm : 0 <= m <= 2 ^ 53).
  { pose proof (round_half_even_bounds
                  (fst (scaled a b (exponent a b)))
                  (snd (scaled a b (exponent a b))) Hsnd) as [Hlo Hhi].
    fold m in Hlo, Hhi.
    assert (0 <= fst (scaled a b (exponent a b)) / snd (scaled a b (exponent a b)))
      by (apply Z.div_pos; lia).
    lia. }
  destruct (Z.leb_spec 0 (exponent a b)) as [Hpos|Hneg].
  - assert (Hpe : 0 < 2 ^ exponent a b <= 2 ^ 970).
    { split; [apply Z.pow_pos_nonneg; lia|apply Z.pow_le_mono_r; lia]. }
    assert (Hbig : m * 2 ^ exponent a b <= 2 ^ 53 * 2 ^ 970) by nia.
    destruct (Z.leb_spec (2 ^ 1024) (m * 2 ^ exponent a b)) as [Hov|_].
    + exfalso. change (2 ^ 1024) with (2 * (2 ^ 53 * 2 ^ 970)) in Hov.
      assert (0 < 2 ^ 53 * 2 ^ 970) by reflexivity. lia.
    + eexists. split; [reflexivity|]. cbn [den num]. split; [lia|nia].
  - eexists. split; [reflexivity|]. cbn [den num].
    split; [apply Z.pow_pos_nonneg; lia|lia].
Qed.

Lemma tenths_nonneg (f : float) : 0 < den f -> 0 <= num f -> 0 <= tenths f.
Proof.
  intros Hd Hn. unfold tenths.
  pose proof (round_half_even_bounds (10 * num f) (den f) Hd) as [H _].
  assert (0 <= 10 * num f / den f) by (apply Z.div_pos; lia). lia.
Qed.


(** *** Division by a power of two *)

Lemma round_exact (q d : Z) : 0 < d -> round_half_even (q * d) d = q.
Proof.
  intros Hd. unfold round_half_even.
  rewrite Z.mod_mul, Z.div_mul by lia.
  destruct (Z.ltb_spec (2 * 0) d); [reflexivity|lia].
Qed.

(** Dividing a count of at most 53 bits by a power of two is exact. *)
Lemma true_divide_pow2_exact (n k : Z) :
  0 < k -> 2 ^ k <= n -> n < 2 ^ 53 ->
  exists f, true_divide n (2 ^ k) = Ok f
            /\ 0 < den f /\ 0 <= num f /\ num f * 2 ^ k = n * den f.
Proof.
  intros Hk Hlo Hhi.
  assert (Hpk : 0 < 2 ^ k) by (apply Z.pow_pos_nonneg; lia).
  assert (HL : k <= Z.log2 n < 53).
  { split; [apply Z.log2_le_pow2; lia|apply Z.log2_lt_pow2; lia]. }
  unfold true_divide.
  destruct (Z.eqb_spec (2 ^ k) 0); [lia|].
  destruct (Z.ltb_spec n 0); [lia|]. destruct (Z.ltb_spec (2 ^ k) 0); [lia|].
  cbn [orb]. destruct (Z.eqb_spec n 0); [lia|].
  rewrite Z.log2_pow2 by lia.
  replace (n * 2 ^ (54 + k) / 2 ^ k) with (n * 2 ^ 54).
  2:{ rewrite Z.pow_add_r by lia. rewrite Z.mul_assoc, Z.div_mul by lia. reflexivity. }
  rewrite Z.log2_mul_pow2 by lia.
  set (e := 54 + Z.log2 n - 52 - (54 + k)).
  assert (He : -52 <= e <= - k) by (unfold e; lia).
  destruct (Z.ltb_spec e (-1074)); [lia|].
  destruct (Z.leb_spec 0 e); [lia|].
  unfold scaled. destruct (Z.leb_spec 0 e); [lia|]. cbn [fst snd].
  replace (n * 2 ^ (- e)) with (n * 2 ^ (- e - k) * 2 ^ k).
  2:{ rewrite <- Z.mul_assoc, <- Z.pow_add_r by lia. do 2 f_equal. lia. }
  rewrite round_exact by assumption.
  eexists. split; [reflexivity|]. cbn [num den].
  assert (0 < 2 ^ (- e)) by (apply Z.pow_pos_nonneg; lia).
  assert (0 < 2 ^ (- e - k) \/ 0 <= 2 ^ (- e - k)) by (right; apply Z.pow_nonneg; lia).
  assert (0 <= 2 ^ (- e - k)) by (apply Z.pow_nonneg; lia).
  split; [assumption|]. split; [nia|].
  rewrite <- Z.mul_assoc, <- Z.pow_add_r by lia. do 2 f_equal. lia.
Qed.

Lemma nearest_tenth (n d : Z) (f : float) :
  0 < d -> 0 < den f -> num f * d = n * den f ->
  2 * Z.abs (10 * n - tenths f * d) <= d.
Proof.
  intros Hd Hden Heq. unfold tenths.
  pose proof (round_half_even_nearest (10 * num f) (den f) Hden) as Hr.
  set (t := round_half_even (10 * num f) (den f)) in *.
  assert (Hrel : den f * (10 * n - t * d) = d * (10 * num f - t * den f)) by nia.
  assert (Habs : den f * Z.abs (10 * n - t * d) = d * Z.abs (10 * num f - t * den f)).
  { rewrite <- (Z.abs_eq (den f)) at 1 by lia. rewrite <- (Z.abs_eq d) at 2 by lia.
    rewrite <- !Z.abs_mul. now rewrite Hrel. }
  apply Z.mul_le_mono_pos_l with (p := den f); [assumption|]. nia.
Qed.


Lemma exponent_pow2 (n k : Z) :
  0 <= k -> 0 < n -> exponent n (2 ^ k) = Z.log2 n - 52 - k.
Proof.
  intros Hk Hn. unfold exponent.
  assert (Hpk : 0 < 2 ^ k) by (apply Z.pow_pos_nonneg; lia).
  rewrite Z.log2_pow2 by lia.
  replace (n * 2 ^ (54 + k) / 2 ^ k) with (n * 2 ^ 54).
  2:{ rewrite Z.pow_add_r by lia. rewrite Z.mul_assoc, Z.div_mul by lia. reflexivity. }
  rewrite Z.log2_mul_pow2 by lia. lia.
Qed.

(** With the exponent chosen the quotient has at least 53 bits. *)
Lemma scaled_quotient_big (a b : Z) :
  0 < b -> 0 < a ->
  2 ^ 52 * snd (scaled a b (exponent a b)) <= fst (scaled a b (exponent a b)).
Proof.
  intros Hb Ha.
  set (s := 54 + Z.log2 b).
  assert (Hs : 54 <= s) by (pose proof (Z.log2_nonneg b); lia).
  assert (Hps : 0 < 2 ^ s) by (apply Z.pow_pos_nonneg; lia).
  set (X := a * 2 ^ s / b).
  assert (Hlb : 2 ^ Z.log2 b <= b < 2 ^ Z.succ (Z.log2 b)) by (apply Z.log2_spec; lia).
  assert (HX : 2 ^ 53 <= X).
  { apply Z.div_le_lower_bound; [lia|].
    unfold s. rewrite Z.pow_add_r by (pose proof (Z.log2_nonneg b); lia).
    rewrite Z.pow_succ_r in Hlb by apply Z.log2_nonneg.
    change (2 ^ 54) with (2 * 2 ^ 53). nia. }
  assert (HXpos : 0 < X) by (assert (0 < 2 ^ 53) by reflexivity; lia).
  pose proof (Z.log2_spec X HXpos) as [HXlow _].
  assert (HL : 53 <= Z.log2 X).
  { rewrite <- (Z.log2_pow2 53) by lia. apply Z.log2_le_mono. exact HX. }
  set (e := exponent a b).
  assert (He : Z.log2 X = e + 52 + s) by (unfold e, exponent; fold s; fold X; lia).
  rewrite He in HXlow.
  assert (HXb : X * b <= a * 2 ^ s).
  { unfold X. rewrite Z.mul_comm. apply Z.mul_div_le. lia. }
  unfold scaled.
  destruct (Z.leb_spec 0 e) as [Hpos|Hneg]; cbn [fst snd].
  - assert (Hpe : 0 < 2 ^ e) by (apply Z.pow_pos_nonneg; lia).
    replace (e + 52 + s) with (52 + e + s) in HXlow by lia.
    rewrite !Z.pow_add_r in HXlow by lia.
    assert (H52 : 0 < 2 ^ 52) by reflexivity.
    apply Z.mul_le_mono_pos_r with (p := 2 ^ s); [assumption|]. nia.
  - assert (Hpe : 0 < 2 ^ (- e)) by (apply Z.pow_pos_nonneg; lia).
    assert (Hse : 0 <= s + e) by lia.
    replace (e + 52 + s) with (52 + (s + e)) in HXlow by lia.
    rewrite Z.pow_add_r in HXlow by lia.
    assert (Hsplit : 2 ^ s = 2 ^ (- e) * 2 ^ (s + e)).
    { rewrite <- Z.pow_add_r by lia. f_equal. lia. }
    assert (Hpse : 0 < 2 ^ (s + e)) by (apply Z.pow_pos_nonneg; lia).
    assert (H52 : 0 < 2 ^ 52) by reflexivity.
    apply Z.mul_le_mono_pos_r with (p := 2 ^ (s + e)); [assumption|].
    rewrite Hsplit in HXb. nia.
Qed.

(** The quotient [true_divide] gives is the exact quotient up to one
    part in [2^53]. *)
Lemma true_divide_accurate (a b : Z) (f : float) :
  0 < a -> 0 < b -> true_divide a b = Ok f ->
  0 < den f /\ 0 <= num f
  /\ 2 ^ 53 * Z.abs (num f * b - a * den f) <= a * den f.
Proof.
  intros Ha Hb. unfold true_divide. fold (exponent a b).
  destruct (Z.eqb_spec b 0); [lia|].
  destruct (Z.ltb_spec a 0); [lia|]. destruct (Z.ltb_spec b 0); [lia|].
  cbn [orb]. destruct (Z.eqb_spec a 0); [lia|].
  destruct (Z.ltb_spec (exponent a b) (-1074)); [discriminate|].
  pose proof (scaled_quotient_big a b Hb Ha) as Hbig.
  destruct (scaled_quotient_small a b Hb Ha) as (_ & Hsnd & Hfst).
  pose proof (round_half_even_nearest (fst (scaled a b (exponent a b))) _ Hsnd)
    as Hnear.
  pose proof (round_half_even_bounds (fst (scaled a b (exponent a b))) _ Hsnd)
    as [Hlo _].
  assert (Hd : 0 <= fst (scaled a b (exponent a b)) / snd (scaled a b (exponent a b)))
    by (apply Z.div_pos; lia).
  set (m := round_half_even _ _) in *.
  assert (H53 : 2 ^ 53 = 2 * 2 ^ 52) by reflexivity.
  assert (H52 : 0 < 2 ^ 52) by reflexivity.
  unfold scaled in *.
  destruct (Z.leb_spec 0 (exponent a b)) as [Hpos|Hneg]; cbn [fst snd] in *.
  - assert (Hpe : 0 < 2 ^ exponent a b) by (apply Z.pow_pos_nonneg; lia).
    destruct (Z.leb_spec (2 ^ 1024) (m * 2 ^ exponent a b)); [discriminate|].
    intros Hf. injection Hf as <-. cbn [num den].
    split; [lia|]. split; [nia|].
    replace (m * 2 ^ exponent a b * b - a * 1)
      with (- (a - m * (b * 2 ^ exponent a b))) by lia.
    rewrite Z.abs_opp. rewrite H53. nia.
  - assert (Hpe : 0 < 2 ^ (- exponent a b)) by (apply Z.pow_pos_nonneg; lia).
    intros Hf. injection Hf as <-. cbn [num den].
    split; [lia|]. split; [lia|].
    replace (m * b - a * 2 ^ (- exponent a b))
      with (- (a * 2 ^ (- exponent a b) - m * b)) by lia.
    rewrite Z.abs_opp. rewrite H53. nia.
Qed.

(** The figure [.1f] writes for the quotient of [a] by [b]: it is the
    exact quotient up to one twentieth and one part in [2^53]. *)
Lemma figure_accurate (a b : Z) (f : float) :
  0 < a -> 0 < b -> true_divide a b = Ok f ->
  0 <= tenths f
  /\ 2 ^ 54 * Z.abs (10 * a - tenths f * b) <= 20 * a + 2 ^ 53 * b.
Proof.
  intros Ha Hb Hf.
  destruct (true_divide_accurate a b f Ha Hb Hf) as (Hden & Hnum & Hacc).
  split; [now apply tenths_nonneg|].
  unfold tenths.
  pose proof (round_half_even_nearest (10 * num f) (den f) Hden) as Hr.
  set (t := round_half_even (10 * num f) (den f)) in *.
  assert (H54 : 2 ^ 54 = 2 * 2 ^ 53) by reflexivity.
  assert (H53 : 0 < 2 ^ 53) by reflexivity.
  apply Z.mul_le_mono_pos_l with (p := den f); [assumption|].
  assert (Hsplit : den f * (10 * a - t * b)
                   = 10 * (a * den f - num f * b) + b * (10 * num f - t * den f)) by lia.
  assert (Htri : den f * Z.abs (10 * a - t * b)
                 <= 10 * Z.abs (num f * b - a * den f)
                    + b * Z.abs (10 * num f - t * den f)).
  { rewrite <- (Z.abs_eq (den f)) at 1 by lia. rewrite <- Z.abs_mul, Hsplit.
    eapply Z.le_trans; [apply Z.abs_triangle|].
    rewrite !Z.abs_mul, (Z.abs_eq 10), (Z.abs_eq b) by lia.
    replace (a * den f - num f * b) with (- (num f * b - a * den f)) by lia.
    rewrite Z.abs_opp. lia. }
  rewrite H54. nia.
Qed.


Lemma round_up_at_half (n q d : Z) :
  0 < q -> q * d <= n -> 2 * n < 2 * q * (d + 1) -> q * (2 * d + 1) <= 2 * n ->
  Z.even d = false ->
  round_half_even n q = d + 1.
Proof.
  intros Hq Hlo Hhi Hhalf Hodd. unfold round_half_even.
  assert (Hd : n / q = d).
  { symmetry. apply Z.div_unique with (r := n - q * d); lia. }
  pose proof (Z.div_mod n q ltac:(lia)) as Hdm. rewrite Hd in *.
  destruct (Z.ltb_spec (2 * (n mod q)) q); [nia|].
  destruct (Z.ltb_spec q (2 * (n mod q))); [reflexivity|].
  now rewrite Hodd.
Qed.

(** Dividing a count by [2^k] gives a value exactly when the count is
    below [2^(1024+k) - 2^(970+k)]: from there on the quotient rounds to
    [2^1024], which no float holds. *)
Lemma true_divide_pow2_range (n k : Z) :
  0 <= k -> 2 ^ k <= n ->
  (n < 2 ^ (1024 + k) - 2 ^ (970 + k) -> exists f, true_divide n (2 ^ k) = Ok f)
  /\ (2 ^ (1024 + k) - 2 ^ (970 + k) <= n ->
      true_divide n (2 ^ k) = Raise OverflowError).
Proof.
  intros Hk Hlo.
  assert (Hpk : 0 < 2 ^ k) by (apply Z.pow_pos_nonneg; lia).
  assert (Hn : 0 < n) by lia.
  pose proof (exponent_pow2 n k Hk Hn) as He.
  pose proof (Z.log2_spec n Hn) as [HLlo HLhi].
  assert (HLk : k <= Z.log2 n) by (apply Z.log2_le_pow2; lia).
  rewrite !(Z.pow_add_r 2 _ k) by lia.
  assert (C1 : 2 ^ 1024 = 2 ^ 53 * 2 ^ 971) by reflexivity.
  assert (C2 : 2 ^ 971 = 2 * 2 ^ 970) by reflexivity.
  assert (C3 : 2 ^ 53 = 2 * 2 ^ 52) by reflexivity.
  assert (C4 : 0 < 2 ^ 970) by reflexivity.
  assert (C5 : 0 < 2 ^ 52) by reflexivity.
  unfold true_divide. fold (exponent n (2 ^ k)). rewrite He.
  destruct (Z.eqb_spec (2 ^ k) 0); [lia|].
  destruct (Z.ltb_spec n 0); [lia|]. destruct (Z.ltb_spec (2 ^ k) 0); [lia|].
  cbn [orb]. destruct (Z.eqb_spec n 0); [lia|].
  destruct (Z.ltb_spec (Z.log2 n - 52 - k) (-1074)); [lia|].
  remember (Z.log2 n - 52 - k) as e eqn:Ee.
  assert (HL : Z.log2 n = 52 + e + k) by lia.
  clear Ee He.
  rewrite Z.pow_succ_r, HL in HLhi by lia. rewrite HL in HLlo.
  destruct (Z.leb_spec 0 e) as [Hpos|Hneg].
  - (* the quotient is rounded to an integer *)
    rewrite !Z.pow_add_r in HLlo, HLhi by lia.
    unfold scaled. destruct (Z.leb_spec 0 e); [|lia]. cbn [fst snd].
    assert (Hpe : 0 < 2 ^ e) by (apply Z.pow_pos_nonneg; lia).
    set (q := 2 ^ k * 2 ^ e) in *.
    assert (Hq : 0 < q) by (unfold q; nia).
    assert (Hnq : 2 ^ 52 * q <= n < 2 ^ 53 * q) by (unfold q; nia).
    pose proof (round_half_even_nearest n q Hq) as Hnear.
    set (m := round_half_even n q) in *.
    assert (Hnear' : - q <= 2 * (n - m * q) <= q) by lia.
    clear Hnear HLlo HLhi.
    split.
    + intros Hhi.
      assert (Hm : m * 2 ^ e < 2 ^ 1024).
      { destruct (Z.le_gt_cases e 970) as [Hsmall|Hbig].
        - assert (HE : 2 ^ e <= 2 ^ 970) by (apply Z.pow_le_mono_r; lia).
          assert (Hm53 : m <= 2 ^ 53).
          { destruct (Z.le_gt_cases m (2 ^ 53)); [assumption|]. exfalso.
            assert (q * (2 ^ 53 + 1) <= q * m) by (apply Z.mul_le_mono_nonneg_l; lia).
            lia. }
          assert (m * 2 ^ e <= 2 ^ 53 * 2 ^ e)
            by (apply Z.mul_le_mono_nonneg_r; lia).
          assert (2 ^ 53 * 2 ^ e <= 2 ^ 53 * 2 ^ 970)
            by (apply Z.mul_le_mono_nonneg_l; lia).
          lia.
        - assert (e = 971).
          { destruct (Z.le_gt_cases e 971); [lia|]. exfalso.
            assert (HE : 2 ^ 972 <= 2 ^ e) by (apply Z.pow_le_mono_r; lia).
            assert (2 ^ k * 2 ^ 972 <= 2 ^ k * 2 ^ e)
              by (apply Z.mul_le_mono_nonneg_l; lia).
            fold q in H4. lia. }
          subst e.
          assert (Hm53 : m < 2 ^ 53).
          { destruct (Z.lt_ge_cases m (2 ^ 53)); [assumption|]. exfalso.
            assert (q * 2 ^ 53 <= q * m) by (apply Z.mul_le_mono_nonneg_l; lia).
            unfold q in *. lia. }
          assert (m * 2 ^ 971 <= (2 ^ 53 - 1) * 2 ^ 971)
            by (apply Z.mul_le_mono_nonneg_r; lia).
          lia. }
      destruct (Z.leb_spec (2 ^ 1024) (m * 2 ^ e)); [lia|eauto].
    + intros Hge.
      assert (H971 : 971 <= e).
      { destruct (Z.le_gt_cases 971 e); [assumption|]. exfalso.
        assert (HE : 2 ^ e <= 2 ^ 970) by (apply Z.pow_le_mono_r; lia).
        assert (2 ^ k * 2 ^ e <= 2 ^ k * 2 ^ 970)
          by (apply Z.mul_le_mono_nonneg_l; lia).
        fold q in H4. lia. }
      assert (Hm : 2 ^ 1024 <= m * 2 ^ e).
      { destruct (Z.le_gt_cases 972 e) as [Hbig|Hsmall].
        - assert (HE : 2 ^ 972 <= 2 ^ e) by (apply Z.pow_le_mono_r; lia).
          assert (Hm52 : 2 ^ 52 <= m).
          { destruct (Z.le_gt_cases (2 ^ 52) m); [assumption|]. exfalso.
            assert (q * m <= q * (2 ^ 52 - 1)) by (apply Z.mul_le_mono_nonneg_l; lia).
            lia. }
          assert (2 ^ 52 * 2 ^ e <= m * 2 ^ e)
            by (apply Z.mul_le_mono_nonneg_r; lia).
          assert (2 ^ 52 * 2 ^ 972 <= 2 ^ 52 * 2 ^ e)
            by (apply Z.mul_le_mono_nonneg_l; lia).
          lia.
        - assert (e = 971) by lia. subst e.
          assert (Hval : m = 2 ^ 53 - 1 + 1).
          { unfold m. apply round_up_at_half; try reflexivity; unfold q in *; lia. }
          rewrite Hval. reflexivity. }
      destruct (Z.leb_spec (2 ^ 1024) (m * 2 ^ e)); [reflexivity|lia].
  - (* the quotient keeps binary places *)
    destruct (Z.leb_spec 0 e); [lia|]. split; [eauto|].
    intros Hge. exfalso.
    assert (HE : 2 ^ (52 + e + k) <= 2 ^ (51 + k)) by (apply Z.pow_le_mono_r; lia).
    rewrite (Z.pow_add_r 2 51 k) in HE by lia.
    lia.
Qed.

End FloatFacts.

(** ** Properties of the consumer *)

Section FileSize.
Import Bot Float.
Local Open Scope Z_scope.

Lemma tenths_exact (n k : Z) :
  0 < k -> 2 ^ k <= n -> n < 2 ^ 53 ->
  exists f, true_divide n (2 ^ k) = Ok f
            /\ 0 <= tenths f
            /\ 2 * Z.abs (10 * n - tenths f * 2 ^ k) <= 2 ^ k.
Proof.
  intros Hk Hlo Hhi.
  destruct (FloatFacts.true_divide_pow2_exact n k Hk Hlo Hhi)
    as (f & Hf & Hd & Hn & Heq).
  exists f. split; [exact Hf|]. split; [now apply FloatFacts.tenths_nonneg|].
  apply FloatFacts.nearest_tenth; [apply Z.pow_pos_nonneg; lia|assumption|assumption].
Qed.

(** C8, as the code has it. A byte count that is not negative is
    written with binary units.  Below 1024 it is the count and " B".
    From there on it is a figure with one decimal and " KB" below
    1024^2, " MB" below 1024^3 and " GB" above: the figure is the number
    of tenths nearest to the quotient of the count by the unit, the
    quotient being exact for counts below 2^53 and rounded to 53 bits
    above.  This holds up to 2^1054 - 2^1000: from that count on the
    division raises OverflowError.  512 gives "512 B", 2048 gives
    "2.0 KB" and 5242880 gives "5.0 MB". *)
Theorem file_size_units (n : Z) :
  0 <= n ->
  (n < 1024 ->
     _format_file_size (PInt n) = Ok (Json.digits (Z.to_N n) ++ lit " B"))
  /\ (1024 <= n < 1024 ^ 2 ->
        exists t, 0 <= t
          /\ _format_file_size (PInt n) = Ok (one_decimal t ++ lit " KB")
          /\ 2 * Z.abs (10 * n - t * 1024) <= 1024)
  /\ (1024 ^ 2 <= n < 1024 ^ 3 ->
        exists t, 0 <= t
          /\ _format_file_size (PInt n) = Ok (one_decimal t ++ lit " MB")
          /\ 2 * Z.abs (10 * n - t * 1024 ^ 2) <= 1024 ^ 2)
  /\ (1024 ^ 3 <= n < 2 ^ 1054 - 2 ^ 1000 ->
        exists t, 0 <= t
          /\ _format_file_size (PInt n) = Ok (one_decimal t ++ lit " GB")
          /\ 2 ^ 54 * Z.abs (10 * n - t * 1024 ^ 3) <= 20 * n + 2 ^ 53 * 1024 ^ 3
          /\ (n < 2 ^ 53 -> 2 * Z.abs (10 * n - t * 1024 ^ 3) <= 1024 ^ 3))
  /\ (2 ^ 1054 - 2 ^ 1000 <= n ->
        _format_file_size (PInt n) = Raise OverflowError)
  /\ (forall t, 0 <= t ->
        one_decimal t
        = Json.digits (Z.to_N (t / 10)) ++ [46%N; (48 + Z.to_N (t mod 10))%N]
        /\ (Z.to_N (t mod 10) < 10)%N)
  /\ _format_file_size (PInt 512) = Ok (lit "512 B")
  /\ _format_file_size (PInt 2048) = Ok (lit "2.0 KB")
  /\ _format_file_size (PInt 5242880) = Ok (lit "5.0 MB").
Proof.
  intros Hn.
  assert (H2 : 1024 ^ 2 = 1048576) by reflexivity.
  assert (H3 : 1024 ^ 3 = 1073741824) by reflexivity.
  assert (H53 : 2 ^ 53 = 9007199254740992) by reflexivity.
  split; [|split; [|split; [|split; [|split; [|split;
    [|repeat split; vm_compute; reflexivity]]]]]].
  - intros Hlt. unfold _format_file_size.
    destruct (Z.ltb_spec n 1024); [|lia].
    unfold Json.repr_int. destruct (Z.ltb_spec n 0); [lia|].
    now rewrite Zabs2N.abs_N_nonneg by lia.
  - intros [Hlo Hhi]. unfold _format_file_size.
    destruct (Z.ltb_spec n 1024); [lia|].
    destruct (Z.ltb_spec n (1024 ^ 2)); [|lia].
    destruct (tenths_exact n 10 ltac:(lia)
                ltac:(change (2 ^ 10) with 1024; lia) ltac:(rewrite H53; lia))
      as (f & Hf & Ht & Hacc).
    change (2 ^ 10) with 1024 in *. rewrite Hf. cbn [bind].
    exists (tenths f). auto.
  - intros [Hlo Hhi]. unfold _format_file_size.
    destruct (Z.ltb_spec n 1024); [lia|].
    destruct (Z.ltb_spec n (1024 ^ 2)); [lia|].
    destruct (Z.ltb_spec n (1024 ^ 3)); [|lia].
    destruct (tenths_exact n 20 ltac:(lia)
                ltac:(change (2 ^ 20) with 1048576; lia) ltac:(rewrite H53; lia))
      as (f & Hf & Ht & Hacc).
    change (2 ^ 20) with (1024 ^ 2) in *. rewrite Hf. cbn [bind].
    exists (tenths f). auto.
  - intros [Hlo Hhi]. unfold _format_file_size.
    destruct (Z.ltb_spec n 1024); [lia|].
    destruct (Z.ltb_spec n (1024 ^ 2)); [lia|].
    destruct (Z.ltb_spec n (1024 ^ 3)); [lia|].
    destruct (FloatFacts.true_divide_pow2_range n 30 ltac:(lia)
                ltac:(change (2 ^ 30) with 1073741824; lia)) as [Hok _].
    destruct (Hok Hhi) as (f & Hf).
    change (2 ^ 30) with (1024 ^ 3) in *. rewrite Hf. cbn [bind].
    destruct (FloatFacts.figure_accurate n (1024 ^ 3) f ltac:(lia) ltac:(lia) Hf)
      as [Ht Hacc].
    exists (tenths f). split; [exact Ht|]. split; [reflexivity|].
    split; [exact Hacc|].
    intros Hsmall.
    destruct (tenths_exact n 30 ltac:(lia)
                ltac:(change (2 ^ 30) with 1073741824; lia) Hsmall)
      as (f' & Hf' & _ & Hexact).
    change (2 ^ 30) with (1024 ^ 3) in *. rewrite Hf in Hf'.
    injection Hf' as <-. exact Hexact.
  - intros Hlo. unfold _format_file_size.
    assert (Hbig : 1024 ^ 3 <= n).
    { assert (1024 ^ 3 <= 2 ^ 1054 - 2 ^ 1000) by (vm_compute; discriminate). lia. }
    destruct (Z.ltb_spec n 1024); [lia|].
    destruct (Z.ltb_spec n (1024 ^ 2)); [lia|].
    destruct (Z.ltb_spec n (1024 ^ 3)); [lia|].
    destruct (FloatFacts.true_divide_pow2_range n 30 ltac:(lia)
                ltac:(change (2 ^ 30) with 1073741824; lia)) as [_ Hover].
    change (2 ^ 30) with (1024 ^ 3) in *. now rewrite (Hover Hlo).
  - intros t Ht. split; [reflexivity|].
    pose proof (Z.mod_pos_bound t 10 ltac:(lia)). lia.
Qed.

End FileSize.

(** C8 fails as stated from 2^1054 - 2^1000 bytes on: the quotient by
    1024^3 rounds to 2^1024, which no float holds.  One byte less is
    still written. *)
Lemma file_size_overflow :
  Bot._format_file_size (PInt (2 ^ 1054 - 2 ^ 1000)) = Raise OverflowError
  /\ is_ok (Bot._format_file_size (PInt (2 ^ 1054 - 2 ^ 1000 - 1))) = true.
Proof. split; vm_compute; reflexivity. Qed.

Lemma file_size_units_witness :
  exists t, (0 <= t)%Z
    /\ Bot._format_file_size (PInt 3221225472) = Ok (Float.one_decimal t ++ lit " GB")
    /\ (2 * Z.abs (10 * 3221225472 - t * 1024 ^ 3) <= 1024 ^ 3)%Z.
Proof.
  destruct (file_size_units 3221225472 ltac:(lia)) as (_ & _ & _ & H & _).
  destruct H as (t & Ht & Hf & _ & Hexact).
  - split; [vm_compute; discriminate|reflexivity].
  - exists t. split; [exact Ht|]. split; [exact Hf|]. apply Hexact. reflexivity.
Defined.

(** *** A sample consumer *)

Definition digit_of (c : N) : option Z :=
  if Json.is_digit c then Some (Z.of_N (c - 48)) else None.

Definition two_digits (a b : N) : option Z :=
  match digit_of a, digit_of b with
  | Some x, Some y => Some (10 * x + y)%Z
  | _, _ => None
  end.

(** The offset [+HH:MM] or [-HH:MM], in seconds; nothing for no offset. *)
Definition sample_offset (s : str) : option (option Z) :=
  match s with
  | [] => Some None
  | [sign; h1; h2; c; m1; m2] =>
      match two_digits h1 h2, two_digits m1 m2 with
      | Some h, Some m =>
          if (c =? 58) && (h <? 24)%Z && (m <? 60)%Z then
            if sign =? 43 then Some (Some (3600 * h + 60 * m)%Z)
            else if sign =? 45 then Some (Some (- (3600 * h + 60 * m))%Z)
            else None
          else None
      | _, _ => None
      end
  | _ => None
  end.

(** A parser for the texts [isoformat()] writes:
    [YYYY-MM-DD?HH:MM:SS], then [.ffffff] or nothing, then an offset or
    nothing.  It stands for [datetime.fromisoformat] in the samples. *)
Definition sample_fromisoformat (s : str) : result Bot.Datetime :=
  match s with
  | y1 :: y2 :: y3 :: y4 :: d1 :: m1 :: m2 :: d2 :: a1 :: a2 :: _
      :: h1 :: h2 :: c1 :: i1 :: i2 :: c2 :: s1 :: s2 :: rest =>
      match two_digits y1 y2, two_digits y3 y4, two_digits m1 m2, two_digits a1 a2,
            two_digits h1 h2, two_digits i1 i2, two_digits s1 s2 with
      | Some yh, Some yl, Some mo, Some da, Some ho, Some mi, Some se =>
          if (d1 =? 45) && (d2 =? 45) && (c1 =? 58) && (c2 =? 58)
             && (1 <=? mo)%Z && (mo <=? 12)%Z && (1 <=? da)%Z && (da <=? 31)%Z
             && (ho <? 24)%Z && (mi <? 60)%Z && (se <? 60)%Z
          then
            let made us off :=
              Ok {| Bot.year := 100 * yh + yl; Bot.month := mo; Bot.day := da;
                    Bot.hour := ho; Bot.minute := mi; Bot.second := se;
                    Bot.microsecond := us; Bot.utcoffset := off |} in
            match rest with
            | 46 :: f1 :: f2 :: f3 :: f4 :: f5 :: f6 :: rest' =>
                match two_digits f1 f2, two_digits f3 f4, two_digits f5 f6,
                      sample_offset rest' with
                | Some a, Some b, Some c, Some off =>
                    made (10000 * a + 100 * b + c)%Z off
                | _, _, _, _ => Raise ValueError
                end
            | _ =>
                match sample_offset rest with
                | Some off => made 0%Z off
                | None => Raise ValueError
                end
            end
          else Raise ValueError
      | _, _, _, _, _, _, _ => Raise ValueError
      end
  | _ => Raise ValueError
  end.

Definition sample_bot : Bot.Env :=
  {| Bot.environment := lit "dev";
     Bot.fromisoformat := sample_fromisoformat |}.

Definition sample_now : Bot.Datetime :=
  {| Bot.year := 2024; Bot.month := 5; Bot.day := 1;
     Bot.hour := 10; Bot.minute := 0; Bot.second := 7; Bot.microsecond := 0;
     Bot.utcoffset := None |}.

(** Every collaborator answers. *)
Definition all_well : Bot.Answers :=
  {| Bot.channel_found := true;
     Bot.now := sample_now;
     Bot.send_result := Ok tt;
     Bot.delete_result := Ok tt |}.

(** A message of the queue with the body [body]. *)
Definition queue_message (handle : str) (body : py) : py :=
  PDict [(lit "MessageId", PStr (lit "m-" ++ handle));
         (lit "ReceiptHandle", PStr handle);
         (lit "Body", PStr (Json.dumps body))].

Lemma handle_failure_events_only (message : py) (e : exn) (ev : Bot.Event) :
  In ev (snd (Bot.handle_failure message e)) -> exists e', ev = Bot.Error e'.
Proof.
  unfold Bot.handle_failure.
  destruct (is_exception e); [destruct message|]; cbn;
    intros H; try contradiction; destruct H as [<-|[]]; eauto.
Qed.

Section Rendering.
Import Bot.
Variable env : Env.

Lemma embed_has_timestamp
    (current : Datetime) (image object_key stamp metadata : py) (embed : Embed) :
  _create_discord_embed env current image object_key stamp metadata = Ok embed ->
  embed_timestamp env current stamp = Ok (timestamp embed).
Proof.
  intros H. unfold _create_discord_embed in H.
  destruct (embed_timestamp env current stamp) as [ts|e]; [|discriminate].
  cbn [bind] in H.
  destruct (py_get metadata (lit "size") PNone); [|discriminate]. cbn [bind] in H.
  destruct (if truthy a then _ else _); [|discriminate]. cbn [bind] in H.
  destruct (py_get metadata (lit "content_type") PNone); [|discriminate].
  cbn [bind] in H.
  destruct (if truthy a1 then _ else _); [|discriminate]. cbn [bind] in H.
  destruct (filename_of object_key); [|discriminate]. cbn [bind] in H.
  injection H as <-. reflexivity.
Qed.

(** What [_process_single_message] hands to the Renderer. *)
Lemma prepare_ready (a : Answers) (message : py) (embed : Embed) :
  prepare env a message = Ready embed ->
  exists items image object_key stamp metadata,
    load_body message = Ok (PDict items)
    /\ py_get (PDict items) (lit "timestamp") (PStr []) = Ok stamp
    /\ _create_discord_embed env (now a) image object_key stamp metadata = Ok embed.
Proof.
  unfold prepare. destruct (load_body message) as [body|e]; [|discriminate].
  destruct body as [| | | | |items]; try discriminate.
  cbn [py_get bind].
  destruct (negb (truthy _)); [discriminate|].
  destruct (negb (channel_found a)); [discriminate|].
  destruct (_create_discord_embed _ _ _ _ _ _) as [made|e] eqn:E; [|discriminate].
  intros H. injection H as <-. repeat eexists. exact E.
Qed.

(** C4, as the code has it. The Renderer is handed the [timestamp]
    field of the message body, or an empty text when the body has none.
    The timestamp of the embed is the current time when the field is
    absent or empty, and what [datetime.fromisoformat] reads from the
    field, each Z written +00:00, when the field is a text that is not
    empty.  There is no fallback for a text the parser refuses: the
    rendering raises the parser's error, so does
    [_process_single_message], nothing is sent and the message is not
    deleted. *)
Theorem timestamp_or_now (a : Answers) (message : py) :
  (forall embed, prepare env a message = Ready embed ->
     exists items,
       load_body message = Ok (PDict items)
       /\ (lookup (lit "timestamp") items = None -> timestamp embed = now a)
       /\ (forall stamp, lookup (lit "timestamp") items = Some stamp ->
             truthy stamp = false -> timestamp embed = now a)
       /\ (forall stamp, lookup (lit "timestamp") items = Some stamp ->
             truthy stamp = true ->
             exists s, stamp = PStr s
                       /\ fromisoformat env (replace_z s) = Ok (timestamp embed)))
  /\ (forall items image s e,
        load_body message = Ok (PDict items) ->
        lookup (lit "image_url") items = Some image -> truthy image = true ->
        channel_found a = true ->
        lookup (lit "timestamp") items = Some (PStr s) -> s <> [] ->
        fromisoformat env (replace_z s) = Raise e ->
        prepare env a message = Fails e
        /\ _process_single_message env a message = (Raise e, [Error e])
        /\ forall ev, In ev (snd (process_message env a message)) ->
                      exists e', ev = Error e')
  /\ (forall current image object_key s metadata e,
        s <> [] -> fromisoformat env (replace_z s) = Raise e ->
        _create_discord_embed env current image object_key (PStr s) metadata = Raise e)
  /\ (forall s, contains 90 s = false -> replace_z s = s)
  /\ replace_z (lit "2024-05-01T09:59:58Z") = lit "2024-05-01T09:59:58+00:00".
Proof.
  split; [|split; [|split; [|split; [|reflexivity]]]].
  - intros embed H.
    destruct (prepare_ready a message embed H)
      as (items & image & object_key & stamp & metadata & Hload & Hget & Hembed).
    apply embed_has_timestamp in Hembed. unfold embed_timestamp in Hembed.
    cbn [py_get] in Hget. injection Hget as Hget.
    exists items. split; [exact Hload|]. split; [|split].
    + intros Hnone. rewrite Hnone in Hget. subst stamp.
      cbn in Hembed. now injection Hembed as <-.
    + intros v Hv Hfalse. rewrite Hv in Hget. subst stamp.
      rewrite Hfalse in Hembed. now injection Hembed as <-.
    + intros v Hv Htrue. rewrite Hv in Hget. subst stamp.
      rewrite Htrue in Hembed.
      destruct v as [| | |s| |]; try discriminate. eauto.
  - intros items image s e Hload Himage Htruthy Hchannel Hstamp Hs Hparse.
    assert (Hp : prepare env a message = Fails e).
    { unfold prepare. rewrite Hload. cbn [py_get bind].
      rewrite Himage, Hstamp, Htruthy, Hchannel. cbn [negb].
      unfold _create_discord_embed, embed_timestamp.
      destruct s; [congruence|]. cbn [truthy str_eqb negb]. now rewrite Hparse. }
    split; [exact Hp|].
    unfold process_message, _process_single_message. rewrite Hp.
    split; [reflexivity|].
    intros ev. pose proof (handle_failure_events_only message e) as Hev.
    destruct (handle_failure message e) as [c more]. cbn [snd app] in *.
    intros [<-|Hin]; [eauto|auto].
  - intros current image object_key s metadata e Hs H.
    unfold _create_discord_embed, embed_timestamp.
    destruct s; [congruence|]. cbn [truthy str_eqb negb]. now rewrite H.
  - intros s. unfold contains, replace_z.
    induction s as [|c s IH]; [reflexivity|].
    cbn [existsb flat_map]. intros H. apply orb_false_elim in H as [Hc Hs].
    rewrite N.eqb_sym, Hc, IH by exact Hs. reflexivity.
Qed.

End Rendering.

(** The body of a notification whose timestamp is no ISO text. *)
Definition body_with_bad_timestamp : py :=
  PDict [(lit "image_url", PStr (lit "https://signed.example/a.png"));
         (lit "object_key", PStr (lit "a.png"));
         (lit "timestamp", PStr (lit "not-a-date"));
         (lit "metadata", PDict [])].

(** The body of a notification without a timestamp. *)
Definition body_without_timestamp : py :=
  PDict [(lit "image_url", PStr (lit "https://signed.example/a.png"));
         (lit "object_key", PStr (lit "a.png"));
         (lit "metadata", PDict [])].

(** C4 fails as stated: a timestamp that is no ISO text makes the
    rendering raise, and the message is neither delivered nor deleted. *)
Lemma malformed_timestamp_raises :
  Bot._create_discord_embed sample_bot sample_now
    (PStr (lit "https://signed.example/a.png")) (PStr (lit "a.png"))
    (PStr (lit "not-a-date")) (PDict [])
  = Raise ValueError
  /\ Bot.process_message sample_bot all_well
       (queue_message (lit "rh-1") body_with_bad_timestamp)
     = (Bot.Next, [Bot.Error ValueError; Bot.Error ValueError]).
Proof. split; vm_compute; reflexivity. Qed.

Lemma timestamp_or_now_witness :
  exists embed,
    Bot.prepare sample_bot all_well (queue_message (lit "rh-1") body_without_timestamp)
    = Bot.Ready embed
    /\ Bot.timestamp embed = sample_now.
Proof.
  assert (Hp : exists embed,
            Bot.prepare sample_bot all_well
              (queue_message (lit "rh-1") body_without_timestamp) = Bot.Ready embed)
    by (vm_compute; eexists; reflexivity).
  destruct Hp as (embed & Hp). exists embed. split; [exact Hp|].
  destruct (timestamp_or_now sample_bot all_well
              (queue_message (lit "rh-1") body_without_timestamp)) as (H & _).
  destruct (H embed Hp) as (items & Hload & Hnone & _).
  vm_compute in Hload. injection Hload as <-.
  apply Hnone. reflexivity.
Defined.

Section Dispatch.
Import Bot.
Variable env : Env.

Lemma handle_failure_no_delete (message : py) (e : exn) (h : py) :
  ~ In (DeleteMessage h) (snd (handle_failure message e)).
Proof.
  unfold handle_failure.
  destruct (is_exception e); [destruct message|]; cbn; intuition discriminate.
Qed.

Lemma handle_failure_no_send (message : py) (e : exn) (embed : Embed) :
  ~ In (Send embed) (snd (handle_failure message e)).
Proof.
  unfold handle_failure.
  destruct (is_exception e); [destruct message|]; cbn; intuition discriminate.
Qed.

Lemma handle_failure_events (message : py) (e : exn) (ev : Event) :
  In ev (snd (handle_failure message e)) -> exists e', ev = Error e'.
Proof.
  unfold handle_failure.
  destruct (is_exception e); [destruct message|]; cbn;
    intros H; try contradiction; destruct H as [<-|[]]; eauto.
Qed.

(** The delete call is made for the receipt handle of the message,
    first of all, and once. *)
Lemma delete_after_events (a : Answers) (message : py) :
  (exists handle more,
     py_getitem message (lit "ReceiptHandle") = Ok handle
     /\ snd (delete_after a message) = DeleteMessage handle :: more
     /\ (forall ev, In ev more -> exists e, ev = Error e))
  \/ (exists e,
        py_getitem message (lit "ReceiptHandle") = Raise e
        /\ forall ev, In ev (snd (delete_after a message)) -> exists e', ev = Error e').
Proof.
  unfold delete_after.
  destruct (py_getitem message (lit "ReceiptHandle")) as [handle|e].
  - left. destruct (delete_result a) as [u|e].
    + exists handle, []. repeat split. intros ev [].
    + exists handle, (snd (handle_failure message e)).
      split; [reflexivity|]. split.
      * now destruct (handle_failure message e).
      * intros ev. apply handle_failure_events.
  - right. exists e. split; [reflexivity|].
    intros ev. apply handle_failure_events.
Qed.

Lemma delete_after_in (a : Answers) (message : py) (h : py) :
  In (DeleteMessage h) (snd (delete_after a message))
  <-> py_getitem message (lit "ReceiptHandle") = Ok h.
Proof.
  destruct (delete_after_events a message)
    as [(handle & more & Hg & -> & Hm)|(e & Hg & Hm)]; rewrite Hg.
  - split.
    + intros [H|H]; [congruence|]. apply Hm in H as (e & H). discriminate.
    + intros H. injection H as ->. now left.
  - split; [|discriminate]. intros H. apply Hm in H as (e' & H). discriminate.
Qed.

Lemma delete_after_no_send (a : Answers) (message : py) (embed : Embed) :
  ~ In (Send embed) (snd (delete_after a message)).
Proof.
  destruct (delete_after_events a message)
    as [(handle & more & Hg & -> & Hm)|(e & Hg & Hm)].
  - intros [H|H]; [discriminate|]. apply Hm in H as (e & H). discriminate.
  - intros H. apply Hm in H as (e' & H). discriminate.
Qed.

(** C1, as the code has it. For a fetched message the consumer issues
    the delete call exactly when [_process_single_message] returns
    without raising, which it does when the notification was delivered
    and also when the body has no image URL: that message is skipped
    with a warning and then deleted.  The delete call follows the
    delivery: no send comes after it. *)
Theorem delete_iff_processing_returns (a : Answers) (message : py) :
  let returned := fst (_process_single_message env a message) in
  let events := snd (process_message env a message) in
  (forall h, In (DeleteMessage h) events
             <-> returned = Ok tt
                 /\ py_getitem message (lit "ReceiptHandle") = Ok h)
  /\ (returned = Ok tt
      <-> (exists embed, prepare env a message = Ready embed /\ send_result a = Ok tt)
          \/ (exists body, prepare env a message = Skip body))
  /\ (forall body, prepare env a message = Skip body ->
        events = Warning body :: snd (delete_after a message))
  /\ (forall before h after, events = before ++ DeleteMessage h :: after ->
        forall embed, ~ In (Send embed) after).
Proof.
  intros returned events. subst returned events.
  unfold process_message, _process_single_message.
  destruct (prepare env a message) as [body|embed|e].
  - (* no image URL *)
    cbn [fst snd].
    destruct (delete_after a message) as [c more] eqn:Hd.
    cbn [fst snd app].
    pose proof (delete_after_in a message) as Hin. rewrite Hd in Hin. cbn [snd] in Hin.
    pose proof (delete_after_no_send a message) as Hns. rewrite Hd in Hns. cbn [snd] in Hns.
    split; [|split; [|split]].
    + intros h. split.
      * intros [H|H]; [discriminate|]. split; [reflexivity|now apply Hin].
      * intros [_ H]. right. now apply Hin.
    + split; [intros _; right; eauto|reflexivity].
    + intros body' H. now injection H as <-.
    + intros before h after H embed Hin'.
      assert (Hall : In (Send embed) (Warning body :: more)).
      { rewrite H. apply in_or_app. right. now right. }
      destruct Hall as [Hall|Hall]; [discriminate|]. now apply Hns in Hall.
  - (* an embed is sent *)
    destruct (send_result a) as [[]|e] eqn:Hsend; cbn [fst snd].
    + destruct (delete_after a message) as [c more] eqn:Hd.
      cbn [fst snd app].
      pose proof (delete_after_in a message) as Hin. rewrite Hd in Hin. cbn [snd] in Hin.
      pose proof (delete_after_no_send a message) as Hns. rewrite Hd in Hns.
      cbn [snd] in Hns.
      split; [|split; [|split]].
      * intros h. split.
        -- intros [H|H]; [discriminate|]. split; [reflexivity|now apply Hin].
        -- intros [_ H]. right. now apply Hin.
      * split; [intros _; left; eauto|reflexivity].
      * discriminate.
      * intros before h after H embed' Hin'.
        destruct (delete_after_events a message)
          as [(handle & more' & Hg & Hev & Hm)|(e & Hg & Hm)];
          rewrite Hd in *; cbn [snd] in *.
        -- subst more.
           destruct before as [|x before]; [discriminate|].
           injection H as _ H.
           destruct before as [|y before].
           ++ injection H as _ <-. apply Hm in Hin' as (e & He). discriminate.
           ++ injection H as _ H.
              assert (Hall : In (Send embed') more').
              { rewrite H. apply in_or_app. right. now right. }
              apply Hm in Hall as (e & He). discriminate.
        -- assert (Hall : In (DeleteMessage h) (Send embed :: more)).
           { rewrite H. apply in_or_app. right. now left. }
           destruct Hall as [Hall|Hall]; [discriminate|].
           apply Hm in Hall as (e' & He). discriminate.
    + destruct (handle_failure message e) as [c more] eqn:Hf.
      cbn [fst snd].
      pose proof (handle_failure_no_delete message e) as Hnd. rewrite Hf in Hnd.
      cbn [snd] in Hnd.
      assert (Hnone : forall h,
                ~ In (DeleteMessage h)
                    ((if is_exception e then [Send embed; Error e] else [Send embed])
                     ++ more)).
      { intros h H. apply in_app_or in H as [H|H]; [|now apply Hnd in H].
        destruct (is_exception e); cbn in H; intuition discriminate. }
      split; [|split; [|split]].
      * intros h. split; [intros H; now apply Hnone in H|intros [H _]; discriminate].
      * split; [discriminate|].
        intros [(embed' & _ & H)|(body & H)]; discriminate.
      * discriminate.
      * intros before h after H. exfalso. apply (Hnone h). rewrite H.
        apply in_or_app. right. now left.
  - (* raised before the send *)
    cbn [fst snd].
    destruct (handle_failure message e) as [c more] eqn:Hf.
    cbn [fst snd app].
    pose proof (handle_failure_no_delete message e) as Hnd. rewrite Hf in Hnd.
    cbn [snd] in Hnd.
    split; [|split; [|split]].
    + intros h. split; [|intros [H _]; discriminate].
      intros [H|H]; [discriminate|]. now apply Hnd in H.
    + split; [discriminate|].
      intros [(embed' & H & _)|(body & H)]; discriminate.
    + discriminate.
    + intros before h after H. exfalso. apply (Hnd h).
      assert (Hall : In (DeleteMessage h) (Error e :: more)).
      { rewrite H. apply in_or_app. right. now left. }
      destruct Hall as [Hall|Hall]; [discriminate|assumption].
Qed.

End Dispatch.

(** The body of a notification without its image URL. *)
Definition body_without_url : py :=
  PDict [(lit "object_key", PStr (lit "a.png"));
         (lit "timestamp", PStr (lit "2024-05-01T09:59:58"))].

(** C1 fails as stated: a message whose body lacks the image URL is
    deleted, with nothing delivered. *)
Lemma missing_image_url_is_deleted :
  Bot.load_body (queue_message (lit "rh-1") body_without_url) = Ok body_without_url
  /\ lookup (lit "image_url") [(lit "object_key", PStr (lit "a.png"));
                               (lit "timestamp", PStr (lit "2024-05-01T09:59:58"))]
     = None
  /\ Bot.process_message sample_bot all_well (queue_message (lit "rh-1") body_without_url)
     = (Bot.Next,
        [Bot.Warning body_without_url; Bot.DeleteMessage (PStr (lit "rh-1"))]).
Proof. repeat split; vm_compute; reflexivity. Qed.

Lemma delete_iff_processing_returns_witness :
  In (Bot.DeleteMessage (PStr (lit "rh-1")))
     (snd (Bot.process_message sample_bot all_well
             (queue_message (lit "rh-1") body_without_url))).
Proof.
  destruct (delete_iff_processing_returns sample_bot all_well
              (queue_message (lit "rh-1") body_without_url)) as (H & _).
  apply H. split; vm_compute; reflexivity.
Defined.

Section Polling.
Import Bot.
Variable env : Env.

(** The two parts of a message's processing make up the whole. *)
Lemma process_message_parts (a : Answers) (message : py) :
  process_message env a message
  = match start_message env a message with
    | inl done => done
    | inr embed =>
        let (c, more) := finish_send a message in (c, Send embed :: more)
    end.
Proof.
  unfold process_message, _process_single_message, start_message, finish_send.
  destruct (prepare env a message) as [body|embed|e].
  - now destruct (delete_after a message).
  - destruct (send_result a) as [u|e].
    + now destruct (delete_after a message).
    + destruct (handle_failure message e) as [c more].
      now destruct (is_exception e).
  - now destruct (handle_failure message e).
Qed.

(** No invocation waits, or one does and the flag is set. *)
Definition one_at_most (st : State) : Prop :=
  waiting st = []
  \/ (processing_active st = true /\ exists cycle, waiting st = [cycle]).

Lemma leave_idle (st : State) (events : list Event) (c : Completion) :
  waiting st = [] -> one_at_most (leave st events c).
Proof. intros H. left. exact H. Qed.

Lemma continue_one (st : State) (answers : nat -> Answers) (i : nat)
    (events : list Event) (messages : list py) :
  waiting st = [] -> processing_active st = true ->
  one_at_most (continue env st answers i events messages).
Proof.
  intros Hw Ha. unfold continue.
  destruct (advance env answers i messages) as [more [c|cycle]].
  - now apply leave_idle.
  - right. cbn [processing_active waiting]. rewrite Hw.
    split; [assumption|]. exists cycle. reflexivity.
Qed.

Lemma act_keeps_one (st : State) (a : Action) :
  one_at_most st -> one_at_most (act env st a).
Proof.
  intros Hinv. destruct a as [response answers| |]; cbn [act].
  - unfold tick.
    destruct (negb (running st) || processing_active st) eqn:Hguard; [assumption|].
    apply orb_false_elim in Hguard as [_ Hactive].
    assert (Hw : waiting st = []).
    { destruct Hinv as [H|[H _]]; [assumption|congruence]. }
    destruct (fetched response) as [[|m messages]|e].
    + now apply leave_idle.
    + now apply continue_one.
    + now apply leave_idle.
  - unfold resume. destruct (waiting st) as [|cycle others] eqn:Hw; [assumption|].
    destruct Hinv as [H|[Hactive (cycle' & H)]]; [congruence|].
    rewrite Hw in H. injection H as _ ->.
    cbv zeta; destruct (finish_send _ (sending cycle)) as [[|e|] events].
    + now apply continue_one.
    + now apply leave_idle.
    + now apply leave_idle.
  - destruct Hinv as [H|H]; [left|right]; exact H.
Qed.

Lemma run_keeps_one (actions : list Action) : one_at_most (run env actions).
Proof.
  unfold run.
  enough (H : forall st, one_at_most st -> one_at_most (fold_left (act env) actions st)).
  { apply H. now left. }
  induction actions as [|a actions IH]; intros st Hst; cbn [fold_left]; auto.
  apply IH. now apply act_keeps_one.
Qed.

(** C5. Whatever has happened to the bot, a tick that comes while an
    invocation of the task has not returned changes nothing: the state
    and the trace stay as they are, so no second fetch is issued; and
    never do two invocations wait at once. *)
Theorem tick_while_polling_is_noop
    (actions : list Action) (response : result py) (answers : nat -> Answers) :
  (waiting (run env actions) <> [] ->
     tick env response answers (run env actions) = run env actions)
  /\ (processing_active (run env actions) = true ->
        tick env response answers (run env actions) = run env actions)
  /\ (List.length (waiting (run env actions)) <= 1)%nat.
Proof.
  pose proof (run_keeps_one actions) as Hinv.
  assert (Hflag : forall st, processing_active st = true ->
                             tick env response answers st = st).
  { intros st H. unfold tick. rewrite H. now rewrite orb_true_r. }
  split; [|split].
  - intros Hw. apply Hflag.
    destruct Hinv as [H|[H _]]; [contradiction|assumption].
  - apply Hflag.
  - destruct Hinv as [->|[_ (cycle & ->)]]; cbn; lia.
Qed.

End Polling.

(** A response of [receive_message] with the messages [messages]. *)
Definition queue_response (messages : list py) : result py :=
  Ok (PDict [(lit "Messages", PList messages)]).

Definition sample_notification : py :=
  PDict [(lit "image_url", PStr (lit "https://signed.example/a.png"));
         (lit "object_key", PStr (lit "cats/a.png"));
         (lit "timestamp", PStr (lit "2024-05-01T09:59:58"));
         (lit "environment", PStr (lit "dev"));
         (lit "metadata", PDict [(lit "size", PInt 2048)])].

Lemma tick_while_polling_is_noop_witness :
  Bot.waiting
    (Bot.run sample_bot
       [Bot.Tick (queue_response [queue_message (lit "rh-1") sample_notification])
          (fun _ => all_well)]) <> []
  /\ Bot.run sample_bot
       [Bot.Tick (queue_response [queue_message (lit "rh-1") sample_notification])
          (fun _ => all_well);
        Bot.Tick (queue_response [queue_message (lit "rh-2") sample_notification])
          (fun _ => all_well)]
     = Bot.run sample_bot
         [Bot.Tick (queue_response [queue_message (lit "rh-1") sample_notification])
            (fun _ => all_well)].
Proof.
  assert (H : Bot.waiting
                (Bot.run sample_bot
                   [Bot.Tick (queue_response
                                [queue_message (lit "rh-1") sample_notification])
                      (fun _ => all_well)]) <> []).
  { vm_compute. discriminate. }
  split; [exact H|].
  destruct (tick_while_polling_is_noop sample_bot
              [Bot.Tick (queue_response [queue_message (lit "rh-1") sample_notification])
                 (fun _ => all_well)]
              (queue_response [queue_message (lit "rh-2") sample_notification])
              (fun _ => all_well)) as (Hnoop & _).
  exact (Hnoop H).
Defined.

(** *** What the Publisher writes, the Dispatcher reads *)

(** The texts of a response of [head_object]. *)
Definition head_ok (r : Lambda.HeadObject) : bool :=
  str_ok (Lambda.or_default (Lambda.LastModified r) [])
  && str_ok (Lambda.or_default (Lambda.ContentType r) [])
  && str_ok (Lambda.or_default (Lambda.ETag r) [])
  && match Lambda.Metadata r with
     | Some m =>
         keys_distinct (List.map fst m)
         && forallb (fun kv => str_ok (fst kv) && str_ok (snd kv)) m
     | None => true
     end.

(** The collaborators hand over text as Python holds it: the name of
    the environment, the signed URL of a key that is text, the clock's
    text, what [str()] gives, and the texts of the object's headers,
    whose metadata is a dict. *)
Definition texts_ok (env : Lambda.Env) : Prop :=
  str_ok (Lambda.or_default (Lambda.ENVIRONMENT env) (lit "dev")) = true
  /\ (forall bucket_name object_key url,
        str_ok object_key = true ->
        Lambda.generate_presigned_url env bucket_name object_key = Ok url ->
        str_ok url = true)
  /\ (forall n, str_ok (Lambda.utcnow_isoformat env n) = true)
  /\ (forall v, str_ok (Lambda.py_str env v) = true)
  /\ (forall bucket_name object_key r,
        Lambda.head_object env bucket_name object_key = Ok r -> head_ok r = true).

Section RoundTrip.
Import Lambda.
Variable env : Env.

Lemma lookup_ok (k : str) (items : list (str * py)) (x : py) :
  forallb (fun kv => str_ok (fst kv) && py_ok (snd kv)) items = true ->
  lookup k items = Some x -> py_ok x = true.
Proof.
  induction items as [|[k' v] items IH]; [discriminate|].
  cbn [forallb lookup fst snd]. intros H. apply andb_prop in H as [H1 H2].
  apply andb_prop in H1 as [_ Hv].
  destruct (str_eqb k k'); [intros E; now injection E as <-|auto].
Qed.

Lemma py_get_ok (v : py) (k : str) (default x : py) :
  py_ok v = true -> py_ok default = true -> py_get v k default = Ok x ->
  py_ok x = true.
Proof.
  destruct v as [| | | | |items]; try discriminate. cbn [py_get py_ok].
  intros Hv Hd H. injection H as <-. apply andb_prop in Hv as [_ Hv].
  destruct (lookup k items) as [y|] eqn:E; [|exact Hd].
  exact (lookup_ok k items y Hv E).
Qed.

Lemma py_iter_ok (v : py) (l : list py) :
  py_ok v = true -> py_iter v = Ok l -> forallb py_ok l = true.
Proof.
  destruct v as [| | |s|l'|items]; try discriminate; cbn [py_iter py_ok];
    intros Hv H; injection H as <-.
  - induction s as [|c s IH]; [reflexivity|].
    destruct (JsonFacts.str_ok_head _ _ Hv) as [Hc _].
    cbn [List.map forallb py_ok str_ok].
    rewrite IH by (eapply JsonFacts.str_ok_tail; exact Hv).
    apply N.ltb_lt in Hc. rewrite Hc, !andb_false_r. reflexivity.
  - exact Hv.
  - apply andb_prop in Hv as [_ Hv].
    induction items as [|[k x] items IH]; [reflexivity|].
    cbn [List.map forallb fst snd py_ok] in *.
    apply andb_prop in Hv as [H1 H2]. apply andb_prop in H1 as [H1 _].
    now rewrite H1, IH.
Qed.

Lemma read_records_ok (event : py) (records : list py) :
  py_ok event = true -> read_records event = Ok records ->
  forallb py_ok records = true.
Proof.
  unfold read_records. intros He H.
  apply bind_ok in H as (rs & E1 & H). apply bind_ok in H as (n & _ & H).
  apply (py_iter_ok rs); [|exact H].
  now apply (py_get_ok event (lit "Records") (PList [])).
Qed.

Lemma location_ok (record bucket_name : py) (object_key : str) :
  py_ok record = true -> s3_location record = Ok (bucket_name, object_key) ->
  py_ok bucket_name = true /\ str_ok object_key = true.
Proof.
  unfold s3_location. intros Hr H.
  apply bind_ok in H as (s3_info & E1 & H).
  apply bind_ok in H as (bucket_obj & E2 & H).
  apply bind_ok in H as (name & E3 & H).
  apply bind_ok in H as (object_obj & E4 & H).
  apply bind_ok in H as (raw_key & E5 & H).
  apply bind_ok in H as (decoded & E6 & H).
  injection H as -> ->.
  apply py_get_ok in E1; [|assumption|reflexivity].
  apply py_get_ok in E2; [|assumption|reflexivity].
  apply py_get_ok in E3; [|assumption|reflexivity].
  apply py_get_ok in E4; [|assumption|reflexivity].
  apply py_get_ok in E5; [|assumption|reflexivity].
  split; [exact E3|].
  destruct raw_key as [| | |raw| |]; try discriminate.
  exact (TextFacts.unquote_plus_ok raw object_key E5 E6).
Qed.

Lemma metadata_ok (bucket_name : py) (object_key : str) :
  texts_ok env -> py_ok (_get_object_metadata env bucket_name object_key) = true.
Proof.
  intros (_ & _ & _ & _ & Hhead). unfold _get_object_metadata.
  destruct (head_object env bucket_name object_key) as [r|e] eqn:E; [|reflexivity].
  specialize (Hhead _ _ _ E). unfold head_ok in Hhead.
  apply andb_prop in Hhead as [Hhead Hm]. apply andb_prop in Hhead as [Hhead Het].
  apply andb_prop in Hhead as [Hlm Hct].
  cbn [py_ok List.map fst snd forallb]. rewrite Hlm, Hct.
  rewrite (TextFacts.strip_ok 34 _ Het).
  assert (Hmeta : py_ok (PDict match Metadata r with
                               | Some m => List.map (fun kv => (fst kv, PStr (snd kv))) m
                               | None => []
                               end) = true).
  { destruct (Metadata r) as [m|]; [|reflexivity].
    apply andb_prop in Hm as [Hk Hv]. cbn [py_ok].
    assert (Hfst : List.map fst (List.map (fun kv : str * str => (fst kv, PStr (snd kv))) m)
                   = List.map fst m)
      by (rewrite map_map; apply map_ext; reflexivity).
    rewrite Hfst, Hk. cbn [andb]. clear Hk Hfst. induction m as [|kv m IH]; [reflexivity|].
    cbn [List.map forallb fst snd py_ok] in *.
    apply andb_prop in Hv as [H1 H2]. now rewrite H1, IH. }
  cbn [py_ok] in Hmeta. rewrite Hmeta. reflexivity.
Qed.

Lemma encoded_is_scalar (s : str) (bs : list N) :
  str_ok s = true -> Urllib.utf8_encode s = Ok bs -> forallb UrlFacts.scalar s = true.
Proof.
  revert bs. induction s as [|c s IH]; intros bs Hs H; [reflexivity|].
  cbn [Urllib.utf8_encode] in H. apply bind_ok in H as (bs' & E & H).
  destruct (JsonFacts.str_ok_head _ _ Hs) as [Hc _].
  cbn [forallb]. rewrite (IH bs' (JsonFacts.str_ok_tail _ _ Hs) E), andb_true_r.
  unfold UrlFacts.scalar.
  destruct (c <? 0x80) eqn:E1; [N_cases; try discriminate; try reflexivity; lia|].
  destruct (c <? 0x800) eqn:E2; [N_cases; try discriminate; try reflexivity; lia|].
  destruct ((0xD800 <=? c) && (c <=? 0xDFFF)) eqn:E3; [discriminate|].
  N_cases; try discriminate; try reflexivity; lia.
Qed.

Lemma quote_ascii (s quoted : str) :
  str_ok s = true -> Urllib.quote s = Ok quoted ->
  forallb UrlFacts.is_ascii quoted = true.
Proof.
  intros Hs H. unfold Urllib.quote in H. apply bind_ok in H as (bs & E & H).
  injection H as <-.
  pose proof (encoded_is_scalar s bs Hs E) as Hsc.
  destruct (UrlFacts.encode_decode s Hsc) as (bs' & E' & Hbytes & _).
  rewrite E in E'. injection E' as <-.
  now destruct (UrlFacts.quote_bytes bs Hbytes) as (_ & _ & H).
Qed.

Lemma url_ok (bucket_name : py) (object_key url : str) :
  texts_ok env -> py_ok bucket_name = true -> str_ok object_key = true ->
  _generate_image_url env bucket_name object_key = Ok url -> str_ok url = true.
Proof.
  intros (_ & Hsigned & _ & Hstr & _) Hb Hk. unfold _generate_image_url.
  destruct (generate_presigned_url env bucket_name object_key) as [u|e] eqn:E.
  - intros H. injection H as <-. eauto.
  - intros H. apply bind_ok in H as (quoted & Eq & H). injection H as <-.
    pose proof (quote_ascii object_key quoted Hk Eq) as Hq.
    apply (TextFacts.str_ok_scalar_app (lit "https://")); [reflexivity|].
    apply (TextFacts.str_ok_app (format_py env bucket_name)).
    + unfold format_py. destruct bucket_name; auto.
    + apply (TextFacts.str_ok_scalar_app (lit ".s3.amazonaws.com/")); [reflexivity|].
      now apply TextFacts.str_ok_ascii.
    + exact (eq_refl false).
Qed.

Lemma notification_ok (self : ImageProcessor)
    (stamp image object_key : str) (metadata : py) :
  str_ok stamp = true -> str_ok image = true -> str_ok object_key = true ->
  str_ok (environment self) = true -> py_ok metadata = true ->
  py_ok (_create_sqs_message self stamp image object_key metadata) = true.
Proof.
  intros Hs Hi Hk He Hm. unfold _create_sqs_message.
  cbn [py_ok List.map fst snd forallb]. rewrite Hi, Hk, Hs, He, Hm. reflexivity.
Qed.

(** The calls made for one record. *)
Lemma record_calls (self : ImageProcessor)
    (sent : nat) (record : py) (call : SendMessage) :
  In call (snd (process_record env self sent record)) ->
  exists bucket_name object_key image,
    s3_location record = Ok (bucket_name, object_key)
    /\ _generate_image_url env bucket_name object_key = Ok image
    /\ call = sqs_call self
                (_create_sqs_message self (utcnow_isoformat env sent) image object_key
                   (_get_object_metadata env bucket_name object_key)).
Proof.
  unfold process_record.
  destruct (s3_location record) as [[bucket_name object_key]|e]; [|intros []].
  destruct (negb (truthy bucket_name) || negb (truthy (PStr object_key)));
    [intros []|].
  destruct (negb (_is_valid_image_file env object_key)); [intros []|].
  destruct (_generate_image_url env bucket_name object_key) as [image|e] eqn:E;
    [|intros []].
  unfold _send_to_sqs. intros H.
  assert (Hin : In call
                  [sqs_call self
                     (_create_sqs_message self (utcnow_isoformat env sent) image
                        object_key (_get_object_metadata env bucket_name object_key))]).
  { destruct (send_message env _); exact H. }
  destruct Hin as [<-|[]]. exists bucket_name, object_key, image.
  split; [reflexivity|]. split; [exact E|reflexivity].
Qed.

(** The calls made for a batch are made for its records. *)
Lemma batch_calls (self : ImageProcessor)
    (records : list py) (call : SendMessage) : forall st,
  In call (calls (fold_left (step env self) records st)) ->
  In call (calls st)
  \/ exists record sent,
       In record records /\ In call (snd (process_record env self sent record)).
Proof.
  induction records as [|r records IH]; intros st; cbn [fold_left]; [auto|].
  intros H. apply IH in H as [H|(record & sent & Hin & H)].
  - unfold step in H.
    destruct (process_record env self (List.length (calls st)) r) as [o made] eqn:E.
    cbn [calls] in H. apply in_app_or in H as [H|H]; [auto|].
    right. exists r, (List.length (calls st)). rewrite E. split; [now left|exact H].
  - right. exists record, sent. split; [now right|exact H].
Qed.

(** C7. Every notification the Publisher puts on the queue comes back
    from the Dispatcher's parser as it was made: the same image URL,
    object key, timestamp and metadata.  The event is a value as JSON
    decoding gives it, and so is every text the collaborators hand
    over; the key is the decoded key of a record of the event, the URL
    the signed or the fallback URL, the metadata what [head_object]
    gave. *)
Theorem notification_round_trip (event message : py) (call : SendMessage) :
  texts_ok env -> py_ok event = true ->
  In call (snd (lambda_handler env event)) ->
  py_getitem message (lit "Body") = Ok (PStr (MessageBody call)) ->
  exists processor record bucket_name stamp image object_key,
    init env = Ok processor
    /\ s3_location record = Ok (bucket_name, object_key)
    /\ _generate_image_url env bucket_name object_key = Ok image
    /\ let metadata := _get_object_metadata env bucket_name object_key in
       let notification :=
         _create_sqs_message processor stamp image object_key metadata in
       MessageBody call = Json.dumps notification
       /\ exists body,
            Bot.load_body message = Ok body
            /\ py_get body (lit "image_url") PNone = Ok (PStr image)
            /\ py_get body (lit "object_key") (PStr (lit "unknown"))
               = Ok (PStr object_key)
            /\ py_get body (lit "timestamp") (PStr []) = Ok (PStr stamp)
            /\ py_get body (lit "metadata") (PDict []) = Ok metadata.
Proof.
  intros Htexts Hevent Hin Hbody.
  unfold lambda_handler in Hin.
  destruct (init env) as [processor|e] eqn:Hinit; [|destruct Hin].
  destruct (process_s3_event env processor event) as [r made] eqn:Hp.
  cbn [snd] in Hin. unfold process_s3_event in Hp. injection Hp as _ <-.
  destruct (read_records event) as [records|e] eqn:Hread; [|destruct Hin].
  pose proof (read_records_ok event records Hevent Hread) as Hrecords.
  assert (Hself : str_ok (environment processor) = true).
  { unfold init in Hinit.
    apply bind_ok in Hinit as (u1 & _ & Hinit). apply bind_ok in Hinit as (u2 & _ & Hinit).
    destruct (SQS_QUEUE_URL env) as [[|c u]|]; try discriminate.
    injection Hinit as <-. cbn [environment]. now destruct Htexts. }
  destruct (batch_calls processor records call start Hin)
    as [[]|(record & sent & Hrec & Hmade)].
  rewrite forallb_forall in Hrecords. specialize (Hrecords record Hrec).
  pose proof (record_calls processor sent record call Hmade) as Htrace.
  destruct Htrace as (bucket_name & object_key & image & Hloc & Hurl & ->).
  destruct (location_ok record bucket_name object_key Hrecords Hloc) as [Hb Hk].
  pose proof (url_ok bucket_name object_key image Htexts Hb Hk Hurl) as Hi.
  pose proof (metadata_ok bucket_name object_key Htexts) as Hm.
  assert (Hs : str_ok (utcnow_isoformat env sent) = true) by now destruct Htexts as (_ & _ & H & _).
  exists processor, record, bucket_name, (utcnow_isoformat env sent), image, object_key.
  split; [reflexivity|]. split; [exact Hloc|]. split; [exact Hurl|]. cbv zeta.
  split; [reflexivity|].
  exists (_create_sqs_message processor (utcnow_isoformat env sent) image object_key
            (_get_object_metadata env bucket_name object_key)).
  split; [|repeat split].
  unfold Bot.load_body. rewrite Hbody. cbn [bind sqs_call MessageBody].
  apply JsonFacts.loads_dumps. now apply notification_ok.
Qed.

End RoundTrip.

Lemma accepting_texts_ok : texts_ok accepting_env.
Proof.
  unfold texts_ok, accepting_env, sample_env.
  cbn [Lambda.ENVIRONMENT Lambda.generate_presigned_url Lambda.utcnow_isoformat
       Lambda.py_str Lambda.head_object].
  split; [reflexivity|]. split; [|split; [|split]]; try reflexivity.
  - intros _ object_key url Hk H. injection H as <-.
    exact (TextFacts.str_ok_scalar_app (lit "https://signed.example/") object_key
             eq_refl Hk).
  - discriminate.
Qed.

Lemma notification_round_trip_witness :
  exists body,
    Bot.load_body
      (queue_message (lit "rh-1")
         (Lambda._create_sqs_message sample_self (lit "2024-05-01T10:00:00.000001")
            (lit "https://signed.example/my cat+1.gif") (lit "my cat+1.gif") (PDict [])))
    = Ok body
    /\ py_get body (lit "object_key") (PStr (lit "unknown"))
       = Ok (PStr (lit "my cat+1.gif")).
Proof.
  destruct (notification_round_trip accepting_env
              (s3_event [storage_record (lit "imgs") (lit "my+cat%2B1.gif")])
              (queue_message (lit "rh-1")
                 (Lambda._create_sqs_message sample_self
                    (lit "2024-05-01T10:00:00.000001")
                    (lit "https://signed.example/my cat+1.gif") (lit "my cat+1.gif")
                    (PDict [])))
              (Lambda.sqs_call sample_self
                 (Lambda._create_sqs_message sample_self
                    (lit "2024-05-01T10:00:00.000001")
                    (lit "https://signed.example/my cat+1.gif") (lit "my cat+1.gif")
                    (PDict []))))
    as (processor & record & bucket_name & stamp & image & object_key
        & Hinit & Hloc & Hurl & Hdumps & body & Hload & _ & Hkey & _).
  - exact accepting_texts_ok.
  - reflexivity.
  - vm_compute. now left.
  - reflexivity.
  - exists body. split; [exact Hload|].
    vm_compute in Hload. injection Hload as <-. reflexivity.
Defined.

(** ** More about the ingest side *)

Section IngestCalls.
Import Lambda LambdaFacts.
Variable env : Env.
Variable self : ImageProcessor.

(** What a call made for a record looks like. *)
Definition well_addressed (call : SendMessage) : Prop :=
  QueueUrl call = queue_url self
  /\ MessageAttributes call
     = [(lit "Environment", environment self);
        (lit "MessageType", lit "InstagramImageUpload")]
  /\ exists stamp image object_key metadata,
       MessageBody call
       = Json.dumps (_create_sqs_message self stamp image object_key metadata)
       /\ object_key <> []
       /\ _is_valid_image_file env object_key = true.

(** How one record ends, and the calls it made. *)
Lemma process_record_calls (sent : nat) (record : py) :
  match process_record env self sent record with
  | (Skipped, made) => made = []
  | (Processed image, made) =>
      exists call, made = [call] /\ well_addressed call
                   /\ key image <> [] /\ _is_valid_image_file env (key image) = true
  | (Failed e, made) =>
      made = [] \/ exists call, made = [call] /\ well_addressed call
  end.
Proof.
  unfold process_record.
  destruct (s3_location record) as [[bucket_name object_key]|e]; [|now left].
  destruct (negb (truthy bucket_name)); [reflexivity|]. cbn [orb].
  destruct (truthy (PStr object_key)) eqn:Hk; [|reflexivity]. cbn [negb].
  destruct (_is_valid_image_file env object_key) eqn:Hv; [|reflexivity]. cbn [negb].
  assert (Hne : object_key <> []) by (intros ->; discriminate).
  destruct (_generate_image_url env bucket_name object_key) as [image|e]; [|now left].
  assert (Hcall : well_addressed
                    (sqs_call self
                       (_create_sqs_message self (utcnow_isoformat env sent) image
                          object_key (_get_object_metadata env bucket_name object_key)))).
  { repeat split. exists (utcnow_isoformat env sent), image, object_key,
      (_get_object_metadata env bucket_name object_key). repeat split; assumption. }
  unfold _send_to_sqs. destruct (send_message env _) as [mid|e].
  - eexists. split; [reflexivity|]. split; [exact Hcall|]. cbn [key]. auto.
  - right. eexists. split; [reflexivity|exact Hcall].
Qed.

(** What the loop adds: [dp] entries, [de] errors and [dc] calls. *)
Definition grows (st final : Loop) (dp de dc : nat) : Prop :=
  List.length (processed_images final) = (List.length (processed_images st) + dp)%nat
  /\ List.length (errors final) = (List.length (errors st) + de)%nat
  /\ List.length (calls final) = (List.length (calls st) + dc)%nat
  /\ (dp <= dc)%nat /\ (dc <= dp + de)%nat
  /\ (Forall well_addressed (calls st) -> Forall well_addressed (calls final)).

Lemma step_grows (st : Loop) (record : py) :
  exists dp de dc, grows st (step env self st record) dp de dc.
Proof.
  unfold step, grows.
  pose proof (process_record_calls (List.length (calls st)) record) as Hr.
  destruct (process_record env self (List.length (calls st)) record)
    as [[|image|e] made]; cbn [processed_images errors calls].
  - subst made. exists O, O, O. rewrite app_nil_r. repeat split; auto; lia.
  - destruct Hr as (call & -> & Hc & _). exists 1%nat, O, 1%nat.
    rewrite !length_app. cbn [List.length]. repeat split; try lia.
    intros Hall. apply Forall_app. auto.
  - destruct Hr as [->|(call & -> & Hc)].
    + exists O, 1%nat, O. rewrite app_nil_r, length_app. cbn [List.length].
      repeat split; auto; lia.
    + exists O, 1%nat, 1%nat. rewrite !length_app. cbn [List.length].
      repeat split; try lia.
      intros Hall. apply Forall_app. auto.
Qed.

Lemma fold_grows (records : list py) : forall st,
  exists dp de dc, grows st (fold_left (step env self) records st) dp de dc.
Proof.
  induction records as [|r records IH]; intros st; cbn [fold_left].
  - exists O, O, O. unfold grows. repeat split; auto; lia.
  - destruct (IH (step env self st r)) as (dp & de & dc & H).
    destruct (step_grows st r) as (dp' & de' & dc' & H').
    exists (dp' + dp)%nat, (de' + de)%nat, (dc' + dc)%nat.
    unfold grows in *.
    destruct H as (H1 & H2 & H3 & H4 & H5 & H6).
    destruct H' as (G1 & G2 & G3 & G4 & G5 & G6).
    repeat split; try lia; auto.
Qed.

(** X1. The calls made to the queue bracket the counts of the response:
    there is one call for every processed image, and every further call
    is one whose failure is in the error list. *)
Theorem queue_calls_match_counts (event : py) :
  let r := fst (process_s3_event env self event) in
  let made := snd (process_s3_event env self event) in
  (processed_count r <= List.length made)%nat
  /\ (List.length made <= processed_count r + error_count r)%nat
  /\ (error_count r = O -> List.length made = processed_count r).
Proof.
  cbv zeta. unfold process_s3_event. cbn [fst snd].
  unfold respond; cbn [processed_count error_count].
  destruct (read_records event) as [records|e].
  - destruct (fold_grows records start) as (dp & de & dc & H).
    unfold grows in H. cbn [start processed_images errors calls List.length] in H.
    destruct H as (H1 & H2 & H3 & H4 & H5 & _). lia.
  - cbn. lia.
Qed.

(** X2. Every call to the queue goes to the configured queue, carries
    the two routing attributes, and its body is the notification of an
    object whose key is not empty and has an allowed extension. *)
Theorem queue_calls_are_notifications (event : py) (call : SendMessage) :
  In call (snd (process_s3_event env self event)) ->
  QueueUrl call = queue_url self
  /\ MessageAttributes call
     = [(lit "Environment", environment self);
        (lit "MessageType", lit "InstagramImageUpload")]
  /\ exists stamp image object_key metadata,
       MessageBody call
       = Json.dumps (_create_sqs_message self stamp image object_key metadata)
       /\ object_key <> []
       /\ _is_valid_image_file env object_key = true.
Proof.
  unfold process_s3_event. cbn [snd].
  destruct (read_records event) as [records|e]; [|intros []].
  destruct (fold_grows records start) as (dp & de & dc & H).
  destruct H as (_ & _ & _ & _ & _ & H).
  specialize (H (Forall_nil _)). rewrite Forall_forall in H.
  intros Hin. exact (H call Hin).
Qed.

(** X3. A record without a bucket name or without an object key is
    skipped, not reported: no call, no entry, no error.  A record that
    is an empty dict is one. *)
Theorem record_without_location_is_skipped
    (record bucket_name : py) (object_key : str) (sent : nat) (st : Loop) :
  s3_location record = Ok (bucket_name, object_key) ->
  truthy bucket_name = false \/ object_key = [] ->
  process_record env self sent record = (Skipped, [])
  /\ step env self st record = st
  /\ s3_location (PDict []) = Ok (PNone, []).
Proof.
  intros Hloc Hmiss.
  assert (H : forall n, process_record env self n record = (Skipped, [])).
  { intros n. unfold process_record. rewrite Hloc.
    destruct Hmiss as [->| ->]; [reflexivity|].
    now destruct (negb (truthy bucket_name)). }
  repeat split; auto.
  unfold step. rewrite H, app_nil_r. now destruct st.
Qed.

End IngestCalls.

Lemma queue_calls_are_notifications_witness :
  exists call,
    snd (Lambda.process_s3_event sample_env sample_self (s3_event sample_records))
    = call :: skipn 1 (snd (Lambda.process_s3_event sample_env sample_self
                              (s3_event sample_records)))
    /\ Lambda.QueueUrl call = lit "https://sqs.example/queue".
Proof.
  eexists. split; [vm_compute; reflexivity|].
  destruct (queue_calls_are_notifications sample_env sample_self
              (s3_event sample_records)
              (nth 0 (snd (Lambda.process_s3_event sample_env sample_self
                             (s3_event sample_records)))
                 (Lambda.sqs_call sample_self PNone))) as (H & _).
  - vm_compute. now left.
  - vm_compute in H |- *. exact H.
Defined.

Lemma record_without_location_is_skipped_witness :
  Lambda.process_record sample_env sample_self 0
    (s3_record PNone (PStr (lit "a.png"))) = (Lambda.Skipped, []).
Proof.
  destruct (record_without_location_is_skipped sample_env sample_self
              (s3_record PNone (PStr (lit "a.png"))) PNone (lit "a.png") 0
              Lambda.start) as (H & _).
  - reflexivity.
  - now left.
  - exact H.
Defined.

(** ** The text of a message *)

Module BodyFacts.
Import Json.

Definition printable (c : N) : bool := (32 <=? c) && (c <=? 126).

Lemma hex_digit_printable (d : N) : d < 16 -> printable (hex_digit d) = true.
Proof.
  intros H. unfold printable, hex_digit. N_cases; try lia; reflexivity.
Qed.

Lemma u_escape_printable (n : N) : forallb printable (u_escape n) = true.
Proof.
  unfold u_escape. cbn [forallb].
  rewrite !hex_digit_printable by (apply N.mod_lt; lia). reflexivity.
Qed.

Lemma escape_char_printable (c : N) : forallb printable (escape_char c) = true.
Proof.
  unfold escape_char.
  destruct (c =? 92); [reflexivity|].
  destruct (c =? 34); [reflexivity|].
  destruct ((32 <=? c) && (c <=? 126)) eqn:Hp.
  { cbn [forallb]. unfold printable. now rewrite Hp. }
  destruct (c =? 8); [reflexivity|].
  destruct (c =? 12); [reflexivity|].
  destruct (c =? 10); [reflexivity|].
  destruct (c =? 13); [reflexivity|].
  destruct (c =? 9); [reflexivity|].
  destruct (c <? 0x10000); [apply u_escape_printable|].
  rewrite forallb_app, !u_escape_printable. reflexivity.
Qed.

Lemma encoded_printable (s : str) :
  forallb printable (encode_basestring_ascii s) = true.
Proof.
  unfold encode_basestring_ascii. cbn [forallb].
  rewrite forallb_app. cbn [forallb andb].
  change (printable 34) with true. cbn [andb]. rewrite andb_true_r.
  induction s as [|c s IH]; [reflexivity|].
  cbn [flat_map]. now rewrite forallb_app, escape_char_printable, IH.
Qed.

Lemma is_digit_printable (l : str) :
  forallb is_digit l = true -> forallb printable l = true.
Proof.
  induction l as [|c l IH]; [reflexivity|]. cbn [forallb].
  intros H. apply andb_prop in H as [H1 H2]. rewrite (IH H2), andb_true_r.
  unfold is_digit in H1. apply andb_prop in H1 as [Ha Hb].
  apply N.leb_le in Ha, Hb. unfold printable. N_cases; try lia; reflexivity.
Qed.

Lemma digits_printable (n : N) : forallb printable (digits n) = true.
Proof.
  unfold digits. destruct (N.eqb_spec n 0) as [->|Hn]; [reflexivity|].
  destruct (JsonFacts.digits_aux_shape (N.to_nat (N.size n)) n [])
    as (d & ds & -> & Hr & Hds); [lia|apply JsonFacts.size_bound|].
  rewrite app_nil_r. cbn [forallb]. rewrite (is_digit_printable ds Hds), andb_true_r.
  unfold printable. N_cases; try lia; reflexivity.
Qed.

Lemma join_printable (parts : list str) :
  forallb (forallb printable) parts = true ->
  forallb printable (join (lit ", ") parts) = true.
Proof.
  induction parts as [|p parts IH]; [reflexivity|].
  cbn [forallb]. intros H. apply andb_prop in H as [Hp Hps].
  rewrite JsonFacts.join_cons, forallb_app, Hp. cbn [andb].
  destruct parts as [|q parts]; [reflexivity|].
  rewrite forallb_app, (IH Hps). reflexivity.
Qed.

Lemma dumps_printable (v : py) : forallb printable (dumps v) = true.
Proof.
  induction v as [| b | z | s | l IH | items IH] using py_ind.
  - reflexivity.
  - destruct b; reflexivity.
  - cbn [dumps]. unfold repr_int. destruct (z <? 0)%Z.
    + cbn [forallb]. now rewrite digits_printable.
    + apply digits_printable.
  - apply encoded_printable.
  - cbn [dumps forallb]. rewrite forallb_app. cbn [forallb andb].
    change (printable 91) with true. change (printable 93) with true.
    cbn [andb]. rewrite andb_true_r. apply join_printable.
    induction IH as [|x l Hx Hl IHl]; [reflexivity|].
    cbn [List.map forallb]. now rewrite Hx, IHl.
  - cbn [dumps forallb]. rewrite forallb_app. cbn [forallb andb].
    change (printable 123) with true. change (printable 125) with true.
    cbn [andb]. rewrite andb_true_r. apply join_printable.
    induction IH as [|x l Hx Hl IHl]; [reflexivity|].
    cbn [List.map forallb]. rewrite IHl, andb_true_r.
    rewrite !forallb_app, encoded_printable, Hx. reflexivity.
Qed.

End BodyFacts.

(** X4. The body of every message the Publisher hands to the queue is
    printable ASCII, whatever characters the object key, the URL and the
    metadata hold. *)
Theorem message_body_is_ascii (self : Lambda.ImageProcessor) (message_body : py) :
  Forall (fun c => 32 <= c <= 126)
         (Lambda.MessageBody (Lambda.sqs_call self message_body)).
Proof.
  cbn [Lambda.sqs_call Lambda.MessageBody].
  pose proof (BodyFacts.dumps_printable message_body) as H.
  rewrite forallb_forall in H. apply Forall_forall. intros c Hc.
  specialize (H c Hc). unfold BodyFacts.printable in H.
  apply andb_prop in H as [H1 H2]. apply N.leb_le in H1, H2. lia.
Qed.
(** ** Extensions *)

Section Extensions.
Import Lambda.
Variable env : Env.

Lemma splitext_parts (p : str) : fst (Os.splitext p) ++ snd (Os.splitext p) = p.
Proof.
  unfold Os.splitext.
  destruct (Os.rfind 47 p <? Os.rfind 46 p)%Z; [|apply app_nil_r].
  destruct (existsb _ _); [|apply app_nil_r].
  cbn [fst snd]. apply firstn_skipn.
Qed.

(** The lower-case form of an ASCII character. *)
Definition ascii_lower (c : N) : N := if (65 <=? c) && (c <=? 90) then c + 32 else c.

(** On ASCII text [lower] works character by character. *)
Lemma lower_ascii (s : str) : forall before,
  forallb UrlFacts.is_ascii s = true ->
  Os.lower_from (unicode_lower env) before s = List.map ascii_lower s.
Proof.
  induction s as [|c s IH]; intros before H; [reflexivity|].
  cbn [forallb] in H. apply andb_prop in H as [Hc Hs].
  cbn [Os.lower_from List.map]. unfold UrlFacts.is_ascii in Hc.
  rewrite Hc, IH by exact Hs. reflexivity.
Qed.

Lemma ascii_lower_ascii (s : str) :
  forallb UrlFacts.is_ascii s = true ->
  forallb UrlFacts.is_ascii (List.map ascii_lower s) = true.
Proof.
  induction s as [|c s IH]; [reflexivity|]. cbn [forallb List.map]. intros H.
  apply andb_prop in H as [Hc Hs]. rewrite IH by exact Hs.
  unfold UrlFacts.is_ascii, ascii_lower in *.
  N_cases; try discriminate; try reflexivity; lia.
Qed.

Lemma ascii_lower_twice (s : str) :
  List.map ascii_lower (List.map ascii_lower s) = List.map ascii_lower s.
Proof.
  rewrite map_map. apply map_ext. intros c. unfold ascii_lower.
  destruct ((65 <=? c) && (c <=? 90)) eqn:H; [|now rewrite H].
  apply andb_prop in H as [H1 H2]. apply N.leb_le in H1, H2.
  destruct (N.leb_spec 65 (c + 32)); [|lia].
  destruct (N.leb_spec (c + 32) 90); [lia|reflexivity].
Qed.

(** X5. A key passes the extension test only if its lower-cased form
    ends with one of the five extensions.  For a key of ASCII
    characters this means that the key itself ends with one of them in
    some mix of upper and lower case, and the test gives the same answer
    for the key and for its lower-cased form. *)
Theorem valid_key_ends_with_extension (object_key : str) :
  (_is_valid_image_file env object_key = true ->
     exists stem ext,
       Os.lower (unicode_lower env) object_key = stem ++ ext
       /\ In ext valid_extensions)
  /\ (forallb UrlFacts.is_ascii object_key = true ->
      (_is_valid_image_file env object_key = true ->
         exists stem ext,
           object_key = stem ++ ext
           /\ In (Os.lower (unicode_lower env) ext) valid_extensions)
      /\ _is_valid_image_file env (Os.lower (unicode_lower env) object_key)
         = _is_valid_image_file env object_key).
Proof.
  assert (Hfirst : _is_valid_image_file env object_key = true ->
            exists stem ext,
              Os.lower (unicode_lower env) object_key = stem ++ ext
              /\ In ext valid_extensions).
  { unfold _is_valid_image_file. intros H. apply existsb_str_eqb in H.
    exists (fst (Os.splitext (Os.lower (unicode_lower env) object_key))),
           (snd (Os.splitext (Os.lower (unicode_lower env) object_key))).
    split; [symmetry; apply splitext_parts|exact H]. }
  split; [exact Hfirst|].
  intros Hascii. split.
  - intros Hvalid. destruct (Hfirst Hvalid) as (stem & ext & Hl & Hin).
    unfold Os.lower in *. rewrite lower_ascii in Hl by exact Hascii.
    exists (firstn (List.length stem) object_key),
           (skipn (List.length stem) object_key).
    split; [symmetry; apply firstn_skipn|].
    rewrite lower_ascii.
    + rewrite <- skipn_map, Hl, skipn_app, Nat.sub_diag, skipn_all. exact Hin.
    + rewrite <- (firstn_skipn (List.length stem) object_key), forallb_app in Hascii.
      now apply andb_prop in Hascii as [_ H].
  - unfold _is_valid_image_file, Os.lower.
    rewrite (lower_ascii object_key) by exact Hascii.
    rewrite lower_ascii by now apply ascii_lower_ascii.
    now rewrite ascii_lower_twice.
Qed.

End Extensions.

Lemma valid_key_ends_with_extension_witness :
  exists stem ext,
    lit "Cats/Tom.JPEG" = stem ++ ext
    /\ In (Os.lower (Lambda.unicode_lower sample_env) ext) Lambda.valid_extensions.
Proof.
  destruct (valid_key_ends_with_extension sample_env (lit "Cats/Tom.JPEG")) as [_ H].
  destruct (H eq_refl) as [H1 _]. apply H1. reflexivity.
Defined.

(** ** More about the polling task *)

Section Task.
Import Bot.
Variable env : Env.

(** The flag is set exactly while an invocation waits. *)
Definition flag_tracks (st : State) : Prop :=
  (waiting st = [] /\ processing_active st = false)
  \/ (processing_active st = true /\ exists cycle, waiting st = [cycle]).

Lemma continue_tracks (st : State) (answers : nat -> Answers) (i : nat)
    (events : list Event) (messages : list py) :
  waiting st = [] -> processing_active st = true ->
  flag_tracks (continue env st answers i events messages).
Proof.
  intros Hw Ha. unfold continue.
  destruct (advance env answers i messages) as [more [c|cycle]].
  - left. split; [exact Hw|reflexivity].
  - right. cbn [processing_active waiting]. rewrite Hw.
    split; [assumption|]. exists cycle. reflexivity.
Qed.

Lemma act_tracks (st : State) (a : Action) :
  flag_tracks st -> flag_tracks (act env st a).
Proof.
  intros Hinv. destruct a as [response answers| |]; cbn [act].
  - unfold tick.
    destruct (negb (running st) || processing_active st) eqn:Hguard; [assumption|].
    apply orb_false_elim in Hguard as [_ Hactive].
    assert (Hw : waiting st = []).
    { destruct Hinv as [[H _]|[H _]]; [assumption|congruence]. }
    destruct (fetched response) as [[|m messages]|e].
    + left. split; [exact Hw|reflexivity].
    + now apply continue_tracks.
    + left. split; [exact Hw|reflexivity].
  - unfold resume. destruct (waiting st) as [|cycle others] eqn:Hw; [assumption|].
    destruct Hinv as [[H _]|[Hactive (cycle' & H)]]; [congruence|].
    rewrite Hw in H. injection H as _ ->.
    cbv zeta; destruct (finish_send _ (sending cycle)) as [[|e|] events].
    + now apply continue_tracks.
    + left. split; reflexivity.
    + left. split; reflexivity.
  - destruct Hinv as [H|H]; [left|right]; exact H.
Qed.

Lemma run_tracks (actions : list Action) : flag_tracks (run env actions).
Proof.
  unfold run.
  enough (H : forall st, flag_tracks st -> flag_tracks (fold_left (act env) actions st)).
  { apply H. left. split; reflexivity. }
  induction actions as [|a actions IH]; intros st Hst; cbn [fold_left]; auto.
  apply IH. now apply act_tracks.
Qed.

(** X6. Whatever has happened to the bot, [processing_active] is set
    exactly while an invocation of the task has not returned: every way
    out of an invocation clears the flag, so the poller cannot get
    stuck behind it. *)
Theorem flag_is_set_while_waiting (actions : list Action) :
  processing_active (run env actions) = true <-> waiting (run env actions) <> [].
Proof.
  destruct (run_tracks actions) as [[Hw Ha]|[Ha (cycle & Hw)]];
    rewrite Hw, Ha; split; congruence.
Qed.

(** The fetches in a trace. *)
Definition fetches (events : list Event) : nat :=
  List.length (filter (fun ev => match ev with ReceiveMessage => true | _ => false end)
                 events).

Lemma fetches_app (l1 l2 : list Event) : fetches (l1 ++ l2) = (fetches l1 + fetches l2)%nat.
Proof. unfold fetches. now rewrite filter_app, length_app. Qed.

Lemma handle_failure_fetches (message : py) (e : exn) :
  fetches (snd (handle_failure message e)) = O.
Proof.
  unfold handle_failure.
  destruct (is_exception e); [destruct message|]; reflexivity.
Qed.

Lemma delete_after_fetches (a : Answers) (message : py) :
  fetches (snd (delete_after a message)) = O.
Proof.
  unfold delete_after.
  destruct (py_getitem message (lit "ReceiptHandle")) as [h|e].
  - destruct (delete_result a) as [u|e]; [reflexivity|].
    pose proof (handle_failure_fetches message e) as H.
    destruct (handle_failure message e). exact H.
  - apply handle_failure_fetches.
Qed.

Lemma start_message_fetches (a : Answers) (message : py) (c : Completion)
    (events : list Event) :
  start_message env a message = inl (c, events) -> fetches events = O.
Proof.
  unfold start_message. destruct (prepare env a message) as [body|embed|e].
  - pose proof (delete_after_fetches a message) as H.
    destruct (delete_after a message). intros G. injection G as _ <-. exact H.
  - discriminate.
  - pose proof (handle_failure_fetches message e) as H.
    destruct (handle_failure message e). intros G. injection G as _ <-. exact H.
Qed.

Lemma finish_send_fetches (a : Answers) (message : py) :
  fetches (snd (finish_send a message)) = O.
Proof.
  unfold finish_send. destruct (send_result a) as [u|e].
  - apply delete_after_fetches.
  - pose proof (handle_failure_fetches message e) as H.
    destruct (handle_failure message e). cbn [snd] in *.
    rewrite fetches_app, H. now destruct (is_exception e).
Qed.

Lemma advance_fetches (answers : nat -> Answers) (messages : list py) : forall i,
  fetches (fst (advance env answers i messages)) = O.
Proof.
  induction messages as [|m messages IH]; intros i; [reflexivity|].
  cbn [advance].
  destruct (start_message env (answers i) m) as [[c events]|embed] eqn:Hs;
    [|reflexivity].
  apply start_message_fetches in Hs.
  destruct c; [|exact Hs|exact Hs].
  specialize (IH (S i)). destruct (advance env answers (S i) messages) as [more r].
  cbn [fst] in *. now rewrite fetches_app, Hs, IH.
Qed.

Lemma leave_fetches (st : State) (events : list Event) (c : Completion) :
  fetches (trace (leave st events c)) = (fetches (trace st) + fetches events)%nat.
Proof.
  unfold leave. cbn [trace]. rewrite !fetches_app.
  destruct c; cbn; lia.
Qed.

Lemma continue_fetches (st : State) (answers : nat -> Answers) (i : nat)
    (events : list Event) (messages : list py) :
  fetches (trace (continue env st answers i events messages))
  = (fetches (trace st) + fetches events)%nat.
Proof.
  unfold continue. pose proof (advance_fetches answers messages i) as H.
  destruct (advance env answers i messages) as [more [c|cycle]]; cbn [fst] in H.
  - rewrite leave_fetches, fetches_app, H. lia.
  - cbn [trace]. rewrite !fetches_app, H. lia.
Qed.

Lemma resume_fetches (st : State) :
  fetches (trace (resume env st)) = fetches (trace st)
  /\ running (resume env st) = running st.
Proof.
  unfold resume. destruct (waiting st) as [|cycle others]; [auto|].
  cbv zeta.
  match goal with
  | |- context [finish_send ?a (sending cycle)] =>
      pose proof (finish_send_fetches a (sending cycle)) as H
  end.
  cbv zeta; destruct (finish_send _ (sending cycle)) as [[|e|] events];
    cbn [snd] in H.
  - rewrite continue_fetches. cbn [trace]. split; [lia|].
    unfold continue. now destruct (advance _ _ _ _) as [more [c|cycle']].
  - rewrite leave_fetches. cbn [trace]. split; [lia|reflexivity].
  - rewrite leave_fetches. cbn [trace]. split; [lia|reflexivity].
Qed.

(** The bot after [shutdown]. *)
Definition shut_down (st : State) : Prop := running st = false /\ cancelled st = true.

Lemma resume_cancelled (st : State) (cycle : Cycle) (others : list Cycle) :
  cancelled st = true -> waiting st = cycle :: others ->
  resume env st
  = {| running := running st; processing_active := false; cancelled := true;
       waiting := others; trace := trace st |}.
Proof.
  intros Hc Hw. unfold resume. rewrite Hw, Hc. cbv zeta.
  unfold finish_send, interrupted, handle_failure. cbn [send_result is_exception app].
  unfold leave. cbn [running processing_active cancelled waiting trace].
  now rewrite !app_nil_r.
Qed.

Lemma act_shut_down (st : State) (a : Action) :
  shut_down st -> (List.length (waiting st) <= 1)%nat ->
  shut_down (act env st a)
  /\ trace (act env st a) = trace st
  /\ match a with
     | Resume =>
         waiting (act env st a) = []
         /\ (waiting st <> [] -> processing_active (act env st a) = false)
         /\ (waiting st = [] -> act env st a = st)
     | _ => act env st a = st
     end.
Proof.
  intros [Hr Hc] Hone. destruct a as [response answers| |]; cbn [act].
  - unfold tick. rewrite Hr. cbn [negb orb]. repeat split; assumption.
  - destruct (waiting st) as [|cycle others] eqn:Hw.
    + unfold resume. rewrite Hw. repeat split; try assumption. congruence.
    + rewrite (resume_cancelled st cycle others Hc Hw).
      cbn [running cancelled waiting trace processing_active].
      destruct others; [|cbn in Hone; lia].
      repeat split; try assumption. discriminate.
  - unfold stop. destruct st as [r p c w t]. cbn in *. subst.
    repeat split.
Qed.

(** X7. [shutdown] ends the consumer.  It clears [running] and cancels
    the task, so from then on nothing reaches the queue or the channel:
    whatever ticks and completions follow, the trace stays as it was at
    the shutdown, with no further fetch, send or delete.  An invocation
    that waits in [channel.send] is cancelled when it gets its turn: it
    returns without deleting the message it was sending or the ones
    after it, and its flag is cleared. *)
Theorem no_fetch_after_stop (before after : list Action) :
  let final := run env (before ++ Stop :: after) in
  trace final = trace (run env before)
  /\ running final = false
  /\ (In Resume after ->
      waiting final = [] /\ processing_active final = false)
  /\ (~ In Resume after -> final = stop (run env before)).
Proof.
  cbv zeta. unfold run. rewrite fold_left_app. cbn [fold_left act].
  fold (run env before).
  pose proof (run_tracks before) as Htracks.
  set (st0 := stop (run env before)).
  assert (H0 : shut_down st0) by (split; reflexivity).
  assert (Hone0 : (List.length (waiting st0) <= 1)%nat).
  { unfold st0, stop. cbn [waiting].
    destruct Htracks as [[-> _]|[_ (cycle & ->)]]; cbn; lia. }
  assert (Hflag0 : waiting st0 = [] -> processing_active st0 = false).
  { unfold st0, stop. cbn [waiting processing_active].
    destruct Htracks as [[_ ->]|[_ (cycle & ->)]]; [reflexivity|discriminate]. }
  change (trace (run env before)) with (trace st0).
  clearbody st0. clear Htracks.
  revert st0 H0 Hone0 Hflag0.
  induction after as [|a after IH]; intros st Hst Hone Hflag; cbn [fold_left].
  - destruct Hst as [Hr _]. split; [reflexivity|]. split; [exact Hr|].
    split; [intros []|reflexivity].
  - destruct (act_shut_down st a Hst Hone) as (Hst' & Htrace & Hact).
    assert (Hone' : (List.length (waiting (act env st a)) <= 1)%nat).
    { destruct a; try (rewrite Hact; exact Hone).
      destruct Hact as (-> & _). cbn. lia. }
    assert (Hflag' : waiting (act env st a) = [] ->
                     processing_active (act env st a) = false).
    { destruct a; try (rewrite Hact; exact Hflag).
      destruct Hact as (_ & Hp & Hsame). intros _.
      destruct (waiting st) as [|cycle others] eqn:Hw.
      - rewrite (Hsame eq_refl). apply Hflag. reflexivity.
      - apply Hp. discriminate. }
    destruct (IH _ Hst' Hone' Hflag') as (I1 & I2 & I3 & I4).
    split; [congruence|]. split; [exact I2|]. split.
    + intros [->|Hin]; [|exact (I3 Hin)].
      destruct Hact as (Hw & _).
      destruct (in_dec (fun x y : bool => Bool.bool_dec x y) true
                  (List.map (fun a => match a with Resume => true | _ => false end) after))
        as [Hyes|Hno].
      * apply I3. apply in_map_iff in Hyes as (x & Hx & Hin).
        destruct x; try discriminate. exact Hin.
      * assert (Hnot : ~ In Resume after).
        { intros Hin. apply Hno. apply in_map_iff. exists Resume. auto. }
        rewrite (I4 Hnot). unfold stop. cbn [waiting processing_active].
        split; [exact Hw|apply Hflag'; exact Hw].
    + intros Hnot. assert (Ha : a <> Resume) by (intros ->; apply Hnot; now left).
      assert (Hnot' : ~ In Resume after) by (intros Hin; apply Hnot; now right).
      rewrite (I4 Hnot'). destruct a; try congruence; now rewrite Hact.
Qed.

End Task.

(** ** More about rendering *)

Section Embeds.
Import Bot.
Variable env : Env.

Lemma contains_cons (c x : N) (s : str) :
  contains c (x :: s) = (c =? x) || contains c s.
Proof. reflexivity. Qed.

(** The last segment is what follows the last slash. *)
Lemma last_segment_spec (s : str) :
  exists dir,
    s = dir ++ last_segment s
    /\ contains 47 (last_segment s) = false
    /\ (contains 47 s = true -> exists d, dir = d ++ [47])
    /\ (contains 47 s = false -> dir = []).
Proof.
  induction s as [|c rest IH].
  - exists []. split; [reflexivity|]. split; [reflexivity|].
    split; [discriminate|reflexivity].
  - cbn [last_segment]. rewrite contains_cons.
    destruct (contains 47 rest) eqn:Hrest.
    + destruct IH as (dir & Hs & Hno & Hd & _).
      destruct (Hd eq_refl) as (d & ->).
      exists (c :: d ++ [47]).
      split; [cbn [app]; now rewrite <- Hs|]. split; [exact Hno|].
      split; [intros _; exists (c :: d); reflexivity|].
      rewrite orb_true_r. discriminate.
    + destruct (N.eqb_spec c 47) as [->|Hc].
      * exists [47]. split; [reflexivity|]. split; [exact Hrest|].
        split; [intros _; exists []; reflexivity|discriminate].
      * exists []. split; [reflexivity|].
        assert (H47 : (47 =? c) = false) by (apply N.eqb_neq; congruence).
        split; [rewrite contains_cons, Hrest, H47; reflexivity|].
        rewrite H47. cbn [orb]. split; [discriminate|reflexivity].
Qed.

Lemma embed_parts (current : Datetime) (image object_key stamp metadata : py)
    (embed : Embed) :
  _create_discord_embed env current image object_key stamp metadata = Ok embed ->
  exists ts size_fields type_fields filename,
    embed_timestamp env current stamp = Ok ts
    /\ filename_of object_key = Ok filename
    /\ (List.length size_fields <= 1)%nat /\ (List.length type_fields <= 1)%nat
    /\ (forall f, In f size_fields -> name f = lit "File Size")
    /\ (forall f, In f type_fields -> name f = lit "Type")
    /\ embed
       = {| title := embed_title;
            description := lit "Image uploaded from Instagram";
            color := 0xE4405F;
            timestamp := ts;
            image_url := image;
            fields := size_fields ++ type_fields
                      ++ [{| name := lit "Filename"; value := filename; inline := true |}];
            footer_text := lit "Environment: " ++ environment env;
            footer_icon_url := icon_url |}.
Proof.
  unfold _create_discord_embed. intros H.
  destruct (embed_timestamp env current stamp) as [ts|e]; [|discriminate].
  cbn [bind] in H.
  destruct (py_get metadata (lit "size") PNone) as [size|e]; [|discriminate].
  cbn [bind] in H.
  assert (Hsize : forall r : result (list Field),
            r = (if truthy size
                 then bind (py_getitem metadata (lit "size")) (fun size' =>
                      bind (_format_file_size size') (fun file_size =>
                      Ok [{| name := lit "File Size"; value := PStr file_size;
                             inline := true |}]))
                 else Ok []) ->
            forall l, r = Ok l ->
              (List.length l <= 1)%nat /\ forall f, In f l -> name f = lit "File Size").
  { intros r -> l Hl. destruct (truthy size).
    - destruct (py_getitem metadata (lit "size")) as [x|e]; [|discriminate].
      cbn [bind] in Hl. destruct (_format_file_size x); [|discriminate].
      cbn [bind] in Hl. injection Hl as <-. split; [cbn; lia|].
      intros f [<-|[]]. reflexivity.
    - injection Hl as <-. split; [cbn; lia|]. intros f []. }
  specialize (Hsize _ eq_refl).
  destruct (if truthy size then _ else _) as [size_fields|e]; [|discriminate].
  specialize (Hsize _ eq_refl). cbn [bind] in H.
  destruct (py_get metadata (lit "content_type") PNone) as [ct|e]; [|discriminate].
  cbn [bind] in H.
  assert (Htype : forall r : result (list Field),
            r = (if truthy ct
                 then bind (py_getitem metadata (lit "content_type")) (fun ct' =>
                      Ok [{| name := lit "Type"; value := ct'; inline := true |}])
                 else Ok []) ->
            forall l, r = Ok l ->
              (List.length l <= 1)%nat /\ forall f, In f l -> name f = lit "Type").
  { intros r -> l Hl. destruct (truthy ct).
    - destruct (py_getitem metadata (lit "content_type")) as [x|e]; [|discriminate].
      cbn [bind] in Hl. injection Hl as <-. split; [cbn; lia|].
      intros f [<-|[]]. reflexivity.
    - injection Hl as <-. split; [cbn; lia|]. intros f []. }
  specialize (Htype _ eq_refl).
  destruct (if truthy ct then _ else _) as [type_fields|e]; [|discriminate].
  specialize (Htype _ eq_refl). cbn [bind] in H.
  destruct (filename_of object_key) as [filename|e]; [|discriminate].
  cbn [bind] in H. injection H as <-.
  exists ts, size_fields, type_fields, filename.
  destruct Hsize, Htype. repeat split; auto.
Qed.

(** X8. A rendered embed shows the image it was given, names the
    environment in its footer, and ends with the field Filename, after
    at most the two fields File Size and Type, in that order.  For a
    text key the file name is what follows the key's last slash: it
    holds no slash, and the key is a directory part, empty or ending in
    a slash, followed by it. *)
Theorem embed_names_the_file
    (current : Datetime) (image stamp metadata : py) (object_key : str) (embed : Embed) :
  _create_discord_embed env current image (PStr object_key) stamp metadata = Ok embed ->
  image_url embed = image
  /\ footer_text embed = lit "Environment: " ++ environment env
  /\ exists before filename dir,
       fields embed
       = before ++ [{| name := lit "Filename"; value := PStr filename; inline := true |}]
       /\ (List.length before <= 2)%nat
       /\ (forall f, In f before -> name f = lit "File Size" \/ name f = lit "Type")
       /\ contains 47 filename = false
       /\ object_key = dir ++ filename
       /\ (dir = [] \/ exists d, dir = d ++ [47]).
Proof.
  intros H. apply embed_parts in H
    as (ts & size_fields & type_fields & filename & _ & Hf & Hs & Ht & Hsn & Htn & ->).
  cbn [image_url footer_text fields]. repeat split.
  cbn [filename_of] in Hf. injection Hf as <-.
  destruct (last_segment_spec object_key) as (dir & Hdir & Hno & Hyes & Hnone).
  destruct (contains 47 object_key) eqn:Hc.
  - exists (size_fields ++ type_fields), (last_segment object_key), dir.
    rewrite app_assoc. repeat split; auto.
    + rewrite length_app. lia.
    + intros f Hin. apply in_app_or in Hin as [Hin|Hin]; auto.
  - exists (size_fields ++ type_fields), object_key, [].
    rewrite app_assoc. repeat split; auto.
    + rewrite length_app. lia.
    + intros f Hin. apply in_app_or in Hin as [Hin|Hin]; auto.
Qed.

End Embeds.

Lemma embed_names_the_file_witness :
  exists embed,
    Bot._create_discord_embed sample_bot sample_now
      (PStr (lit "https://signed.example/a.png")) (PStr (lit "cats/2024/a.png"))
      (PStr []) (PDict [(lit "size", PInt 2048)]) = Ok embed
    /\ Bot.image_url embed = PStr (lit "https://signed.example/a.png").
Proof.
  eexists. split; [vm_compute; reflexivity|].
  match goal with
  | |- Bot.image_url ?e = _ =>
      destruct (embed_names_the_file sample_bot sample_now
                  (PStr (lit "https://signed.example/a.png")) (PStr [])
                  (PDict [(lit "size", PInt 2048)]) (lit "cats/2024/a.png") e)
        as (H & _); [vm_compute; reflexivity|exact H]
  end.
Defined.

(** ** The figure of a file size *)

Section FileSizeValue.
Import Bot Float.
Local Open Scope Z_scope.

(** X9. Between 1024 bytes and 1024^3 bytes the figure written before
    KB or MB is the number of tenths nearest to the exact quotient of the
    count by the unit (the float division loses nothing there): the
    figure is within one twentieth of the quotient. *)
Theorem file_size_is_nearest_tenth (n : Z) :
  (1024 <= n < 1024 ^ 2 ->
     exists t, 0 <= t
       /\ _format_file_size (PInt n) = Ok (one_decimal t ++ lit " KB")
       /\ 2 * Z.abs (10 * n - t * 1024) <= 1024)
  /\ (1024 ^ 2 <= n < 1024 ^ 3 ->
        exists t, 0 <= t
          /\ _format_file_size (PInt n) = Ok (one_decimal t ++ lit " MB")
          /\ 2 * Z.abs (10 * n - t * 1024 ^ 2) <= 1024 ^ 2).
Proof.
  assert (H2 : 1024 ^ 2 = 1048576) by reflexivity.
  assert (H3 : 1024 ^ 3 = 1073741824) by reflexivity.
  assert (H53 : 2 ^ 53 = 9007199254740992) by reflexivity.
  split; intros [Hlo Hhi]; unfold _format_file_size.
  - destruct (Z.ltb_spec n 1024); [lia|].
    destruct (Z.ltb_spec n (1024 ^ 2)); [|lia].
    destruct (FloatFacts.true_divide_pow2_exact n 10 ltac:(lia)
                ltac:(change (2 ^ 10) with 1024; lia) ltac:(rewrite H53; lia))
      as (f & Hf & Hd & Hn & Heq).
    change (2 ^ 10) with 1024 in *. rewrite Hf. cbn [bind].
    exists (tenths f). split; [now apply FloatFacts.tenths_nonneg|].
    split; [reflexivity|]. apply FloatFacts.nearest_tenth; [lia|assumption|assumption].
  - destruct (Z.ltb_spec n 1024); [lia|].
    destruct (Z.ltb_spec n (1024 ^ 2)); [lia|].
    destruct (Z.ltb_spec n (1024 ^ 3)); [|lia].
    destruct (FloatFacts.true_divide_pow2_exact n 20 ltac:(lia)
                ltac:(change (2 ^ 20) with 1048576; lia) ltac:(rewrite H53; lia))
      as (f & Hf & Hd & Hn & Heq).
    change (2 ^ 20) with (1024 ^ 2) in *. rewrite Hf. cbn [bind].
    exists (tenths f). split; [now apply FloatFacts.tenths_nonneg|].
    split; [reflexivity|]. apply FloatFacts.nearest_tenth; [lia|assumption|assumption].
Qed.

End FileSizeValue.

Lemma file_size_is_nearest_tenth_witness :
  exists t, (0 <= t)%Z
    /\ Bot._format_file_size (PInt 1280) = Ok (Float.one_decimal t ++ lit " KB")
    /\ (2 * Z.abs (10 * 1280 - t * 1024) <= 1024)%Z.
Proof.
  destruct (file_size_is_nearest_tenth 1280) as [H _].
  apply H. split; [lia|reflexivity].
Defined.

(** ** A polling cycle ends *)

Section Drain.
Import Bot.
Variable env : Env.

Lemma advance_pending (answers : nat -> Answers) (messages : list py) :
  forall i events cycle,
    advance env answers i messages = (events, inr cycle) ->
    (List.length (pending cycle) < List.length messages)%nat.
Proof.
  induction messages as [|m messages IH]; intros i events cycle; cbn [advance].
  - discriminate.
  - destruct (start_message env (answers i) m) as [[c ev]|embed].
    + destruct c; try discriminate.
      destruct (advance env answers (S i) messages) as [more r] eqn:Ha.
      intros H. injection H as _ ->.
      specialize (IH _ _ _ Ha). cbn [List.length]. lia.
    + intros H. injection H as _ <-. cbn [pending List.length]. lia.
Qed.

Lemma resume_idle (st : State) : waiting st = [] -> resume env st = st.
Proof. intros H. unfold resume. now rewrite H. Qed.

Lemma resumes_idle (n : nat) (st : State) :
  waiting st = [] -> fold_left (act env) (repeat Resume n) st = st.
Proof.
  intros H. induction n as [|n IH]; [reflexivity|].
  cbn [repeat fold_left act]. now rewrite resume_idle.
Qed.

Lemma drains (n : nat) : forall st,
  flag_tracks st ->
  (forall cycle, waiting st = [cycle] -> (List.length (pending cycle) < n)%nat) ->
  waiting (fold_left (act env) (repeat Resume n) st) = []
  /\ processing_active (fold_left (act env) (repeat Resume n) st) = false.
Proof.
  induction n as [|n IH]; intros st Hinv Hlen.
  - cbn [repeat fold_left].
    destruct Hinv as [[Hw Ha]|[_ (cycle & Hw)]]; [auto|].
    specialize (Hlen cycle Hw). lia.
  - cbn [repeat fold_left act].
    destruct Hinv as [[Hw Ha]|[Ha (cycle & Hw)]].
    + rewrite resume_idle by assumption. rewrite resumes_idle by assumption. auto.
    + specialize (Hlen cycle Hw).
      apply IH.
      * apply (act_tracks env st Resume). right. eauto.
      * unfold resume. rewrite Hw.
        cbv zeta; destruct (finish_send _ (sending cycle))
          as [[|e|] events]; try (cbn [leave waiting]; discriminate).
        unfold continue.
        destruct (advance env (script cycle) (S (index cycle)) (pending cycle))
          as [more [c|cycle']] eqn:Hadv; [cbn [leave waiting]; discriminate|].
        cbn [waiting app]. intros c H. injection H as <-.
        apply advance_pending in Hadv. lia.
Qed.

(** X10. A polling cycle ends: once each send the invocation waits for
    has completed, at most one per message of the batch, the invocation
    has returned and the flag is clear, however the sends, the deletes
    and the messages turn out. *)
Theorem polling_cycle_ends (actions : list Action) (n : nat) :
  (forall cycle, waiting (run env actions) = [cycle] ->
     (List.length (pending cycle) < n)%nat) ->
  waiting (run env (actions ++ repeat Resume n)) = []
  /\ processing_active (run env (actions ++ repeat Resume n)) = false.
Proof.
  intros H. unfold run. rewrite fold_left_app. apply drains.
  - apply run_tracks.
  - exact H.
Qed.

End Drain.

Lemma polling_cycle_ends_witness :
  Bot.waiting
    (Bot.run sample_bot
       ([Bot.Tick (queue_response [queue_message (lit "rh-1") sample_notification;
                                   queue_message (lit "rh-2") sample_notification])
           (fun _ => all_well)]
        ++ repeat Bot.Resume 2)) = []
  /\ Bot.processing_active
       (Bot.run sample_bot
          ([Bot.Tick (queue_response [queue_message (lit "rh-1") sample_notification;
                                      queue_message (lit "rh-2") sample_notification])
              (fun _ => all_well)]
           ++ repeat Bot.Resume 2)) = false.
Proof.
  apply (polling_cycle_ends sample_bot).
  intros cycle H. vm_compute in H. injection H as <-. cbn. lia.
Defined.

(** ** Configuration *)

Section Settings.
Import Lifecycle.
Variable p : Process.

Lemma lookup_parameter_calls (suffix : str) (decrypt : bool) :
  snd (lookup_parameter p suffix decrypt) = []
  \/ snd (lookup_parameter p suffix decrypt)
     = [{| Name := lit "/" ++ or_default (ENVIRONMENT p) (lit "dev") ++ suffix;
           WithDecryption := decrypt |}].
Proof.
  unfold lookup_parameter. destruct (ssm_client p); [right|left]; reflexivity.
Qed.

(** X11. The bot token of the process environment, when there is one,
    is the token, and the parameter store is not asked.  Without it the
    store is asked at most once, for /<environment>/discord/bot-token
    with decryption, the environment being dev unless it is set; and
    whatever goes wrong there is raised as a ValueError. *)
Theorem token_from_environment_first :
  (forall token, DISCORD_BOT_TOKEN p = Some token -> token <> [] ->
     _get_discord_token p = (Ok (PStr token), []))
  /\ (forall e, fst (_get_discord_token p) = Raise e -> e = ValueError)
  /\ (forall call, In call (snd (_get_discord_token p)) ->
        snd (_get_discord_token p) = [call]
        /\ Name call
           = lit "/" ++ or_default (ENVIRONMENT p) (lit "dev") ++ lit "/discord/bot-token"
        /\ WithDecryption call = true
        /\ (DISCORD_BOT_TOKEN p = None \/ DISCORD_BOT_TOKEN p = Some [])).
Proof.
  unfold _get_discord_token. split; [|split].
  - intros token -> Hne. destruct token; [congruence|reflexivity].
  - intros e. destruct (DISCORD_BOT_TOKEN p) as [[|c t]|]; cbn [fst];
      try discriminate;
      destruct (lookup_parameter p (lit "/discord/bot-token") true) as [[v|e'] made];
      cbn [fst]; congruence.
  - intros call.
    pose proof (lookup_parameter_calls (lit "/discord/bot-token") true) as Hc.
    destruct (DISCORD_BOT_TOKEN p) as [[|c t]|]; cbn [snd];
      try (intros []);
      destruct (lookup_parameter p (lit "/discord/bot-token") true) as [[v|e'] made];
      cbn [snd] in *;
      (destruct Hc as [->| ->]; [intros []|]);
      intros [<-|[]]; repeat split; auto.
Qed.

Lemma channel_id_raises (e : exn) :
  fst (_get_channel_id p) = Raise e -> e = ValueError.
Proof.
  unfold _get_channel_id.
  destruct (DISCORD_CHANNEL_ID p) as [[|c ch]|]; cbn [fst].
  - destruct (lookup_parameter p _ false) as [[v|e2] made]; cbn [fst];
      [destruct (py_int p v)|]; congruence.
  - unfold py_int. destruct (to_int p (c :: ch)); congruence.
  - destruct (lookup_parameter p _ false) as [[v|e2] made]; cbn [fst];
      [destruct (py_int p v)|]; congruence.
Qed.

Lemma token_raises (e : exn) :
  fst (_get_discord_token p) = Raise e -> e = ValueError.
Proof.
  unfold _get_discord_token.
  destruct (DISCORD_BOT_TOKEN p) as [[|c t]|]; cbn [fst];
    try discriminate;
    destruct (lookup_parameter p (lit "/discord/bot-token") true) as [[v|e'] made];
    cbn [fst]; congruence.
Qed.

(** X12. The constructor yields a bot only when the token, the channel
    id and the queue URL are all found: the bot then has [running] set
    and [processing_active] clear, and the queue URL of the environment,
    which is not empty.  Without a queue URL the constructor raises a
    ValueError whatever else is set; an exception that is not a
    ValueError comes from the creation of the clients, after all three
    were found.  With all three in the environment the parameter store
    is never asked. *)
Theorem configuration_is_all_or_nothing :
  (forall settings made, configure p = (Ok settings, made) ->
     running settings = true /\ processing_active settings = false
     /\ SQS_QUEUE_URL p = Some (sqs_queue_url settings)
     /\ sqs_queue_url settings <> []
     /\ environment settings = or_default (ENVIRONMENT p) (lit "dev")
     /\ fst (_get_discord_token p) = Ok (bot_token settings)
     /\ fst (_get_channel_id p) = Ok (channel_id settings))
  /\ (SQS_QUEUE_URL p = None \/ SQS_QUEUE_URL p = Some [] ->
        fst (configure p) = Raise ValueError)
  /\ (forall e, fst (configure p) = Raise e -> e <> ValueError ->
        clients p = Raise e
        /\ is_ok (fst (_get_discord_token p)) = true
        /\ is_ok (fst (_get_channel_id p)) = true
        /\ is_ok (_get_sqs_queue_url p) = true)
  /\ (forall token channel url z,
        DISCORD_BOT_TOKEN p = Some token -> token <> [] ->
        DISCORD_CHANNEL_ID p = Some channel -> channel <> [] ->
        to_int p channel = Some z ->
        SQS_QUEUE_URL p = Some url -> url <> [] ->
        configure p
        = (_ <- clients p ;;
           Ok {| bot_token := PStr token; channel_id := z; sqs_queue_url := url;
                 environment := or_default (ENVIRONMENT p) (lit "dev");
                 running := true; processing_active := false |}, [])).
Proof.
  split; [|split; [|split]].
  - intros settings made. unfold configure.
    destruct (_get_discord_token p) as [[token|e] m1]; [|discriminate].
    destruct (_get_channel_id p) as [[channel|e] m2]; [|discriminate].
    unfold _get_sqs_queue_url.
    destruct (SQS_QUEUE_URL p) as [[|c url]|]; cbn [bind]; try discriminate.
    destruct (clients p) as [[]|e]; cbn [bind]; [|discriminate].
    intros H. injection H as <- _. cbn. repeat split. discriminate.
  - intros Hurl. unfold configure.
    pose proof token_raises as Ht. pose proof channel_id_raises as Hc.
    destruct (_get_discord_token p) as [[token|e1] m1]; cbn [fst] in *.
    + destruct (_get_channel_id p) as [[channel|e2] m2]; cbn [fst] in *.
      * unfold _get_sqs_queue_url.
        destruct Hurl as [-> | ->]; reflexivity.
      * now rewrite (Hc e2 eq_refl).
    + now rewrite (Ht e1 eq_refl).
  - intros e. unfold configure.
    pose proof token_raises as Ht. pose proof channel_id_raises as Hc.
    destruct (_get_discord_token p) as [[token|e1] m1]; cbn [fst] in *.
    + destruct (_get_channel_id p) as [[channel|e2] m2]; cbn [fst] in *.
      * unfold _get_sqs_queue_url.
        destruct (SQS_QUEUE_URL p) as [[|c url]|]; cbn [bind]; try congruence.
        destruct (clients p) as [[]|e3]; cbn [bind]; [discriminate|].
        intros H _. injection H as ->. repeat split.
      * intros H Hne. injection H as <-. now specialize (Hc e2 eq_refl).
    + intros H Hne. injection H as <-. now specialize (Ht e1 eq_refl).
  - intros token channel url z Ht Htne Hc Hcne Hz Hu Hune.
    unfold configure, _get_discord_token, _get_channel_id, _get_sqs_queue_url.
    rewrite Ht, Hc, Hu.
    destruct token; [congruence|]. destruct channel; [congruence|].
    destruct url; [congruence|]. cbn [py_int]. rewrite Hz. reflexivity.
Qed.

End Settings.

(** A process with its whole configuration in the environment. *)
Definition sample_process : Lifecycle.Process :=
  {| Lifecycle.DISCORD_BOT_TOKEN := Some (lit "token-1");
     Lifecycle.DISCORD_CHANNEL_ID := Some (lit "42");
     Lifecycle.SQS_QUEUE_URL := Some (lit "https://sqs.example/queue");
     Lifecycle.ENVIRONMENT := None;
     Lifecycle.ssm_client := Raise (ClientError (lit "no region"));
     Lifecycle.get_parameter := fun _ => Raise (ClientError (lit "denied"));
     Lifecycle.clients := Ok tt;
     Lifecycle.to_int := fun s => if str_eqb s (lit "42") then Some 42%Z else None |}.

Lemma token_from_environment_first_witness :
  Lifecycle._get_discord_token sample_process = (Ok (PStr (lit "token-1")), []).
Proof.
  destruct (token_from_environment_first sample_process) as (H & _).
  apply H; [reflexivity|discriminate].
Defined.

Lemma configuration_is_all_or_nothing_witness :
  fst (Lifecycle.configure sample_process)
  = Ok {| Lifecycle.bot_token := PStr (lit "token-1"); Lifecycle.channel_id := 42;
          Lifecycle.sqs_queue_url := lit "https://sqs.example/queue";
          Lifecycle.environment := lit "dev";
          Lifecycle.running := true; Lifecycle.processing_active := false |}.
Proof.
  destruct (configuration_is_all_or_nothing sample_process) as (_ & _ & _ & H).
  rewrite (H (lit "token-1") (lit "42") (lit "https://sqs.example/queue") 42%Z);
    try reflexivity; discriminate.
Defined.


(** ** The fallback URL *)


(** X13. When no pre-signed URL can be made, the URL that is published
    is https://<bucket>.s3.amazonaws.com/ followed by the quoted key:
    the quoted key holds only letters, digits, the characters _ . - ~ /
    and escapes of % with two upper-case hexadecimal digits, and
    percent-decoding it gives the key back.  This holds for every key
    without surrogate code points; a key that holds one makes the
    fallback raise UnicodeEncodeError. *)
Theorem fallback_url_names_the_key
    (env : Lambda.Env) (bucket_name : py) (object_key : str) (e : exn) :
  Lambda.generate_presigned_url env bucket_name object_key = Raise e ->
  (forallb UrlFacts.scalar object_key = true ->
   exists quoted,
     Lambda._generate_image_url env bucket_name object_key
     = Ok (lit "https://" ++ Lambda.format_py env bucket_name
             ++ lit ".s3.amazonaws.com/" ++ quoted)
     /\ forallb UrlFacts.url_char quoted = true
     /\ Urllib.unquote quoted = object_key)
  /\ (existsb UrlFacts.is_surrogate object_key = true ->
      Lambda._generate_image_url env bucket_name object_key = Raise UnicodeEncodeError).
Proof.
  intros Hurl. unfold Lambda._generate_image_url. rewrite Hurl. split.
  - intros Hkey. destruct (UrlFacts.quote_unquote object_key Hkey) as (q & -> & H1 & H2).
    exists q. auto.
  - intros Hkey. unfold Urllib.quote.
    now rewrite (UrlFacts.encode_surrogate object_key Hkey).
Qed.

(** The sample environment without credentials to sign URLs. *)
Definition unsigned_env : Lambda.Env :=
  {| Lambda.SQS_QUEUE_URL := Lambda.SQS_QUEUE_URL sample_env;
     Lambda.ENVIRONMENT := Lambda.ENVIRONMENT sample_env;
     Lambda.boto3_client := Lambda.boto3_client sample_env;
     Lambda.head_object := Lambda.head_object sample_env;
     Lambda.generate_presigned_url := fun _ _ => Raise (ClientError (lit "no credentials"));
     Lambda.send_message := Lambda.send_message sample_env;
     Lambda.utcnow_isoformat := Lambda.utcnow_isoformat sample_env;
     Lambda.py_str := Lambda.py_str sample_env;
     Lambda.unicode_lower := Lambda.unicode_lower sample_env |}.

Lemma fallback_url_names_the_key_witness :
  exists quoted,
    Lambda._generate_image_url unsigned_env (PStr (lit "imgs")) (lit "my cat/" ++ [233] ++ lit ".png")
    = Ok (lit "https://imgs.s3.amazonaws.com/" ++ quoted)
    /\ Urllib.unquote quoted = lit "my cat/" ++ [233] ++ lit ".png".
Proof.
  destruct (fallback_url_names_the_key unsigned_env (PStr (lit "imgs"))
              (lit "my cat/" ++ [233] ++ lit ".png")
              (ClientError (lit "no credentials")) eq_refl) as (H & _).
  destruct (H eq_refl) as (quoted & H1 & _ & H2).
  exists quoted. split; assumption.
Defined.

(** ** The values [json.loads] returns *)


